(** * Interclub league: fixture scheduler and group standings

    A shallow embedding of two methods of the class [InterclubService]:

    - [generateAndPersistMatchSchedule], the double round-robin fixture
      generator with its four week buckets;
    - [getGroupStandings], the aggregation of completed encounters into
      ranked standings;

    and of the methods around them: tiers, lineups, the execution of an
    encounter, the standings written to a season, and the winner of a
    tournament bracket.

    Conventions of the embedding.

    - Team and player identifiers are [string]s, any of them. An object
      created as [{}] and indexed by such a string answers for the names of
      the members of [Object.prototype] too, and lists its properties with
      the array indices first ([Js]).
    - JavaScript numbers only ever hold small counters here: loop indices,
      matchday numbers and bucket sizes are [nat], the counters of a standing
      are [Z] (the comparator subtracts them).
    - The hosted store is outside the code: what its calls answer is an input
      of the embedded functions ([StoreResponse], [insertFixtures],
      [updateWeekSchedule]).
    - A raised exception is [None] in an [option] result, up to the [catch]
      that turns it into the answer of the method.
    - [JSON.parse] is the engine's: the [results] column is given by what
      [JSON.parse] makes of its text ([Column]). *)

From Stdlib Require Import String Bool Arith ZArith Lia List Permutation Sorted.
From Stdlib Require Import DecimalString.
Import ListNotations.

(** ** List helpers shared by both parts *)

(** [xs[i] = f(xs[i])] on an array: the element at index [i] is replaced,
    the others are kept; an index past the end changes nothing here, the
    callers test the index first. *)
Fixpoint update_nth {A : Type} (i : nat) (f : A -> A) (xs : list A) : list A :=
  match xs, i with
  | [], _ => []
  | x :: xs', 0 => f x :: xs'
  | x :: xs', S i' => x :: update_nth i' f xs'
  end.

(** ** Exceptions *)

(** A computation that may raise: [None] once an exception is raised, and
    what follows is not run. *)
Definition andThen {A B : Type} (x : option A) (k : A -> option B) : option B :=
  match x with
  | Some a => k a
  | None => None
  end.

Notation "x <- e ;; k" := (andThen e (fun x => k))
  (at level 61, e at next level, right associativity).

(** [xs.forEach(x => ...)] with a callback that works on a state and may
    raise: the first exception ends the loop. *)
Fixpoint forEach {S A : Type} (body : S -> A -> option S) (xs : list A) (s : S) : option S :=
  match xs with
  | [] => Some s
  | x :: xs' => s' <- body s x ;; forEach body xs' s'
  end.

(** ** Objects created as [{}] and used as maps *)

Module Js.

(** The methods of [Object.prototype]. An object created as [{}] that has
    no property [k] of its own answers [o[k]] with one of these functions
    when [k] is its name. *)
Definition objectPrototype : list string :=
  ["constructor"; "hasOwnProperty"; "isPrototypeOf"; "propertyIsEnumerable";
   "toLocaleString"; "toString"; "valueOf"; "__defineGetter__"; "__defineSetter__";
   "__lookupGetter__"; "__lookupSetter__"]%string.

Definition inherited (k : string) : bool := existsb (String.eqb k) objectPrototype.

(** The accessor of [Object.prototype]: read, [o.__proto__] is the prototype
    of [o]; assigned an object, it makes that object the prototype of [o]
    and creates no property; assigned a primitive value, it does nothing. *)
Definition proto : string := "__proto__"%string.

(** The names that [{}] answers without having a property of that name. *)
Definition reserved (k : string) : bool := String.eqb k proto || inherited k.

(** The value of a decimal digit. *)
Definition digit (c : Ascii.ascii) : option N :=
  let n := Ascii.N_of_ascii c in
  if (N.leb 48 n && N.leb n 57)%bool then Some (n - 48)%N else None.

Fixpoint digits (s : string) (value : N) : option N :=
  match s with
  | EmptyString => Some value
  | String c s' =>
      match digit c with
      | Some d => digits s' (10 * value + d)%N
      | None => None
      end
  end.

(** [k] as an array index: the canonical decimal text (no leading zero) of
    an integer from 0 to 2^32 - 2. *)
Definition arrayIndex (k : string) : option N :=
  if String.eqb k EmptyString then None
  else if (String.prefix "0" k && negb (String.eqb k "0"))%bool then None
  else
    match digits k 0 with
    | Some n => if (n <=? 4294967294)%N then Some n else None
    | None => None
    end.

Section Order.

Context {A : Type}.

Definition indexed (entry : string * A) : bool :=
  match arrayIndex (fst entry) with
  | Some _ => true
  | None => false
  end.

Definition index (entry : string * A) : N :=
  match arrayIndex (fst entry) with
  | Some n => n
  | None => 0%N
  end.

Fixpoint insertByIndex (x : string * A) (l : list (string * A)) : list (string * A) :=
  match l with
  | [] => [x]
  | y :: l' => if (index x <=? index y)%N then x :: l else y :: insertByIndex x l'
  end.

(** The order in which [Object.keys], [Object.values] and [Object.entries]
    list the properties of an object, from the order of their creation: the
    array indices first, ascending, then the other names as created. *)
Definition ownProperties (created : list (string * A)) : list (string * A) :=
  fold_right insertByIndex [] (filter indexed created) ++
  filter (fun entry => negb (indexed entry)) created.

End Order.

End Js.

Module Scheduler.

Definition TeamId := string.

(** The elements of [raw]. *)
Record RawFixture := mkRaw { home : TeamId; away : TeamId }.

Definition RawFixture_eq_dec (a b : RawFixture) : {a = b} + {a <> b}.
Proof. decide equality; apply string_dec. Defined.

(** [teamIds[i]]. Both loops keep [i] and [j] below [teamIds.length], so the
    default is never read. *)
Definition teamAt (teamIds : list TeamId) (i : nat) : TeamId :=
  nth i teamIds EmptyString.

(** The body of the outer loop at index [i]:
    [for (let j = i + 1; j < teamIds.length; j++) { push; push }]. *)
Definition innerLoop (teamIds : list TeamId) (i : nat) : list RawFixture :=
  flat_map
    (fun j => [ mkRaw (teamAt teamIds i) (teamAt teamIds j);
                mkRaw (teamAt teamIds j) (teamAt teamIds i) ])
    (seq (i + 1) (List.length teamIds - (i + 1))).

(** Step 1: [raw] after [for (let i = 0; i < teamIds.length; i++)]. *)
Definition buildRaw (teamIds : list TeamId) : list RawFixture :=
  flat_map (innerLoop teamIds) (seq 0 (List.length teamIds)).

(** [const weeks = 4]. *)
Definition weeks : nat := 4.

Definition perWeekBase (totalMD : nat) : nat := totalMD / weeks.
Definition extras (totalMD : nat) : nat := totalMD mod weeks.

(** Step 2: [Array.from({ length: weeks }, (_, w) => perWeekBase + (w < extras ? 1 : 0))]. *)
Definition weekBuckets (totalMD : nat) : list nat :=
  map (fun w => perWeekBase totalMD + (if w <? extras totalMD then 1 else 0))
      (seq 0 weeks).

Record WeekEntry := mkWeek { week : nat; matchdays : list nat }.

(** Step 3: [weekBuckets.map((_, w) => ({ week: w + 1, matchdays: [] }))]. *)
Definition initWeekSchedule (buckets : list nat) : list WeekEntry :=
  map (fun w => mkWeek (w + 1) []) (seq 0 (List.length buckets)).

(** [let cum = 0, wk = 0; while (cum + weekBuckets[wk] < matchday) cum += weekBuckets[wk++]].
    [rest] is the part of [weekBuckets] from index [wk] on. Past the end
    [weekBuckets[wk]] is [undefined], the sum is [NaN], the comparison is
    false and the loop stops with [wk = weekBuckets.length]. *)
Fixpoint findWeek (rest : list nat) (matchday cum wk : nat) : nat :=
  match rest with
  | [] => wk
  | b :: rest' =>
      if cum + b <? matchday then findWeek rest' matchday (cum + b) (S wk)
      else wk
  end.

(** [weekSchedule[wk].matchdays.push(matchday)]; reading [.matchdays] of
    [undefined] raises a TypeError. *)
Definition pushMatchday (ws : list WeekEntry) (wk md : nat) : option (list WeekEntry) :=
  match nth_error ws wk with
  | None => None
  | Some _ =>
      Some (update_nth wk (fun e => mkWeek (week e) (matchdays e ++ [md])) ws)
  end.

Record FixtureRow := mkRow {
  season_id : string;
  week_number : nat;
  home_team_id : TeamId;
  away_team_id : TeamId;
  match_date : string;
  status : string;
  group_number : Z
}.

Record LoopState := mkLoop {
  matchday : nat;
  weekSchedule : list WeekEntry;
  fixturesToInsert : list FixtureRow
}.

(** What the method resolves to. *)
Record Outcome := mkOutcome { success : bool; error : option string }.

Section Method.

Variable seasonId : string.
Variable computeMatchDate : nat -> string.
Variable groupNumber : Z.

(** The store: each call answers with its [error] field, [None] when the
    call went through. *)
Variable insertFixtures : list FixtureRow -> option string.
Variable updateWeekSchedule : list WeekEntry -> option string.

(** One turn of [for (const { home, away } of raw)]. *)
Definition assignStep (buckets : list nat) (st : LoopState) (r : RawFixture)
  : option LoopState :=
  let wk := findWeek buckets (matchday st) 0 0 in
  match pushMatchday (weekSchedule st) wk (matchday st) with
  | None => None
  | Some ws =>
      Some (mkLoop (matchday st + 1) ws
              (fixturesToInsert st ++
               [ mkRow seasonId (wk + 1) (home r) (away r)
                       (computeMatchDate (matchday st)) "scheduled"%string groupNumber ]))
  end.

Fixpoint assignLoop (buckets : list nat) (raw : list RawFixture) (st : LoopState)
  : option LoopState :=
  match raw with
  | [] => Some st
  | r :: raw' =>
      match assignStep buckets st r with
      | None => None
      | Some st' => assignLoop buckets raw' st'
      end
  end.

(** Steps 1 to 4: everything before the first call to the store. *)
Definition buildSchedule (teamIds : list TeamId) : option LoopState :=
  let raw := buildRaw teamIds in
  let totalMD := List.length raw in
  let buckets := weekBuckets totalMD in
  assignLoop buckets raw (mkLoop 1 (initWeekSchedule buckets) []).

(** Steps 5 and 6: bulk insert, then the update of [week_schedule]. *)
Definition persist (st : LoopState) : Outcome :=
  match insertFixtures (fixturesToInsert st) with
  | Some msg => mkOutcome false (Some msg)
  | None =>
      match updateWeekSchedule (weekSchedule st) with
      | Some msg => mkOutcome false (Some msg)
      | None => mkOutcome true None
      end
  end.

Definition generateAndPersistMatchSchedule (teamIds : list TeamId) : option Outcome :=
  match buildSchedule teamIds with
  | None => None
  | Some st => Some (persist st)
  end.

End Method.

(** *** Vocabulary of the properties *)

(** The two legs of every pairing of a team with a later one, written by
    recursion on the list; [buildRaw] is shown to compute it. *)
Fixpoint legs (l : list TeamId) : list RawFixture :=
  match l with
  | [] => []
  | x :: xs => flat_map (fun y => [mkRaw x y; mkRaw y x]) xs ++ legs xs
  end.

(** The pairing a stored row is for. *)
Definition pairing (f : FixtureRow) : RawFixture :=
  mkRaw (home_team_id f) (away_team_id f).

(** How many matchdays a week of the schedule holds. *)
Definition load (e : WeekEntry) : nat := List.length (matchdays e).

End Scheduler.

Module Standings.

Local Open Scope Z_scope.

Definition TeamId := string.

(** A row of [interclub_registrations], with the two columns the method
    reads ([reg.user_id], [reg.team_name]). *)
Record Registration := mkReg { user_id : TeamId; reg_team_name : string }.

(** An element of the parsed [results] array other than [null]: [winner] is
    what its property [winner] holds when that is a string, [None] when the
    property is absent or holds something else (as for an element that is a
    number, a string, a boolean or an array). *)
Record IndividualResult := mkResult { winner : option string }.

Inductive Element := Null | Value (result : IndividualResult).

(** What [JSON.parse] makes of a JSON text. *)
Inductive Json := NotAnArray | Array (elements : list Element).

(** The [results] column: null or the empty string, a text that is not
    JSON, or a JSON text. *)
Inductive Column := Empty | Invalid | Text (value : Json).

(** A row of [interclub_matches] with status completed. *)
Record Encounter := mkEnc {
  home_team_id : TeamId;
  away_team_id : TeamId;
  results : Column
}.

(** The entries of [form]: ['W'] or ['L']. *)
Inductive FormResult := W | L.

Record GroupStanding := mkStanding {
  team_id : TeamId;
  team_name : string;
  is_cpu : bool;
  position : Z;
  matches_played : Z;
  encounters_won : Z;
  encounters_lost : Z;
  individual_matches_won : Z;
  individual_matches_lost : Z;
  points : Z;
  form : list FormResult
}.

(** What a query of the store resolves to: [{ data, error }]. *)
Record StoreResponse (A : Type) := mkResponse { data : option A; error : option string }.
Arguments mkResponse {A} _ _.
Arguments data {A} _.
Arguments error {A} _.

(** A query that went through. *)
Definition fetched {A : Type} (rows : list A) : StoreResponse (list A) :=
  mkResponse (Some rows) None.

(** *** The object [standings] *)

(** [const standings: Record<string, GroupStanding> = {}] and what the
    assignments make of it: its own properties in the order of their
    creation, and the standing that an assignment to [__proto__] made its
    prototype, if any. *)
Record Table := mkTable {
  prototype : option GroupStanding;
  properties : list (TeamId * GroupStanding)
}.

Definition empty : Table := mkTable None [].

Fixpoint own (k : TeamId) (l : list (TeamId * GroupStanding)) : option GroupStanding :=
  match l with
  | [] => None
  | (k', v) :: l' => if String.eqb k' k then Some v else own k l'
  end.

(** An existing property keeps its place, a new one is created last. *)
Fixpoint put (k : TeamId) (v : GroupStanding) (l : list (TeamId * GroupStanding))
  : list (TeamId * GroupStanding) :=
  match l with
  | [] => [(k, v)]
  | (k', v') :: l' =>
      if String.eqb k' k then (k', v) :: l' else (k', v') :: put k v l'
  end.

Fixpoint update (k : TeamId) (f : GroupStanding -> GroupStanding)
    (l : list (TeamId * GroupStanding)) : list (TeamId * GroupStanding) :=
  match l with
  | [] => []
  | (k', v) :: l' =>
      if String.eqb k' k then (k', f v) :: l' else (k', v) :: update k f l'
  end.

(** The standing that [standings[k]] is, when it is one: the property [k]
    of the object or, for [__proto__], the standing made its prototype. *)
Definition lookup (k : TeamId) (t : Table) : option GroupStanding :=
  if String.eqb k Js.proto then prototype t else own k (properties t).

(** [standings[k] = v] for a standing [v]. *)
Definition assign (k : TeamId) (v : GroupStanding) (t : Table) : Table :=
  if String.eqb k Js.proto then mkTable (Some v) (properties t)
  else mkTable (prototype t) (put k v (properties t)).

(** In-place mutation of the standing that [standings[k]] is. *)
Definition modify (k : TeamId) (f : GroupStanding -> GroupStanding) (t : Table) : Table :=
  if String.eqb k Js.proto then mkTable (option_map f (prototype t)) (properties t)
  else mkTable (prototype t) (update k f (properties t)).

(** What [standings[k]] evaluates to: a standing; another truthy value, a
    primitive one or not; or [undefined] or a falsy value. *)
Inductive Property :=
| Standing (s : GroupStanding)
| Foreign (primitive : bool)
| Undefined.

Definition ofString (s : string) : Property :=
  if String.eqb s EmptyString then Undefined else Foreign true.

Definition ofNumber (n : Z) : Property :=
  if n =? 0 then Undefined else Foreign true.

(** [o[k]] for the object [{}]: a method of [Object.prototype] or nothing. *)
Definition ofObject (k : string) : Property :=
  if Js.inherited k then Foreign false else Undefined.

(** [p[k]] for a standing [p]: a property of [p] or, through its own
    prototype, of [Object.prototype]. *)
Definition ofStanding (p : GroupStanding) (k : string) : Property :=
  if String.eqb k "team_id" then ofString (team_id p)
  else if String.eqb k "team_name" then ofString (team_name p)
  else if String.eqb k "is_cpu" then (if is_cpu p then Foreign true else Undefined)
  else if String.eqb k "position" then ofNumber (position p)
  else if String.eqb k "matches_played" then ofNumber (matches_played p)
  else if String.eqb k "encounters_won" then ofNumber (encounters_won p)
  else if String.eqb k "encounters_lost" then ofNumber (encounters_lost p)
  else if String.eqb k "individual_matches_won" then ofNumber (individual_matches_won p)
  else if String.eqb k "individual_matches_lost" then ofNumber (individual_matches_lost p)
  else if String.eqb k "points" then ofNumber (points p)
  else if String.eqb k "form" then Foreign false
  else ofObject k.

(** [standings[k]]. A name that is no property of the object is looked up
    along the prototype chain: in the standing made prototype if there is
    one, then in [Object.prototype], of which [__proto__] names the
    prototype itself. *)
Definition read (k : TeamId) (t : Table) : Property :=
  match lookup k t with
  | Some s => Standing s
  | None =>
      if String.eqb k Js.proto then Foreign false
      else
        match prototype t with
        | Some p => ofStanding p k
        | None => ofObject k
        end
  end.

(** [Object.values(standings)]. *)
Definition values (t : Table) : list GroupStanding :=
  map snd (Js.ownProperties (properties t)).

(** *** Initialisation *)

Definition initialStanding (reg : Registration) : GroupStanding :=
  mkStanding (user_id reg) (reg_team_name reg) false 0 0 0 0 0 0 0 [].

(** [registrations?.forEach(reg => { standings[reg.user_id] = {...} })]. *)
Definition initStandings (registrations : list Registration) : Table :=
  fold_left (fun t reg => assign (user_id reg) (initialStanding reg) t) registrations empty.

(** *** One encounter *)

(** [JSON.parse(encounter.results || '[]')]. *)
Definition parse (column : Column) : option Json :=
  match column with
  | Empty => Some (Array [])
  | Invalid => None
  | Text value => Some value
  end.

(** [matches_played++]. *)
Definition played (s : GroupStanding) : GroupStanding :=
  mkStanding (team_id s) (team_name s) (is_cpu s) (position s)
    (matches_played s + 1) (encounters_won s) (encounters_lost s)
    (individual_matches_won s) (individual_matches_lost s) (points s) (form s).

(** [if (standings[k]) { standings[k].matches_played++; }]. On a truthy
    value that is no standing the increment sets a property of that value,
    which raises for a primitive one (the code of a class is strict) and
    leaves the object [standings] as it is otherwise. *)
Definition countMatch (k : TeamId) (t : Table) : option Table :=
  match read k t with
  | Standing _ => Some (modify k played t)
  | Foreign true => None
  | Foreign false => Some t
  | Undefined => Some t
  end.

(** [result.winner === 'home']. *)
Definition wonByHome (r : IndividualResult) : bool :=
  match winner r with
  | Some w => String.eqb w "home"
  | None => false
  end.

(** The callback of [results.forEach]: reading [winner] of [null] raises. *)
Definition countResult (counts : Z * Z) (result : Element) : option (Z * Z) :=
  let (homeWins, awayWins) := counts in
  match result with
  | Null => None
  | Value r => Some (if wonByHome r then (homeWins + 1, awayWins) else (homeWins, awayWins + 1))
  end.

(** [results.forEach(...)] over [homeWins] and [awayWins], both starting at
    0; a parsed value that is not an array has no [forEach]. *)
Definition countWins (results : Json) : option (Z * Z) :=
  match results with
  | NotAnArray => None
  | Array elements => forEach countResult elements (0, 0)
  end.

(** The body of one "Update statistics" block, for the side that won [mine]
    individual matches against [theirs]. *)
Definition updateStatistics (mine theirs : Z) (s : GroupStanding) : GroupStanding :=
  let won := (individual_matches_won s + mine)%Z in
  let lost := (individual_matches_lost s + theirs)%Z in
  if (mine >? theirs)%Z then
    mkStanding (team_id s) (team_name s) (is_cpu s) (position s)
      (matches_played s) (encounters_won s + 1) (encounters_lost s)
      won lost (points s + 3) (form s ++ [W])
  else
    mkStanding (team_id s) (team_name s) (is_cpu s) (position s)
      (matches_played s) (encounters_won s) (encounters_lost s + 1)
      won lost (points s) (form s ++ [L]).

(** [if (standings[k]) { ... standings[k].form.push(...) ... }]. A truthy
    value that is no standing has no [form]: the block raises at [push],
    when it has not raised before. *)
Definition updateSide (k : TeamId) (mine theirs : Z) (t : Table) : option Table :=
  match read k t with
  | Standing _ => Some (modify k (updateStatistics mine theirs) t)
  | Foreign _ => None
  | Undefined => Some t
  end.

(** The callback of [encounters?.forEach]. *)
Definition processEncounter (t : Table) (encounter : Encounter) : option Table :=
  let homeTeamId := home_team_id encounter in
  let awayTeamId := away_team_id encounter in
  results <- parse (results encounter) ;;
  t <- countMatch homeTeamId t ;;
  t <- countMatch awayTeamId t ;;
  counts <- countWins results ;;
  let (homeWins, awayWins) := (counts : Z * Z) in
  t <- updateSide homeTeamId homeWins awayWins t ;;
  updateSide awayTeamId awayWins homeWins t.

(** [standings] when the sort starts, unless an exception was raised. *)
Definition tally (registrations : list Registration) (encounters : list Encounter)
  : option Table :=
  forEach processEncounter encounters (initStandings registrations).

(** *** Ranking *)

(** The comparator handed to [sort]. *)
Definition compareStandings (a b : GroupStanding) : Z :=
  if negb (points b =? points a)%Z then (points b - points a)%Z
  else
    let aDiff := (individual_matches_won a - individual_matches_lost a)%Z in
    let bDiff := (individual_matches_won b - individual_matches_lost b)%Z in
    (bDiff - aDiff)%Z.

Section Sort.

Context {A : Type}.
Variable cmp : A -> A -> Z.

(** [x] goes in front of the first element it does not have to follow. *)
Fixpoint insertBy (x : A) (l : list A) : list A :=
  match l with
  | [] => [x]
  | y :: l' => if (cmp x y <=? 0)%Z then x :: l else y :: insertBy x l'
  end.

(** [Array.prototype.sort(cmp)]. The sort is stable (ECMAScript 2019) and
    the comparator is consistent, which fixes the result; it is computed
    here by inserting the elements from the last to the first. *)
Definition sortBy (l : list A) : list A := fold_right insertBy [] l.

End Sort.

(** [form.slice(-5)]. *)
Definition sliceLast5 {A : Type} (l : list A) : list A :=
  skipn (List.length l - 5)%nat l.

(** The callback of [sortedStandings.forEach((standing, index) => ...)]. *)
Definition assignPosition (index : nat) (s : GroupStanding) : GroupStanding :=
  mkStanding (team_id s) (team_name s) (is_cpu s) (Z.of_nat index + 1)
    (matches_played s) (encounters_won s) (encounters_lost s)
    (individual_matches_won s) (individual_matches_lost s) (points s)
    (sliceLast5 (form s)).

Fixpoint assignPositions (index : nat) (l : list GroupStanding) : list GroupStanding :=
  match l with
  | [] => []
  | s :: l' => assignPosition index s :: assignPositions (S index) l'
  end.

(** [data?.forEach]: a null [data] is walked as no rows. *)
Definition rowsOf {A : Type} (r : StoreResponse (list A)) : list A :=
  match data r with
  | Some rows => rows
  | None => []
  end.

(** The method, from what the two queries answered. An exception raised
    while the encounters are processed is caught: the answer is the empty
    list, as for a query that failed. *)
Definition getGroupStandings
    (encounters : StoreResponse (list Encounter))
    (registrations : StoreResponse (list Registration)) : list GroupStanding :=
  match error encounters with
  | Some _ => []
  | None =>
      match error registrations with
      | Some _ => []
      | None =>
          match tally (rowsOf registrations) (rowsOf encounters) with
          | Some standings =>
              assignPositions 0 (sortBy compareStandings (values standings))
          | None => []
          end
      end
  end.

(** *** Vocabulary of the properties *)

(** The column that holds [JSON.stringify] of individual results. *)
Definition stored (rs : list IndividualResult) : Column := Text (Array (map Value rs)).

(** The individual results of an encounter: the elements of its parsed
    column that are not [null]. *)
Definition individualResults (e : Encounter) : list IndividualResult :=
  match results e with
  | Text (Array elements) =>
      flat_map (fun x => match x with Null => [] | Value r => [r] end) elements
  | _ => []
  end.

(** The column can be read through: it is null or empty, or the JSON text
    of an array without [null]. *)
Definition readable (e : Encounter) : bool :=
  match results e with
  | Empty => true
  | Invalid => false
  | Text NotAnArray => false
  | Text (Array elements) =>
      forallb (fun x => match x with Null => false | Value _ => true end) elements
  end.

(** The individual matches won by the home side and by the away side: a
    result counts for the away side whenever its winner is not ['home']. *)
Definition wins (rs : list IndividualResult) : Z * Z :=
  (Z.of_nat (List.length (filter wonByHome rs)),
   Z.of_nat (List.length (filter (fun r => negb (wonByHome r)) rs))).

(** What the encounter is for its home side and for its away side. *)
Definition homeResult (e : Encounter) : FormResult :=
  let (homeWins, awayWins) := wins (individualResults e) in
  if (homeWins >? awayWins)%Z then W else L.

Definition awayResult (e : Encounter) : FormResult :=
  let (homeWins, awayWins) := wins (individualResults e) in
  if (awayWins >? homeWins)%Z then W else L.

(** The results of team [id], in the order the encounters were supplied. *)
Definition teamResults (id : TeamId) (encounters : list Encounter) : list FormResult :=
  flat_map
    (fun e =>
       (if String.eqb (home_team_id e) id then [homeResult e] else []) ++
       (if String.eqb (away_team_id e) id then [awayResult e] else []))
    encounters.

(** What one encounter does to the entry of team [id]: the four guarded
    blocks of the callback, each applying when its side is [id]. *)
Definition sideUpdate (id : TeamId) (e : Encounter) (s : GroupStanding) : GroupStanding :=
  let isHome := String.eqb (home_team_id e) id in
  let isAway := String.eqb (away_team_id e) id in
  let s := if isHome then played s else s in
  let s := if isAway then played s else s in
  let (homeWins, awayWins) := wins (individualResults e) in
  let s := if isHome then updateStatistics homeWins awayWins s else s in
  if isAway then updateStatistics awayWins homeWins s else s.




(** The names of the properties of the object, in the order of their
    creation. *)
Definition keys (t : Table) : list TeamId := map fst (properties t).

(** The team ids of the registrations. *)
Definition roster (registrations : list Registration) : list TeamId :=
  map user_id registrations.

(** A side of an encounter that the guards treat as intended: a team of
    the roster, or a name to which the object answers [undefined]. *)
Definition sideKnown (ids : list TeamId) (k : TeamId) : bool :=
  existsb (String.eqb k) ids || negb (Js.reserved k).

(** An encounter that is processed without an exception, for a roster that
    does not hold [__proto__]. *)
Definition sound (ids : list TeamId) (e : Encounter) : bool :=
  readable e && sideKnown ids (home_team_id e) && sideKnown ids (away_team_id e).

(** The array handed to [sort]; nothing when an exception was raised. *)
Definition tallied (registrations : list Registration) (encounters : list Encounter)
  : list GroupStanding :=
  match tally registrations encounters with
  | Some standings => values standings
  | None => []
  end.

(** How many sides of the encounter team [id] holds. *)
Definition sides (id : TeamId) (e : Encounter) : Z :=
  (if String.eqb (home_team_id e) id then 1 else 0) +
  (if String.eqb (away_team_id e) id then 1 else 0).

(** Encounter data that is not five individual matches with a winner each:
    a missing winner, or winner counts that do not add up to 5. *)
Definition missingWinner (r : IndividualResult) : bool :=
  match winner r with
  | Some _ => false
  | None => true
  end.

Definition malformed (e : Encounter) : bool :=
  existsb missingWinner (individualResults e) ||
  negb (fst (wins (individualResults e)) + snd (wins (individualResults e)) =? 5).

(** The encounter with ['away'] written for every missing winner. *)
Definition awayByDefault (e : Encounter) : Encounter :=
  let named (x : Element) : Element :=
    match x with
    | Null => Null
    | Value r => if missingWinner r then Value (mkResult (Some "away"%string)) else Value r
    end in
  mkEnc (home_team_id e) (away_team_id e)
    (match results e with
     | Text (Array elements) => Text (Array (map named elements))
     | column => column
     end).

(** The individual matches that the encounters give team [id] as won and
    as lost, side by side. *)
Definition matchesWon (id : TeamId) (encounters : list Encounter) : Z :=
  fold_right
    (fun e total =>
       (if String.eqb (home_team_id e) id then fst (wins (individualResults e)) else 0) +
       (if String.eqb (away_team_id e) id then snd (wins (individualResults e)) else 0) +
       total)
    0 encounters.

Definition matchesLost (id : TeamId) (encounters : list Encounter) : Z :=
  fold_right
    (fun e total =>
       (if String.eqb (home_team_id e) id then snd (wins (individualResults e)) else 0) +
       (if String.eqb (away_team_id e) id then fst (wins (individualResults e)) else 0) +
       total)
    0 encounters.

(** The registrations in the order in which [Object.values] lists the
    standings created for them: those under an array index first, by
    index, then the others as registered. *)
Definition listedOrder (registrations : list Registration) : list Registration :=
  map snd (Js.ownProperties (map (fun reg => (user_id reg, reg)) registrations)).

(** An encounter of which a side is a team of [ids]. *)
Definition involves (ids : list TeamId) (e : Encounter) : bool :=
  existsb (String.eqb (home_team_id e)) ids || existsb (String.eqb (away_team_id e)) ids.

(** Individual matches won minus individual matches lost. *)
Definition matchDiff (s : GroupStanding) : Z :=
  (individual_matches_won s - individual_matches_lost s)%Z.

(** [a] may stand before [b] in the ranking. *)
Definition ranksBefore (a b : GroupStanding) : Prop :=
  (points a > points b \/ (points a = points b /\ matchDiff a >= matchDiff b))%Z.

(** The entries with [p] points and a differential of [d]. *)
Definition tiedAt (p d : Z) (s : GroupStanding) : bool :=
  ((points s =? p) && (matchDiff s =? d))%Z.

(** *** Sample data *)

(** Two registered teams, and encounters of the first at home to the second:
    one won 3 to 2 by the home side, one with no individual result, one with
    two individual results that name no winner. *)
Definition hosts : Registration := mkReg "t1"%string "Hosts"%string.
Definition visitors : Registration := mkReg "t2"%string "Visitors"%string.

(** Two more teams, registered under array indices. *)
Definition tens : Registration := mkReg "10"%string "Tens"%string.
Definition nines : Registration := mkReg "9"%string "Nines"%string.

Definition wonAtHome : IndividualResult := mkResult (Some "home"%string).
Definition wonAway : IndividualResult := mkResult (Some "away"%string).
Definition noWinner : IndividualResult := mkResult None.

Definition threeToTwo : Encounter :=
  mkEnc "t1"%string "t2"%string (stored [wonAtHome; wonAway; wonAtHome; wonAway; wonAtHome]).
Definition nothingPlayed : Encounter := mkEnc "t1"%string "t2"%string (stored []).
Definition twoWithoutWinner : Encounter :=
  mkEnc "t1"%string "t2"%string (stored [noWinner; noWinner]).

Definition againstItself : Encounter :=
  mkEnc "t1"%string "t1"%string (stored [wonAtHome; wonAway; wonAtHome; wonAway; wonAtHome]).
Definition elsewhere : Encounter :=
  mkEnc "t8"%string "t9"%string (stored [wonAtHome; wonAway; wonAtHome; wonAway; wonAtHome]).

End Standings.

Module Tiers.

Import Standings.
Local Open Scope Z_scope.

(** [const progression = ['departmental', 'regional', 'national', 'top12']]. *)
Definition progression : list string :=
  ["departmental"; "regional"; "national"; "top12"]%string.

(** [l.indexOf(x)], counting from [from]: the index of the first element
    strictly equal to [x], or -1. *)
Fixpoint indexOf (x : string) (l : list string) (from : Z) : Z :=
  match l with
  | [] => -1
  | y :: l' => if String.eqb y x then from else indexOf x l' (from + 1)
  end.

(** [getNextTier]; [None] is [null]. The index read is never negative. *)
Definition getNextTier (currentTier : string) : option string :=
  let currentIndex := indexOf currentTier progression 0 in
  if currentIndex <? Z.of_nat (List.length progression) - 1
  then nth_error progression (Z.to_nat (currentIndex + 1))
  else None.

(** [getUserFinalPosition]. [registration] is what the query of the user's
    registration answered, its row reduced to [group_assignment];
    [encounters] and [registrations] are what the two queries of
    [getGroupStandings] answered for that group. [getGroupStandings] raises
    nothing, so the [catch] branch has no counterpart. *)
Definition getUserFinalPosition (userId : TeamId)
    (registration : StoreResponse Z)
    (encounters : StoreResponse (list Encounter))
    (registrations : StoreResponse (list Registration)) : Z :=
  match error registration, data registration with
  | Some _, _ => 999
  | None, None => 999
  | None, Some _ =>
      let standings := getGroupStandings encounters registrations in
      match find (fun s => String.eqb (team_id s) userId) standings with
      | Some userStanding =>
          if position userStanding =? 0 then 999 else position userStanding
      | None => 999
      end
  end.

(** The embedded resource [season:season_id(tier, status)] of a past
    registration, and the registration itself. *)
Record SeasonRef := mkSeasonRef { tier : string; status : string }.
Record PastRegistration := mkPast { season_id : string; season : option SeasonRef }.

(** A string in a condition: the empty string is falsy. *)
Definition truthy (s : string) : bool := negb (String.eqb s EmptyString).

Section UnlockedTiers.

(** What [getUserFinalPosition(userId, seasonId)] answers, by season. *)
Variable finalPositionOf : string -> Z.

(** The body of [for (const registration of pastRegistrations || [])]. *)
Definition unlockStep (unlockedTiers : list string) (registration : PastRegistration)
  : list string :=
  match season registration with
  | None => unlockedTiers
  | Some s =>
      if String.eqb (status s) "completed" then
        if finalPositionOf (season_id registration) <=? 2 then
          match getNextTier (tier s) with
          | Some nextTier =>
              if truthy nextTier && negb (existsb (String.eqb nextTier) unlockedTiers)
              then unlockedTiers ++ [nextTier]
              else unlockedTiers
          | None => unlockedTiers
          end
        else unlockedTiers
      else unlockedTiers
  end.

(** [getUserUnlockedTiers], from what the query of the approved
    registrations answered. *)
Definition getUserUnlockedTiers (pastRegistrations : StoreResponse (list PastRegistration))
  : list string :=
  let unlockedTiers := ["departmental"%string] in
  match error pastRegistrations with
  | Some _ => unlockedTiers
  | None => fold_left unlockStep (rowsOf pastRegistrations) unlockedTiers
  end.

End UnlockedTiers.

(** *** Vocabulary of the properties *)

(** Registration [registration] earns tier [t]: its season is completed,
    the user finished it first or second, and [t] is what [getNextTier]
    gives for the tier of the season. *)
Definition earns (finalPositionOf : string -> Z) (registration : PastRegistration)
    (t : string) : Prop :=
  exists s,
    season registration = Some s /\
    status s = "completed"%string /\
    finalPositionOf (season_id registration) <= 2 /\
    getNextTier (tier s) = Some t.

End Tiers.

Module Lineups.

(** A row of [players], with the columns the methods read. *)
Record Player := mkPlayer { id : string; name : string; gender : string }.

(** [LineupSubmission['lineup']]: two singles and three pairs. *)
Record Lineup := mkLineup {
  mens_singles : string;
  womens_singles : string;
  mens_doubles : string * string;
  womens_doubles : string * string;
  mixed_doubles : string * string
}.

(** [[lineup.mens_singles, lineup.womens_singles, ...lineup.mens_doubles,
      ...lineup.womens_doubles, ...lineup.mixed_doubles]]. *)
Definition allPlayerIds (lineup : Lineup) : list string :=
  [ mens_singles lineup; womens_singles lineup;
    fst (mens_doubles lineup); snd (mens_doubles lineup);
    fst (womens_doubles lineup); snd (womens_doubles lineup);
    fst (mixed_doubles lineup); snd (mixed_doubles lineup) ].

(** An object created as [{}] and used as a map from player ids: its own
    properties in the order of their creation. *)
Definition Dict (A : Type) := list (string * A).

Fixpoint dget {A : Type} (k : string) (d : Dict A) : option A :=
  match d with
  | [] => None
  | (k', v) :: d' => if String.eqb k' k then Some v else dget k d'
  end.

Fixpoint dset {A : Type} (k : string) (v : A) (d : Dict A) : Dict A :=
  match d with
  | [] => [(k, v)]
  | (k', v') :: d' =>
      if String.eqb k' k then (k', v) :: d' else (k', v') :: dset k v d'
  end.

(** What [usage] holds under an id: a count or, for an id that names a
    method of [Object.prototype], the text that [+ 1] made of that
    function and of the texts that followed. *)
Inductive Usage := Times (n : nat) | Concatenated.

(** [usage[id] = (usage[id] || 0) + 1]. For an id that is no property of
    the object yet, [usage[id]] is [undefined] unless the id names a
    member of [Object.prototype]: a method, to which [+ 1] appends "1", or
    [__proto__], the prototype itself, for which the text made by [+ 1] is
    assigned to the accessor and dropped. *)
Definition useOnce (usage : Dict Usage) (id : string) : Dict Usage :=
  match dget id usage with
  | Some (Times n) => dset id (Times (n + 1)) usage
  | Some Concatenated => dset id Concatenated usage
  | None =>
      if String.eqb id Js.proto then usage
      else if Js.inherited id then dset id Concatenated usage
      else dset id (Times (0 + 1)) usage
  end.

(** [ids.forEach(id => { usage[id] = (usage[id] || 0) + 1 })] from [{}]. *)
Definition countUsage (ids : list string) : Dict Usage := fold_left useOnce ids [].

(** [count > 3]: a text that is not the text of a number compares as NaN. *)
Definition moreThan3 (entry : string * Usage) : bool :=
  match snd entry with
  | Times n => 3 <? n
  | Concatenated => false
  end.

(** [{ valid, error? }]. *)
Record Validation := mkValidation { valid : bool; error : option string }.

(** [ids.join(', ')]. *)
Definition joinIds (ids : list string) : string := String.concat ", " ids.

Definition validatePlayerUsageLimit (lineup : Lineup) : Validation :=
  let usage := countUsage (allPlayerIds lineup) in
  let overused := filter moreThan3 (Js.ownProperties usage) in
  if 0 <? List.length overused then
    let overusedList := joinIds (map fst overused) in
    mkValidation false
      (Some (String.append "Players used more than 3 times: " overusedList))
  else mkValidation true None.

(** [p?.gender === g] for what [playerMap[id]] evaluates to: a row, or a
    value without [gender] ([undefined], a method of [Object.prototype], a
    column of the row that an id [__proto__] made the prototype), which
    [None] stands for. Under [__proto__] the object answers with the row
    made its prototype, as [dget] does. *)
Definition hasGender (g : string) (p : option Player) : bool :=
  match p with
  | Some p => String.eqb (gender p) g
  | None => false
  end.

(** [validateLineupConstraints], from what the query of the players
    answered. *)
Definition validateLineupConstraints (lineup : Lineup)
    (players : Standings.StoreResponse (list Player)) : Validation :=
  let playerUsage := countUsage (allPlayerIds lineup) in
  if existsb moreThan3 (Js.ownProperties playerUsage) then
    mkValidation false (Some "Player can participate in maximum 3 matches"%string)
  else
    match Standings.error players, Standings.data players with
    | Some _, _ => mkValidation false (Some "Failed to validate players"%string)
    | None, None => mkValidation false (Some "Failed to validate players"%string)
    | None, Some players =>
        let playerMap := fold_left (fun map player => dset (id player) player map) players [] in
        let mensSinglesPlayer := dget (mens_singles lineup) playerMap in
        let womensSinglesPlayer := dget (womens_singles lineup) playerMap in
        let mensDoublesPlayers :=
          [dget (fst (mens_doubles lineup)) playerMap;
           dget (snd (mens_doubles lineup)) playerMap] in
        let womensDoublesPlayers :=
          [dget (fst (womens_doubles lineup)) playerMap;
           dget (snd (womens_doubles lineup)) playerMap] in
        let mixedDoublesPlayers :=
          [dget (fst (mixed_doubles lineup)) playerMap;
           dget (snd (mixed_doubles lineup)) playerMap] in
        if negb (hasGender "male" mensSinglesPlayer) then
          mkValidation false
            (Some "Men's singles must be played by a male player"%string)
        else if negb (hasGender "female" womensSinglesPlayer) then
          mkValidation false
            (Some "Women's singles must be played by a female player"%string)
        else if existsb (fun p => negb (hasGender "male" p)) mensDoublesPlayers then
          mkValidation false
            (Some "Men's doubles must be played by male players"%string)
        else if existsb (fun p => negb (hasGender "female" p)) womensDoublesPlayers then
          mkValidation false
            (Some "Women's doubles must be played by female players"%string)
        else
          let mixedMale := find (hasGender "male") mixedDoublesPlayers in
          let mixedFemale := find (hasGender "female") mixedDoublesPlayers in
          match mixedMale, mixedFemale with
          | Some _, Some _ => mkValidation true None
          | _, _ =>
              mkValidation false
                (Some "Mixed doubles must have one male and one female player"%string)
          end
    end.

(** [p?.id || fallback]: the id of [p] when there is one and it is not the
    empty string. *)
Definition idOr (p : option Player) (fallback : string) : string :=
  match p with
  | Some p => if Tiers.truthy (id p) then id p else fallback
  | None => fallback
  end.

(** The object [autoLineup], once three male and two female players are
    there: [m0], [m1], [m2] and [f0], [f1] are the first of
    [malePlayers] and [femalePlayers], [males] and [females] what follows
    them. *)
Definition autoLineup (m0 m1 m2 : Player) (males : list Player)
    (f0 f1 : Player) (females : list Player) : Lineup :=
  mkLineup (id m0) (id f0)
    (id m1, id m2)
    (id f1, idOr (nth_error females 0) (id f0))
    (idOr (nth_error males 0) (id m0), idOr (Some f1) (id f0)).

(** [autoGenerateLineup], from what the query of the user's players
    answered (best rank first) and from what [submitLineup] answers for a
    lineup. *)
Definition autoGenerateLineup
    (players : Standings.StoreResponse (list Player))
    (submitLineup : Lineup -> Scheduler.Outcome) : Scheduler.Outcome :=
  let insufficient :=
    Scheduler.mkOutcome false (Some "Insufficient players for auto-generation"%string) in
  match Standings.error players, Standings.data players with
  | Some _, _ => insufficient
  | None, None => insufficient
  | None, Some players =>
      if (List.length players <? 5)%nat then insufficient
      else
        let malePlayers := filter (fun p => String.eqb (gender p) "male") players in
        let femalePlayers := filter (fun p => String.eqb (gender p) "female") players in
        match malePlayers, femalePlayers with
        | m0 :: m1 :: m2 :: males, f0 :: f1 :: females =>
            let lineup := autoLineup m0 m1 m2 males f0 f1 females in
            let validation := validatePlayerUsageLimit lineup in
            if valid validation then submitLineup lineup
            else Scheduler.mkOutcome false (error validation)
        | _, _ =>
            Scheduler.mkOutcome false
              (Some "Insufficient players by gender for auto-generation"%string)
        end
  end.

(** *** Vocabulary of the properties *)

(** How many of the eight places of the lineup player [x] takes. *)
Definition timesUsed (lineup : Lineup) (x : string) : nat :=
  count_occ string_dec (allPlayerIds lineup) x.

(** Among [players] there is a row for the id [x] with gender [g]. *)
Definition listed (players : list Player) (g x : string) : Prop :=
  exists p, In p players /\ id p = x /\ gender p = g.

(** *** Sample data *)

(** A lineup in which one id takes the eight places, and it is the name
    of a method of [Object.prototype]. *)
Definition allToString : Lineup :=
  (mkLineup "toString" "toString" ("toString", "toString") ("toString", "toString")
            ("toString", "toString"))%string.

(** A lineup in which that name and the id of a player take four places
    each. *)
Definition halfToString : Lineup :=
  (mkLineup "toString" "p1" ("toString", "toString") ("p1", "p1") ("toString", "p1"))%string.

(** A lineup in which two players take four places each. *)
Definition crowded : Lineup :=
  (mkLineup "p1" "p2" ("p1", "p1") ("p2", "p2") ("p1", "p2"))%string.

(** A lineup of the five players below that meets every constraint. *)
Definition regular : Lineup :=
  (mkLineup "p1" "p2" ("p3", "p4") ("p2", "p5") ("p1", "p5"))%string.

(** Five players, best rank first: three men and two women. *)
Definition anders : Player := (mkPlayer "p1" "Anders" "male")%string.
Definition bea : Player := (mkPlayer "p2" "Bea" "female")%string.
Definition carl : Player := (mkPlayer "p3" "Carl" "male")%string.
Definition dan : Player := (mkPlayer "p4" "Dan" "male")%string.
Definition eva : Player := (mkPlayer "p5" "Eva" "female")%string.

Definition squad : list Player := [anders; bea; carl; dan; eva].

End Lineups.


Module Groups.

Import Standings.
Local Open Scope Z_scope.

(** An element of the parsed [groups] column of a season: the two
    properties the method touches, and the others as they are. *)
Record Group (A : Type) := mkGroup {
  group_number : Z;
  standings : list GroupStanding;
  others : A
}.
Arguments mkGroup {A} _ _ _.
Arguments group_number {A} _.
Arguments standings {A} _.
Arguments others {A} _.

(** [l.findIndex(p)], counting from [from]: the index of the first element
    that satisfies [p], or -1. *)
Fixpoint findIndex {A : Type} (p : A -> bool) (l : list A) (from : Z) : Z :=
  match l with
  | [] => -1
  | x :: l' => if p x then from else findIndex p l' (from + 1)
  end.

(** [updateGroupStandings]: the value of [groups] that is written back to
    the season, [None] when the method writes nothing. [season] is what the
    query of the season answered, its row reduced to the [groups] column
    after [JSON.parse] ([None] for a null or empty column); the answer to
    the update is not looked at. *)
Definition updateGroupStandings {A : Type} (groupNumber : Z)
    (encounters : StoreResponse (list Encounter))
    (registrations : StoreResponse (list Registration))
    (season : StoreResponse (option (list (Group A)))) : option (list (Group A)) :=
  let standings := getGroupStandings encounters registrations in
  match error season, data season with
  | Some _, _ => None
  | None, None => None
  | None, Some column =>
      let groups := match column with Some groups => groups | None => [] end in
      let groupIndex := findIndex (fun g => group_number g =? groupNumber) groups 0 in
      if 0 <=? groupIndex then
        Some (update_nth (Z.to_nat groupIndex)
                (fun g => mkGroup (group_number g) standings (others g)) groups)
      else None
  end.

End Groups.

Module Execution.

Import Standings.

(** A lineup column of the encounter: null or empty, a text that
    [JSON.parse] reads, or a text on which it raises. *)
Inductive LineupColumn := NoLineup | LineupText | BrokenText.

(** The row of [interclub_matches] the method reads. *)
Record EncounterRow := mkEncounterRow {
  status : string;
  home_team_id : TeamId;
  away_team_id : TeamId;
  home_lineup : LineupColumn;
  away_lineup : LineupColumn
}.

(** What the method writes to the encounter. *)
Record Completion := mkCompletion {
  new_status : string;
  results : list IndividualResult;
  winner_team_id : TeamId;
  final_score : string
}.

(** What the method resolves to: [{ success, error?, results? }], with
    [finalScore], [winner] and [matchResults] in [results]. *)
Record Summary := mkSummary {
  finalScore : string;
  winner : string;
  matchResults : list IndividualResult
}.
Record Execution := mkExecution {
  success : bool;
  error : option string;
  summary : option Summary
}.

(** A count in a template string. *)
Definition decimal (n : nat) : string := NilZero.string_of_uint (Nat.to_uint n).

(** [JSON.parse(column || '{}')]: [false] when it raises. *)
Definition parses (c : LineupColumn) : bool :=
  match c with
  | BrokenText => false
  | _ => true
  end.

Section Method.

(** [MATCH_TYPES], from the types module. *)
Variable MATCH_TYPES : list string.

(** What [executeIndividualMatch] resolves to for a match type, [None] when
    it raises; [match_type] aside, the record pushed on [matchResults] is
    the one it resolves to. *)
Variable executeIndividualMatch : string -> option IndividualResult.

(** The answer of the store to the update. *)
Variable updateEncounter : Completion -> option string.

(** [for (const matchType of MATCH_TYPES)]: [None] when a match raises. *)
Fixpoint playMatches (matchTypes : list string)
    (matchResults : list IndividualResult) (homeWins awayWins : nat)
  : option (list IndividualResult * nat * nat) :=
  match matchTypes with
  | [] => Some (matchResults, homeWins, awayWins)
  | matchType :: rest =>
      match executeIndividualMatch matchType with
      | None => None
      | Some result =>
          if wonByHome result
          then playMatches rest (matchResults ++ [result]) (homeWins + 1) awayWins
          else playMatches rest (matchResults ++ [result]) homeWins (awayWins + 1)
      end
  end.

(** [executeEncounter], from what the query of the encounter answered. The
    call to [updateGroupStandings] that follows the update writes to the
    season and raises nothing; it leaves what the method resolves to as it
    is. *)
Definition executeEncounter (encounter : StoreResponse EncounterRow) : Execution :=
  let raised := mkExecution false (Some "Failed to execute encounter"%string) None in
  match Standings.error encounter, data encounter with
  | Some _, _ => mkExecution false (Some "Encounter not found"%string) None
  | None, None => mkExecution false (Some "Encounter not found"%string) None
  | None, Some encounter =>
      if negb (String.eqb (status encounter) "ready") then
        mkExecution false (Some "Encounter not ready for execution"%string) None
      else if negb (parses (home_lineup encounter) && parses (away_lineup encounter)) then
        raised
      else
        match playMatches MATCH_TYPES [] 0 0 with
        | None => raised
        | Some (matchResults, homeWins, awayWins) =>
            let encounterWinner :=
              if (awayWins <? homeWins)%nat then "home"%string else "away"%string in
            let winnerTeamId :=
              if String.eqb encounterWinner "home"
              then home_team_id encounter else away_team_id encounter in
            let finalScore :=
              String.append (decimal homeWins) (String.append "-" (decimal awayWins)) in
            match updateEncounter
                    (mkCompletion "completed" matchResults winnerTeamId finalScore) with
            | Some message => mkExecution false (Some message) None
            | None =>
                mkExecution true None
                  (Some (mkSummary finalScore encounterWinner matchResults))
            end
        end
  end.

End Method.

(** *** Sample data *)

(** Five match types, an encounter ready to be played, matches that the
    home side wins, and a store that accepts the update. *)
Definition fiveTypes : list string :=
  ["mens_singles"; "womens_singles"; "mens_doubles"; "womens_doubles";
   "mixed_doubles"]%string.
Definition readyRow : EncounterRow :=
  (mkEncounterRow "ready" "t1" "t2" LineupText LineupText)%string.
Definition homeSweep (matchType : string) : option IndividualResult := Some wonAtHome.
Definition accepted (c : Completion) : option string := None.

End Execution.

Module Bracket.

Import Standings.
Local Open Scope Z_scope.

(** A match of a round, with the properties the function reads;
    [scheduledStart] is the time of a valid date, in milliseconds. *)
Record Match := mkMatch {
  completed : bool;
  scheduledStart : Z;
  winnerId : option string
}.

(** A round; [matches] may be missing. *)
Record Round := mkRound { level : Z; matches : option (list Match) }.

(** [l.pop()]: the last element, [None] for [undefined]. *)
Definition pop {A : Type} (l : list A) : option A :=
  match rev l with
  | [] => None
  | x :: _ => Some x
  end.

Section Function.

(** The row of [players], and what the store answers to the query of the
    player with a given id. *)
Variable PlayerRow : Type.
Variable fetchPlayer : string -> StoreResponse PlayerRow.

(** [getTournamentWinner]; [None] is [null]. *)
Definition getTournamentWinner (rounds : list Round) : option PlayerRow :=
  match rounds with
  | [] => None
  | _ =>
      match pop (sortBy (fun a b => level a - level b) rounds) with
      | None => None
      | Some finalRound =>
          match matches finalRound with
          | None => None
          | Some [] => None
          | Some finalMatches =>
              if negb (forallb completed finalMatches) then None
              else
                match pop (sortBy (fun a b => scheduledStart a - scheduledStart b)
                             finalMatches) with
                | None => None
                | Some lastMatch =>
                    match winnerId lastMatch with
                    | None => None
                    | Some id =>
                        if Tiers.truthy id then
                          match error (fetchPlayer id) with
                          | Some _ => None
                          | None => data (fetchPlayer id)
                          end
                        else None
                    end
                end
          end
      end
  end.

End Function.

(** *** Sample data *)

(** A semi-final round with two completed matches and a final, played
    later, won by player p1; a store that knows every player by id. *)
Definition semiFinals : Round :=
  mkRound 1 (Some [mkMatch true 100 (Some "p1"%string);
                   mkMatch true 200 (Some "p2"%string)]).
Definition final : Round :=
  mkRound 2 (Some [mkMatch true 300 (Some "p1"%string)]).
Definition knownPlayer (id : string) : StoreResponse string :=
  mkResponse (Some id) None.

End Bracket.


(** * Properties *)

(** ** Arrays *)

Lemma update_nth_length {A : Type} (f : A -> A) (xs : list A) (i : nat) :
  List.length (update_nth i f xs) = List.length xs.
Proof.
  revert i; induction xs as [|x xs IH]; intros [|i]; simpl; auto.
Qed.

Lemma nth_error_update_nth {A : Type} (f : A -> A) (xs : list A) (i j : nat) :
  nth_error (update_nth i f xs) j =
  if Nat.eqb j i then option_map f (nth_error xs j) else nth_error xs j.
Proof.
  revert i j; induction xs as [|x xs IH]; intros i j.
  - destruct i, j; simpl; try reflexivity; now destruct (Nat.eqb j i).
  - destruct i as [|i], j as [|j]; simpl; try reflexivity.
    apply IH.
Qed.

(** ** Objects and loops *)

Module JsFacts.

(** *** Loops that may raise *)

Lemma forEach_app {S A : Type} (body : S -> A -> option S) (xs ys : list A) (s : S) :
  forEach body (xs ++ ys) s = (s' <- forEach body xs s ;; forEach body ys s').
Proof.
  revert s; induction xs as [|x xs IH]; intros s; cbn [app forEach andThen]; [reflexivity|].
  destruct (body s x) as [s1|]; cbn [andThen]; [apply IH | reflexivity].
Qed.

(** *** The order of the properties *)

Lemma insertByIndex_Permutation {A : Type} (x : string * A) (l : list (string * A)) :
  Permutation (Js.insertByIndex x l) (x :: l).
Proof.
  induction l as [|y l IH]; cbn [Js.insertByIndex]; [reflexivity|].
  destruct (Js.index x <=? Js.index y)%N; [reflexivity|].
  rewrite IH; apply perm_swap.
Qed.

Lemma ownProperties_Permutation {A : Type} (l : list (string * A)) :
  Permutation (Js.ownProperties l) l.
Proof.
  unfold Js.ownProperties.
  assert (H : Permutation (fold_right Js.insertByIndex [] (filter Js.indexed l))
                          (filter Js.indexed l)).
  { generalize (filter Js.indexed l) as m.
    induction m as [|x m IH]; cbn [fold_right]; [reflexivity|].
    now rewrite insertByIndex_Permutation, IH. }
  rewrite H; clear H.
  induction l as [|x l IH]; cbn [filter]; [reflexivity|].
  destruct (Js.indexed x); cbn [negb app].
  - now constructor.
  - apply Permutation_trans
      with (x :: filter Js.indexed l ++ filter (fun entry => negb (Js.indexed entry)) l);
      [symmetry; apply Permutation_middle | now constructor].
Qed.

(** Without an array index among the names, the properties are listed as
    created. *)
Lemma ownProperties_plain {A : Type} (l : list (string * A)) :
  (forall entry, In entry l -> Js.indexed entry = false) -> Js.ownProperties l = l.
Proof.
  unfold Js.ownProperties; induction l as [|x l IH]; cbn [filter]; [reflexivity|].
  intros H; rewrite (H x (or_introl eq_refl)); cbn [negb].
  rewrite <- IH at 3 by (intros entry Hin; apply H; now right).
  destruct (filter Js.indexed l) as [|y m] eqn:E; [reflexivity|].
  exfalso; assert (Hy : In y (filter Js.indexed l)) by (rewrite E; now left).
  apply filter_In in Hy; destruct Hy as [Hy Hi].
  rewrite (H y (or_intror Hy)) in Hi; discriminate Hi.
Qed.

(** The order of the properties depends on their names only. *)
Lemma ownProperties_map {A B : Type} (f : A -> B) (l : list (string * A)) :
  Js.ownProperties (map (fun entry => (fst entry, f (snd entry))) l) =
  map (fun entry => (fst entry, f (snd entry))) (Js.ownProperties l).
Proof.
  set (g := fun entry : string * A => (fst entry, f (snd entry))).
  assert (Hidx : forall x, Js.indexed (g x) = Js.indexed x) by reflexivity.
  assert (Hins : forall x m, Js.insertByIndex (g x) (map g m) = map g (Js.insertByIndex x m)).
  { intros x m; induction m as [|y m IH]; cbn [map Js.insertByIndex]; [reflexivity|].
    change (Js.index (g x)) with (Js.index x); change (Js.index (g y)) with (Js.index y).
    destruct (Js.index x <=? Js.index y)%N; cbn [map]; [reflexivity | now rewrite IH]. }
  assert (Hfilter : forall (p : string * B -> bool) (q : string * A -> bool),
            (forall x, p (g x) = q x) -> filter p (map g l) = map g (filter q l)).
  { intros p q Hpq; induction l as [|x l IH]; cbn [map filter]; [reflexivity|].
    rewrite Hpq; destruct (q x); cbn [map]; now rewrite IH. }
  unfold Js.ownProperties.
  rewrite (Hfilter Js.indexed Js.indexed Hidx).
  rewrite (Hfilter (fun entry => negb (Js.indexed entry))
                   (fun entry => negb (Js.indexed entry)))
    by (intros x; now rewrite Hidx).
  rewrite map_app; f_equal.
  induction (filter Js.indexed l) as [|x m IH]; cbn [map fold_right]; [reflexivity|].
  now rewrite IH, Hins.
Qed.

End JsFacts.

Module SchedulerFacts.

Import Scheduler.

(** *** Step 1 computes [legs] *)

(** Reading an array from index [length pre] on is reading its suffix. *)
Lemma flat_map_index_suffix {B : Type} (h : TeamId -> list B) (l pre : list TeamId) :
  flat_map (fun j => h (teamAt (pre ++ l) j)) (seq (List.length pre) (List.length l)) =
  flat_map h l.
Proof.
  revert pre; induction l as [|y l IH]; intros pre; simpl; [reflexivity|].
  unfold teamAt at 1; rewrite nth_middle; f_equal.
  specialize (IH (pre ++ [y])).
  rewrite <- app_assoc, length_app in IH; simpl in IH.
  rewrite Nat.add_1_r in IH; exact IH.
Qed.

Lemma innerLoop_suffix (pre : list TeamId) (x : TeamId) (xs : list TeamId) :
  innerLoop (pre ++ x :: xs) (List.length pre) =
  flat_map (fun y => [mkRaw x y; mkRaw y x]) xs.
Proof.
  unfold innerLoop.
  replace (teamAt (pre ++ x :: xs) (List.length pre)) with x
    by (unfold teamAt; now rewrite nth_middle).
  replace (List.length (pre ++ x :: xs) - (List.length pre + 1)) with (List.length xs)
    by (rewrite length_app; simpl; lia).
  pose proof (flat_map_index_suffix (fun y => [mkRaw x y; mkRaw y x]) xs (pre ++ [x])) as H.
  rewrite <- app_assoc, length_app in H; simpl in H.
  exact H.
Qed.

Lemma outerLoop_suffix (l pre : list TeamId) :
  flat_map (innerLoop (pre ++ l)) (seq (List.length pre) (List.length l)) = legs l.
Proof.
  revert pre; induction l as [|x xs IH]; intros pre; simpl; [reflexivity|].
  rewrite innerLoop_suffix; f_equal.
  specialize (IH (pre ++ [x])).
  rewrite <- app_assoc, length_app in IH; simpl in IH.
  rewrite Nat.add_1_r in IH; exact IH.
Qed.

Lemma buildRaw_legs (teamIds : list TeamId) : buildRaw teamIds = legs teamIds.
Proof. exact (outerLoop_suffix teamIds []). Qed.

(** *** Counting the fixtures *)

Lemma legs_length (l : list TeamId) :
  List.length (legs l) = List.length l * (List.length l - 1).
Proof.
  induction l as [|x xs IH]; simpl; [reflexivity|].
  rewrite length_app, IH, Nat.sub_0_r.
  assert (H : forall ys, List.length (flat_map (fun y => [mkRaw x y; mkRaw y x]) ys)
                         = 2 * List.length ys)
    by (induction ys as [|y ys IHy]; simpl; [reflexivity | rewrite IHy; lia]).
  rewrite H.
  destruct (List.length xs); simpl; lia.
Qed.

(** Only teams of the list meet in [legs]. *)
Lemma legs_teams (l : list TeamId) (a b : TeamId) :
  In (mkRaw a b) (legs l) -> In a l /\ In b l.
Proof.
  induction l as [|x xs IH]; simpl; [tauto|].
  rewrite in_app_iff, in_flat_map.
  intros [[y [Hy Hin]] | H].
  - simpl in Hin.
    destruct Hin as [E | [E | []]]; inversion E; subst; auto.
  - destruct (IH H); auto.
Qed.

Lemma count_first_leg (x a b : TeamId) (xs : list TeamId) :
  count_occ RawFixture_eq_dec (flat_map (fun y => [mkRaw x y; mkRaw y x]) xs) (mkRaw a b) =
  (if string_dec x a then count_occ string_dec xs b else 0) +
  (if string_dec x b then count_occ string_dec xs a else 0).
Proof.
  induction xs as [|y ys IH]; cbn [flat_map app count_occ].
  - destruct (string_dec x a), (string_dec x b); reflexivity.
  - destruct (RawFixture_eq_dec (mkRaw x y) (mkRaw a b)) as [E1|N1],
             (RawFixture_eq_dec (mkRaw y x) (mkRaw a b)) as [E2|N2];
      rewrite IH; clear IH;
      destruct (string_dec x a) as [Ea|Na], (string_dec x b) as [Eb|Nb],
               (string_dec y b) as [Fb|Gb], (string_dec y a) as [Fa|Ga];
      subst; try lia;
      try (inversion E1; subst; congruence);
      try (inversion E2; subst; congruence);
      try (exfalso; apply N1; reflexivity);
      try (exfalso; apply N2; reflexivity).
Qed.

Lemma count_legs (l : list TeamId) (a b : TeamId) :
  NoDup l -> In a l -> In b l -> a <> b ->
  count_occ RawFixture_eq_dec (legs l) (mkRaw a b) = 1.
Proof.
  induction l as [|x xs IH]; simpl; [tauto|].
  intros Hnd Ha Hb Hab.
  apply NoDup_cons_iff in Hnd; destruct Hnd as [Hx Hnd].
  rewrite count_occ_app, count_first_leg.
  assert (Hone : forall c, In c xs -> count_occ string_dec xs c = 1)
    by (intros c Hc; now apply NoDup_count_occ').
  assert (Hzero : count_occ string_dec xs x = 0)
    by (now apply count_occ_not_In).
  assert (Hout : In x xs -> False) by exact Hx.
  destruct (string_dec x a) as [Ea|Na], (string_dec x b) as [Eb|Nb]; subst.
  - congruence.
  - destruct Hb as [Hb|Hb]; [congruence|].
    rewrite (Hone _ Hb).
    rewrite (proj1 (count_occ_not_In RawFixture_eq_dec (legs xs) (mkRaw a b))); [lia|].
    intros H; apply legs_teams in H; tauto.
  - destruct Ha as [Ha|Ha]; [congruence|].
    rewrite (Hone _ Ha).
    rewrite (proj1 (count_occ_not_In RawFixture_eq_dec (legs xs) (mkRaw a b))); [lia|].
    intros H; apply legs_teams in H; tauto.
  - destruct Ha as [Ha|Ha]; [congruence|].
    destruct Hb as [Hb|Hb]; [congruence|].
    rewrite IH; auto.
Qed.

(** *** The week buckets *)

Lemma weekBuckets_length (totalMD : nat) : List.length (weekBuckets totalMD) = weeks.
Proof. unfold weekBuckets; now rewrite length_map, length_seq. Qed.

Lemma weekBuckets_sum (totalMD : nat) : list_sum (weekBuckets totalMD) = totalMD.
Proof.
  unfold weekBuckets, perWeekBase, extras, weeks; cbn [seq map list_sum].
  pose proof (Nat.div_mod_eq totalMD 4) as Hdm.
  pose proof (Nat.mod_upper_bound totalMD 4 ltac:(lia)) as Hlt.
  remember (totalMD mod 4) as e; remember (totalMD / 4) as q.
  destruct e as [|[|[|[|e]]]]; cbn [Nat.ltb Nat.leb list_sum fold_right]; lia.
Qed.

(** *** The search for the week of a matchday *)

(** A matchday inside the span of the remaining buckets stops the search
    at one of them. *)
Lemma findWeek_bound (rest : list nat) (md cum wk : nat) :
  cum < md <= cum + list_sum rest ->
  wk <= findWeek rest md cum wk < wk + List.length rest.
Proof.
  revert cum wk; induction rest as [|b rest IH]; intros cum wk H; simpl in *.
  - lia.
  - destruct (cum + b <? md) eqn:E.
    + apply Nat.ltb_lt in E.
      specialize (IH (cum + b) (S wk)); lia.
    + lia.
Qed.

(** The matchdays sent to week [w] are one run of consecutive numbers, as
    long as the bucket of [w]. *)
Lemma findWeek_run (rest : list nat) (cum wk w : nat) :
  filter (fun md => findWeek rest md cum wk =? w) (seq (cum + 1) (list_sum rest)) =
  if wk <=? w
  then seq (cum + 1 + list_sum (firstn (w - wk) rest)) (nth (w - wk) rest 0)
  else [].
Proof.
  revert cum wk; induction rest as [|b rest IH]; intros cum wk.
  - simpl. destruct (wk <=? w); [|reflexivity].
    now destruct (w - wk).
  - cbn [list_sum fold_right]; change (fold_right Nat.add 0 rest) with (list_sum rest).
    rewrite seq_app, filter_app.
    assert (Hfst : filter (fun md => findWeek (b :: rest) md cum wk =? w) (seq (cum + 1) b)
                   = if wk =? w then seq (cum + 1) b else []).
    { destruct (wk =? w) eqn:E.
      - rewrite <- (filter_ext_in (fun _ => true)).
        + clear; induction (seq (cum + 1) b); simpl; congruence.
        + intros md Hmd; apply in_seq in Hmd; simpl.
          replace (cum + b <? md) with false by (symmetry; apply Nat.ltb_ge; lia).
          now rewrite E.
      - rewrite <- (filter_ext_in (fun _ => false)).
        + clear; induction (seq (cum + 1) b); simpl; congruence.
        + intros md Hmd; apply in_seq in Hmd; simpl.
          replace (cum + b <? md) with false by (symmetry; apply Nat.ltb_ge; lia).
          now rewrite E. }
    assert (Hsnd : filter (fun md => findWeek (b :: rest) md cum wk =? w)
                     (seq (cum + 1 + b) (list_sum rest))
                   = filter (fun md => findWeek rest md (cum + b) (S wk) =? w)
                       (seq (cum + b + 1) (list_sum rest))).
    { replace (cum + 1 + b) with (cum + b + 1) by lia.
      apply filter_ext_in; intros md Hmd; apply in_seq in Hmd; simpl.
      replace (cum + b <? md) with true by (symmetry; apply Nat.ltb_lt; lia).
      reflexivity. }
    rewrite Hfst, Hsnd, IH; clear Hfst Hsnd IH.
    destruct (wk =? w) eqn:E.
    + apply Nat.eqb_eq in E; subst w.
      replace (S wk <=? wk) with false by (symmetry; apply Nat.leb_gt; lia).
      rewrite Nat.leb_refl, Nat.sub_diag, app_nil_r; simpl.
      f_equal; lia.
    + apply Nat.eqb_neq in E; cbn [app].
      destruct (S wk <=? w) eqn:F.
      * apply Nat.leb_le in F.
        replace (wk <=? w) with true by (symmetry; apply Nat.leb_le; lia).
        replace (w - wk) with (S (w - S wk)) by lia.
        cbn [firstn nth list_sum fold_right].
        change (fold_right Nat.add 0 (firstn (w - S wk) rest))
          with (list_sum (firstn (w - S wk) rest)).
        f_equal; lia.
      * apply Nat.leb_gt in F.
        replace (wk <=? w) with false by (symmetry; apply Nat.leb_gt; lia).
        reflexivity.
Qed.

(** *** The assignment loop *)

Section Loop.

Variable seasonId : string.
Variable computeMatchDate : nat -> string.
Variable groupNumber : Z.
Variable buckets : list nat.

(** As long as the matchdays left fit in the buckets, the loop raises
    nothing: it numbers the fixtures consecutively and files each number
    under the week the search gives. *)
Lemma assignLoop_run (raw : list RawFixture) (st : LoopState) :
  List.length (weekSchedule st) = List.length buckets ->
  1 <= matchday st ->
  matchday st + List.length raw <= list_sum buckets + 1 ->
  exists st',
    assignLoop seasonId computeMatchDate groupNumber buckets raw st = Some st' /\
    matchday st' = matchday st + List.length raw /\
    List.length (weekSchedule st') = List.length buckets /\
    map pairing (fixturesToInsert st') = map pairing (fixturesToInsert st) ++ raw /\
    (forall w,
       nth_error (weekSchedule st') w =
       option_map
         (fun e => mkWeek (week e)
                     (matchdays e ++
                      filter (fun md => findWeek buckets md 0 0 =? w)
                             (seq (matchday st) (List.length raw))))
         (nth_error (weekSchedule st) w)).
Proof.
  revert st; induction raw as [|r raw IH]; intros st Hlen Hmd Hfit.
  - exists st; cbn [assignLoop List.length seq filter].
    repeat split; try lia; try (now rewrite app_nil_r).
    intros w; destruct (nth_error (weekSchedule st) w) as [[wn mds]|]; simpl;
      [now rewrite app_nil_r | reflexivity].
  - cbn [assignLoop List.length] in *.
    unfold assignStep, pushMatchday.
    pose proof (findWeek_bound buckets (matchday st) 0 0) as Hwk.
    cbn [Nat.add] in Hwk; specialize (Hwk ltac:(lia)).
    set (wk := findWeek buckets (matchday st) 0 0) in *.
    destruct (nth_error (weekSchedule st) wk) as [e|] eqn:Ewk;
      [|apply nth_error_None in Ewk; lia].
    match goal with |- context [assignLoop _ _ _ _ _ ?s] => set (st1 := s) end.
    destruct (IH st1) as (st' & Hrun & Hday & Hlen' & Hpairs & Hweeks).
    + subst st1; cbn [weekSchedule]; now rewrite update_nth_length.
    + subst st1; cbn [matchday]; lia.
    + subst st1; cbn [matchday]; lia.
    + exists st'; rewrite Hrun, Hday, Hlen', Hpairs.
      subst st1; cbn [matchday weekSchedule fixturesToInsert].
      repeat split; try lia.
      * rewrite map_app, <- app_assoc; now destruct r.
      * intros w; rewrite Hweeks; cbn [weekSchedule matchday].
        rewrite nth_error_update_nth.
        replace (matchday st + 1) with (S (matchday st)) by lia.
        cbn [seq filter]; fold wk.
        destruct (nth_error (weekSchedule st) w) as [[wn mds]|] eqn:Ew;
          destruct (w =? wk) eqn:E; cbn [option_map week matchdays];
          rewrite ?(Nat.eqb_sym wk w), ?E; try reflexivity.
        -- now rewrite <- app_assoc.
Qed.

End Loop.

(** The method up to its first call to the store, in closed form. *)
Lemma buildSchedule_run (seasonId : string) (computeMatchDate : nat -> string)
    (groupNumber : Z) (teamIds : list TeamId) :
  let totalMD := List.length teamIds * (List.length teamIds - 1) in
  exists st,
    buildSchedule seasonId computeMatchDate groupNumber teamIds = Some st /\
    map pairing (fixturesToInsert st) = legs teamIds /\
    weekSchedule st =
      map (fun w => mkWeek (w + 1)
                      (seq (1 + list_sum (firstn w (weekBuckets totalMD)))
                           (nth w (weekBuckets totalMD) 0)))
          (seq 0 weeks).
Proof.
  intros totalMD; unfold buildSchedule.
  rewrite buildRaw_legs, legs_length; fold totalMD.
  set (B := weekBuckets totalMD).
  destruct (assignLoop_run seasonId computeMatchDate groupNumber B (legs teamIds)
              (mkLoop 1 (initWeekSchedule B) []))
    as (st & Hrun & _ & Hlen & Hpairs & Hweeks).
  - cbn [weekSchedule]; unfold initWeekSchedule; now rewrite length_map, length_seq.
  - cbn [matchday]; lia.
  - cbn [matchday]; unfold B; rewrite weekBuckets_sum, legs_length; fold totalMD; lia.
  - exists st; split; [exact Hrun|]; split; [exact Hpairs|].
    apply nth_error_ext; intros w.
    rewrite Hweeks; cbn [weekSchedule matchday].
    unfold initWeekSchedule.
    replace (List.length B) with weeks by (unfold B; now rewrite weekBuckets_length).
    rewrite !nth_error_map.
    destruct (nth_error (seq 0 weeks) w) as [w'|] eqn:Ew; [|reflexivity].
    assert (w' = w).
    { assert (Hw : w < List.length (seq 0 weeks))
        by (apply nth_error_Some; congruence).
      rewrite length_seq in Hw.
      rewrite nth_error_nth' with (d := 0) in Ew by (now rewrite length_seq).
      rewrite seq_nth in Ew by exact Hw. now inversion Ew. }
    subst w'; cbn [option_map week matchdays app].
    do 2 f_equal.
    pose proof (findWeek_run B 0 0 w) as Hfilter.
    cbn [Nat.add Nat.leb] in Hfilter; rewrite Nat.sub_0_r in Hfilter.
    unfold B in Hfilter at 2; rewrite weekBuckets_sum in Hfilter.
    rewrite legs_length; fold totalMD.
    exact Hfilter.
Qed.

(** *** The fixtures of a group *)

(** C1. For N distinct team identifiers the scheduler raises nothing and
    hands the store exactly N * (N - 1) fixtures, among which every ordered
    pair (i, j) of distinct teams of the input is found exactly once with
    i at home and j away. *)
Theorem schedule_double_round_robin
    (seasonId : string) (computeMatchDate : nat -> string) (groupNumber : Z)
    (insertFixtures : list FixtureRow -> option string)
    (updateWeekSchedule : list WeekEntry -> option string)
    (teamIds : list TeamId) :
  NoDup teamIds ->
  exists st,
    buildSchedule seasonId computeMatchDate groupNumber teamIds = Some st /\
    generateAndPersistMatchSchedule seasonId computeMatchDate groupNumber
      insertFixtures updateWeekSchedule teamIds =
      Some (persist insertFixtures updateWeekSchedule st) /\
    List.length (fixturesToInsert st) = List.length teamIds * (List.length teamIds - 1) /\
    forall i j, In i teamIds -> In j teamIds -> i <> j ->
      count_occ RawFixture_eq_dec (map pairing (fixturesToInsert st)) (mkRaw i j) = 1.
Proof.
  intros Hnd.
  destruct (buildSchedule_run seasonId computeMatchDate groupNumber teamIds)
    as (st & Hrun & Hpairs & _).
  exists st; split; [exact Hrun|]; split; [|split].
  - unfold generateAndPersistMatchSchedule; now rewrite Hrun.
  - rewrite <- (length_map pairing), Hpairs; apply legs_length.
  - intros i j Hi Hj Hij; rewrite Hpairs; now apply count_legs.
Qed.

Lemma schedule_double_round_robin_witness :
  NoDup ["ann"; "bob"; "cyd"]%string /\
  exists st,
    buildSchedule "s1"%string (fun _ => "2026-01-01"%string) 1%Z
      ["ann"; "bob"; "cyd"]%string = Some st /\
    generateAndPersistMatchSchedule "s1"%string (fun _ => "2026-01-01"%string) 1%Z
      (fun _ => None) (fun _ => None) ["ann"; "bob"; "cyd"]%string =
      Some (persist (fun _ => None) (fun _ => None) st) /\
    List.length (fixturesToInsert st) = 3 * (3 - 1) /\
    forall i j, In i ["ann"; "bob"; "cyd"]%string -> In j ["ann"; "bob"; "cyd"]%string ->
      i <> j ->
      count_occ RawFixture_eq_dec (map pairing (fixturesToInsert st)) (mkRaw i j) = 1.
Proof.
  assert (Hnd : NoDup ["ann"; "bob"; "cyd"]%string).
  { repeat constructor; simpl; intros H; repeat destruct H as [H|H];
      try discriminate H; exact H. }
  split; [exact Hnd|].
  exact (schedule_double_round_robin "s1"%string (fun _ => "2026-01-01"%string) 1%Z
           (fun _ => None) (fun _ => None) ["ann"; "bob"; "cyd"]%string Hnd).
Defined.

(** C2. With M = N * (N - 1) matchdays and the scheduler's [weeks], the
    weeks of the schedule hold M div weeks matchdays each and the first
    M mod weeks of them one more; the loads add up to M and no two of them
    differ by more than one. *)
Theorem schedule_week_loads
    (seasonId : string) (computeMatchDate : nat -> string) (groupNumber : Z)
    (teamIds : list TeamId) :
  let totalMD := List.length teamIds * (List.length teamIds - 1) in
  exists st,
    buildSchedule seasonId computeMatchDate groupNumber teamIds = Some st /\
    weekBuckets (List.length (buildRaw teamIds)) =
      map (fun w => totalMD / weeks + (if w <? totalMD mod weeks then 1 else 0))
          (seq 0 weeks) /\
    map load (weekSchedule st) =
      map (fun w => totalMD / weeks + (if w <? totalMD mod weeks then 1 else 0))
          (seq 0 weeks) /\
    list_sum (map load (weekSchedule st)) = totalMD /\
    forall e1 e2, In e1 (weekSchedule st) -> In e2 (weekSchedule st) ->
      load e1 <= load e2 + 1.
Proof.
  intros totalMD.
  destruct (buildSchedule_run seasonId computeMatchDate groupNumber teamIds)
    as (st & Hrun & _ & Hweeks).
  fold totalMD in Hweeks.
  assert (Hloads : map load (weekSchedule st) = weekBuckets totalMD).
  { rewrite Hweeks, map_map; unfold load; cbn [matchdays].
    rewrite (map_ext _ (fun w => nth w (weekBuckets totalMD) 0))
      by (intros w; apply length_seq).
    reflexivity. }
  exists st; split; [exact Hrun|]; split; [|split; [|split]].
  - rewrite buildRaw_legs, legs_length; reflexivity.
  - exact Hloads.
  - rewrite Hloads; apply weekBuckets_sum.
  - intros e1 e2 H1 H2.
    assert (Hrange : forall e, In e (weekSchedule st) ->
                     totalMD / weeks <= load e <= totalMD / weeks + 1).
    { intros e He; apply (in_map load) in He.
      rewrite Hloads in He; unfold weekBuckets, perWeekBase, extras in He.
      apply in_map_iff in He; destruct He as (w & <- & _).
      destruct (w <? totalMD mod weeks); lia. }
    pose proof (Hrange e1 H1); pose proof (Hrange e2 H2); lia.
Qed.

(** C7. With fewer than two teams the scheduler raises nothing and builds
    an empty fixture list over four empty weeks; what it reports is then up
    to the store alone, and it is success once both calls go through. *)
Theorem schedule_fewer_than_two_teams
    (seasonId : string) (computeMatchDate : nat -> string) (groupNumber : Z)
    (insertFixtures : list FixtureRow -> option string)
    (updateWeekSchedule : list WeekEntry -> option string)
    (teamIds : list TeamId) :
  List.length teamIds < 2 ->
  exists st outcome,
    buildSchedule seasonId computeMatchDate groupNumber teamIds = Some st /\
    fixturesToInsert st = [] /\
    weekSchedule st = [mkWeek 1 []; mkWeek 2 []; mkWeek 3 []; mkWeek 4 []] /\
    generateAndPersistMatchSchedule seasonId computeMatchDate groupNumber
      insertFixtures updateWeekSchedule teamIds = Some outcome /\
    (insertFixtures [] = None ->
     updateWeekSchedule (weekSchedule st) = None ->
     outcome = mkOutcome true None) /\
    (success outcome = true <->
     insertFixtures [] = None /\ updateWeekSchedule (weekSchedule st) = None).
Proof.
  intros Hfew.
  assert (Hst : buildSchedule seasonId computeMatchDate groupNumber teamIds =
                Some (mkLoop 1 [mkWeek 1 []; mkWeek 2 []; mkWeek 3 []; mkWeek 4 []] [])).
  { destruct teamIds as [|x [|y l]]; [reflexivity | reflexivity | simpl in Hfew; lia]. }
  eexists; eexists; split; [exact Hst|].
  unfold generateAndPersistMatchSchedule; rewrite Hst.
  cbn [fixturesToInsert weekSchedule].
  repeat split.
  - unfold persist; cbn [fixturesToInsert weekSchedule].
    intros -> ->; reflexivity.
  - unfold persist in H; cbn [fixturesToInsert weekSchedule] in H.
    destruct (insertFixtures []); [discriminate H | reflexivity].
  - unfold persist in H; cbn [fixturesToInsert weekSchedule] in H.
    destruct (insertFixtures []); [discriminate H|].
    destruct (updateWeekSchedule _); [discriminate H | reflexivity].
  - intros [Hi Hu]; unfold persist; cbn [fixturesToInsert weekSchedule].
    now rewrite Hi, Hu.
Qed.

Lemma schedule_fewer_than_two_teams_witness :
  List.length ["ann"%string] < 2 /\
  exists st outcome,
    buildSchedule "s1"%string (fun _ => "2026-01-01"%string) 1%Z ["ann"%string] = Some st /\
    fixturesToInsert st = [] /\
    weekSchedule st = [mkWeek 1 []; mkWeek 2 []; mkWeek 3 []; mkWeek 4 []] /\
    generateAndPersistMatchSchedule "s1"%string (fun _ => "2026-01-01"%string) 1%Z
      (fun _ => None) (fun _ => None) ["ann"%string] = Some outcome /\
    ((fun _ : list FixtureRow => @None string) [] = None ->
     (fun _ : list WeekEntry => @None string) (weekSchedule st) = None ->
     outcome = mkOutcome true None) /\
    (success outcome = true <->
     (fun _ : list FixtureRow => @None string) [] = None /\
     (fun _ : list WeekEntry => @None string) (weekSchedule st) = None).
Proof.
  split; [simpl; lia|].
  apply (schedule_fewer_than_two_teams "s1"%string (fun _ => "2026-01-01"%string) 1%Z
           (fun _ => None) (fun _ => None) ["ann"%string]).
  simpl; lia.
Defined.

(** Four teams: 12 fixtures, three matchdays in each of the four weeks. *)
Example four_teams_schedule :
  option_map (fun st => (List.length (fixturesToInsert st), map matchdays (weekSchedule st)))
    (buildSchedule "s1"%string (fun _ => "2026-01-01"%string) 1%Z
       ["ann"; "bob"; "cyd"; "dee"]%string) =
  Some (12, [[1; 2; 3]; [4; 5; 6]; [7; 8; 9]; [10; 11; 12]]).
Proof. reflexivity. Qed.

(** Three teams: 6 fixtures, the two legs of a pairing on consecutive
    matchdays, and the two matchdays over go to the first two weeks. *)
Example three_teams_schedule :
  option_map
    (fun st => (map (fun f => (week_number f, home_team_id f, away_team_id f))
                    (fixturesToInsert st),
                map matchdays (weekSchedule st)))
    (buildSchedule "s1"%string (fun _ => "2026-01-01"%string) 1%Z
       ["ann"; "bob"; "cyd"]%string) =
  Some ([(1, "ann", "bob"); (1, "bob", "ann"); (2, "ann", "cyd");
         (2, "cyd", "ann"); (3, "bob", "cyd"); (4, "cyd", "bob")]%string,
        [[1; 2]; [3; 4]; [5]; [6]]).
Proof. reflexivity. Qed.

(** A refused insert is reported and the week schedule is not written. *)
Lemma persist_insert_refused
    (insertFixtures : list FixtureRow -> option string)
    (updateWeekSchedule : list WeekEntry -> option string)
    (st : LoopState) (msg : string) :
  insertFixtures (fixturesToInsert st) = Some msg ->
  persist insertFixtures updateWeekSchedule st = mkOutcome false (Some msg).
Proof. unfold persist; now intros ->. Qed.

End SchedulerFacts.

(** ** The standings *)

Module StandingsFacts.

Import Standings JsFacts.
Local Open Scope Z_scope.

(** *** The object [standings] *)

Lemma update_absent (k : TeamId) (f : GroupStanding -> GroupStanding)
    (l : list (TeamId * GroupStanding)) :
  own k l = None -> update k f l = l.
Proof.
  induction l as [|[k' v] l IH]; cbn [own update]; [reflexivity|].
  destruct (String.eqb k' k); [discriminate|].
  intros H; now rewrite IH.
Qed.

Lemma keys_update (k : TeamId) (f : GroupStanding -> GroupStanding)
    (l : list (TeamId * GroupStanding)) :
  map fst (update k f l) = map fst l.
Proof.
  induction l as [|[k' v] l IH]; cbn [update map fst]; [reflexivity|].
  destruct (String.eqb k' k); cbn [map fst]; [reflexivity|].
  now f_equal.
Qed.

Lemma own_update (k id : TeamId) (f : GroupStanding -> GroupStanding)
    (l : list (TeamId * GroupStanding)) :
  own id (update k f l) = if String.eqb k id then option_map f (own id l) else own id l.
Proof.
  induction l as [|[k' v] l IH]; cbn [update own].
  - now destruct (String.eqb k id).
  - destruct (String.eqb k' k) eqn:Ek; cbn [own].
    + apply String.eqb_eq in Ek; subst k'.
      now destruct (String.eqb k id).
    + destruct (String.eqb k' id) eqn:Ei.
      * apply String.eqb_eq in Ei; subst k'.
        now rewrite String.eqb_sym, Ek.
      * exact IH.
Qed.

Lemma keys_put (k : TeamId) (v : GroupStanding) (l : list (TeamId * GroupStanding)) :
  map fst (put k v l) =
  if in_dec string_dec k (map fst l) then map fst l else map fst l ++ [k].
Proof.
  induction l as [|[k' v'] l IH]; cbn [put map fst app]; [reflexivity|].
  destruct (String.eqb_spec k' k) as [->|Hne].
  - cbn [map fst]. destruct (in_dec string_dec k (k :: map fst l)) as [_|N]; [reflexivity|].
    exfalso; apply N; now left.
  - cbn [map fst]; rewrite IH.
    destruct (in_dec string_dec k (map fst l)) as [Hin|Hout];
      destruct (in_dec string_dec k (k' :: map fst l)) as [Hin'|Hout']; try reflexivity.
    + exfalso; apply Hout'; now right.
    + destruct Hin' as [E|Hin']; [congruence | contradiction].
Qed.

Lemma own_put (k id : TeamId) (v : GroupStanding) (l : list (TeamId * GroupStanding)) :
  own id (put k v l) = if String.eqb k id then Some v else own id l.
Proof.
  induction l as [|[k' v'] l IH]; cbn [put own].
  - reflexivity.
  - destruct (String.eqb_spec k' k) as [->|Hne]; cbn [own].
    + now destruct (String.eqb k id).
    + destruct (String.eqb_spec k' id) as [->|Hi].
      * destruct (String.eqb_spec k id); [congruence | reflexivity].
      * exact IH.
Qed.

(** With distinct names, the properties are what the lookups find. *)
Lemma own_In (l : list (TeamId * GroupStanding)) (k : TeamId) (v : GroupStanding) :
  NoDup (map fst l) -> In (k, v) l -> own k l = Some v.
Proof.
  induction l as [|[k' v'] l IH]; cbn [map fst own In]; [tauto|].
  intros Hnd [E|Hin].
  - inversion E; subst; now rewrite String.eqb_refl.
  - apply NoDup_cons_iff in Hnd; destruct Hnd as [Hk Hnd].
    destruct (String.eqb_spec k' k) as [->|Hne].
    + exfalso; apply Hk; change k with (fst (k, v)); now apply in_map.
    + now apply IH.
Qed.

Lemma own_absent (l : list (TeamId * GroupStanding)) (k : TeamId) :
  own k l = None <-> ~ In k (map fst l).
Proof.
  induction l as [|[k' v'] l IH]; cbn [map fst own In]; [tauto|].
  destruct (String.eqb_spec k' k) as [->|Hne].
  - split; [discriminate | tauto].
  - rewrite IH; tauto.
Qed.

Lemma keys_modify (k : TeamId) (f : GroupStanding -> GroupStanding) (t : Table) :
  keys (modify k f t) = keys t.
Proof.
  unfold modify, keys; destruct (String.eqb k Js.proto); cbn [properties]; [reflexivity|].
  apply keys_update.
Qed.

Lemma lookup_modify (k id : TeamId) (f : GroupStanding -> GroupStanding) (t : Table) :
  lookup id (modify k f t) =
  if String.eqb k id then option_map f (lookup id t) else lookup id t.
Proof.
  unfold lookup, modify.
  destruct (String.eqb_spec k Js.proto) as [->|Nk];
    destruct (String.eqb_spec id Js.proto) as [->|Ni]; cbn [prototype properties].
  - now rewrite String.eqb_refl.
  - destruct (String.eqb_spec Js.proto id); [congruence | reflexivity].
  - destruct (String.eqb_spec k Js.proto); [congruence | reflexivity].
  - apply own_update.
Qed.

Lemma modify_absent (k : TeamId) (f : GroupStanding -> GroupStanding) (t : Table) :
  lookup k t = None -> modify k f t = t.
Proof.
  unfold lookup, modify; destruct t as [p l]; cbn [prototype properties].
  destruct (String.eqb k Js.proto).
  - now intros ->.
  - intros H; now rewrite update_absent.
Qed.

Lemma prototype_modify (k : TeamId) (f : GroupStanding -> GroupStanding) (t : Table) :
  prototype (modify k f t) = None <-> prototype t = None.
Proof.
  unfold modify; destruct (String.eqb k Js.proto); cbn [prototype]; [|tauto].
  destruct (prototype t); cbn; split; congruence.
Qed.

Lemma lookup_assign (k id : TeamId) (v : GroupStanding) (t : Table) :
  lookup id (assign k v t) = if String.eqb k id then Some v else lookup id t.
Proof.
  unfold lookup, assign.
  destruct (String.eqb_spec k Js.proto) as [->|Nk];
    destruct (String.eqb_spec id Js.proto) as [->|Ni]; cbn [prototype properties].
  - now rewrite String.eqb_refl.
  - destruct (String.eqb_spec Js.proto id); [congruence | reflexivity].
  - destruct (String.eqb_spec k Js.proto); [congruence | reflexivity].
  - apply own_put.
Qed.

Lemma keys_assign (k : TeamId) (v : GroupStanding) (t : Table) :
  keys (assign k v t) =
  if String.eqb k Js.proto then keys t
  else if in_dec string_dec k (keys t) then keys t else keys t ++ [k].
Proof.
  unfold assign, keys; destruct (String.eqb k Js.proto); cbn [properties]; [reflexivity|].
  apply keys_put.
Qed.

(** A name of the object is a name under which a standing is found, and it
    is not [__proto__] when the object was made by assignments. *)
Lemma lookup_key (t : Table) (k : TeamId) :
  ~ In Js.proto (keys t) -> (In k (keys t) <-> k <> Js.proto /\ lookup k t <> None).
Proof.
  intros Hp; unfold lookup.
  destruct (String.eqb_spec k Js.proto) as [->|Nk].
  - tauto.
  - rewrite own_absent; unfold keys.
    destruct (in_dec string_dec k (map fst (properties t))); tauto.
Qed.

(** *** Initialisation *)

Lemma initStandings_from (registrations : list Registration) (t : Table) :
  let t' := fold_left (fun t reg => assign (user_id reg) (initialStanding reg) t)
                      registrations t in
  (NoDup (keys t) -> NoDup (keys t')) /\
  (forall id, In id (keys t') <->
              In id (keys t) \/ (In id (roster registrations) /\ id <> Js.proto)) /\
  (forall id v, lookup id t' = Some v ->
     lookup id t = Some v \/
     exists reg, In reg registrations /\ user_id reg = id /\ v = initialStanding reg) /\
  (forall id, lookup id t <> None \/ In id (roster registrations) -> lookup id t' <> None).
Proof.
  unfold roster.
  revert t; induction registrations as [|reg regs IH]; intros t; cbn [fold_left map].
  - repeat split; cbn [In]; tauto.
  - destruct (IH (assign (user_id reg) (initialStanding reg) t)) as (Hnd & Hkeys & Hval & Hsome).
    cbv zeta in *.
    set (t' := fold_left _ regs _) in *.
    assert (Hk : forall id, In id (keys (assign (user_id reg) (initialStanding reg) t)) <->
                            In id (keys t) \/ (user_id reg = id /\ id <> Js.proto)).
    { intros id; rewrite keys_assign.
      destruct (String.eqb_spec (user_id reg) Js.proto) as [E|N].
      - split; [tauto | intros [H | [E' N']]; [exact H | congruence]].
      - destruct (in_dec string_dec (user_id reg) (keys t)) as [Hin|Hout].
        + split; [tauto | intros [H | [<- _]]; assumption].
        + rewrite in_app_iff; cbn [In]; split; [|tauto].
          intros [H | [<- | []]]; [now left | right; auto]. }
    split; [|split; [|split]].
    + intros Hnd0; apply Hnd; rewrite keys_assign.
      destruct (String.eqb (user_id reg) Js.proto); [exact Hnd0|].
      destruct (in_dec string_dec (user_id reg) (keys t)) as [Hin|Hout]; [exact Hnd0|].
      apply NoDup_app; [exact Hnd0 | repeat constructor; cbn [In]; tauto |].
      intros x Hx [<- | []]; contradiction.
    + intros id; rewrite Hkeys, Hk; cbn [In]; tauto.
    + intros id v Hl; destruct (Hval id v Hl) as [H | (r & Hr & Hid & Hv)].
      * rewrite lookup_assign in H.
        destruct (String.eqb_spec (user_id reg) id) as [Hid|Hne].
        -- right; exists reg; inversion H; cbn [In]; auto.
        -- now left.
      * right; exists r; cbn [In]; auto.
    + intros id H; apply Hsome.
      rewrite lookup_assign.
      destruct (String.eqb_spec (user_id reg) id) as [Hid|Hne]; [left; discriminate|].
      cbn [In] in H; tauto.
Qed.

Lemma initStandings_keys_NoDup (registrations : list Registration) :
  NoDup (keys (initStandings registrations)).
Proof. apply (initStandings_from registrations empty); constructor. Qed.

Lemma initStandings_keys (registrations : list Registration) (id : TeamId) :
  In id (keys (initStandings registrations)) <->
  In id (roster registrations) /\ id <> Js.proto.
Proof.
  destruct (initStandings_from registrations empty) as (_ & Hkeys & _).
  rewrite (Hkeys id); cbn [keys empty properties map In]; tauto.
Qed.

Lemma initStandings_no_proto (registrations : list Registration) :
  ~ In Js.proto (keys (initStandings registrations)).
Proof. rewrite initStandings_keys; tauto. Qed.

Lemma initStandings_lookup (registrations : list Registration) (id : TeamId)
    (v : GroupStanding) :
  lookup id (initStandings registrations) = Some v ->
  exists reg, In reg registrations /\ user_id reg = id /\ v = initialStanding reg.
Proof.
  intros Hl; destruct (initStandings_from registrations empty) as (_ & _ & Hval & _).
  destruct (Hval id v Hl) as [H | H]; [|exact H].
  unfold lookup in H; cbn [empty prototype properties own] in H.
  destruct (String.eqb id Js.proto); discriminate H.
Qed.

Lemma initStandings_registered (registrations : list Registration) (id : TeamId) :
  lookup id (initStandings registrations) <> None <-> In id (roster registrations).
Proof.
  split.
  - intros H; destruct (lookup id (initStandings registrations)) as [v|] eqn:E; [|congruence].
    apply initStandings_lookup in E; destruct E as (reg & Hreg & <- & _).
    unfold roster; now apply in_map.
  - intros H; apply (initStandings_from registrations empty); now right.
Qed.

Lemma initStandings_prototype (registrations : list Registration) :
  ~ In Js.proto (roster registrations) -> prototype (initStandings registrations) = None.
Proof.
  intros H; rewrite <- initStandings_registered in H.
  unfold lookup in H; rewrite String.eqb_refl in H.
  destruct (prototype (initStandings registrations)); [exfalso; apply H; discriminate | reflexivity].
Qed.

(** *** One encounter *)

Lemma read_standing (k : TeamId) (t : Table) (s : GroupStanding) :
  lookup k t = Some s -> read k t = Standing s.
Proof. unfold read; now intros ->. Qed.

(** What the plain object [{}] answers for a name it does not have. *)
Lemma read_plain (k : TeamId) (t : Table) :
  prototype t = None -> lookup k t = None ->
  read k t = if Js.reserved k then Foreign false else Undefined.
Proof.
  unfold read, Js.reserved, ofObject; intros -> ->.
  destruct (String.eqb k Js.proto); cbn [orb]; reflexivity.
Qed.

Lemma countMatch_modify (k : TeamId) (t t' : Table) :
  countMatch k t = Some t' -> t' = modify k played t.
Proof.
  unfold countMatch, read.
  destruct (lookup k t) as [s|] eqn:E; [now intros [= <-]|].
  rewrite (modify_absent k played t E).
  destruct (String.eqb k Js.proto); [now intros [= <-]|].
  destruct (prototype t) as [p|].
  - destruct (ofStanding p k) as [s|[|]|]; intros [= <-]; reflexivity.
  - destruct (ofObject k) as [s|[|]|]; intros [= <-]; reflexivity.
Qed.

Lemma updateSide_modify (k : TeamId) (mine theirs : Z) (t t' : Table) :
  updateSide k mine theirs t = Some t' -> t' = modify k (updateStatistics mine theirs) t.
Proof.
  unfold updateSide, read.
  destruct (lookup k t) as [s|] eqn:E; [now intros [= <-]|].
  rewrite (modify_absent k _ t E).
  destruct (String.eqb k Js.proto); [discriminate|].
  destruct (prototype t) as [p|].
  - destruct (ofStanding p k) as [s|[|]|]; intros [= <-]; reflexivity.
  - destruct (ofObject k) as [s|[|]|]; intros [= <-]; reflexivity.
Qed.

(** A side is passed as intended when a standing is found under its name,
    or when the plain object answers [undefined] for it. *)
Lemma countMatch_known (k : TeamId) (t : Table) :
  lookup k t <> None \/ (prototype t = None /\ Js.reserved k = false) ->
  countMatch k t = Some (modify k played t).
Proof.
  unfold countMatch; intros [H | [Hp Hr]].
  - destruct (lookup k t) as [s|] eqn:E; [|congruence].
    now rewrite (read_standing k t s E).
  - destruct (lookup k t) as [s|] eqn:E; [now rewrite (read_standing k t s E)|].
    now rewrite (read_plain k t Hp E), Hr, (modify_absent k played t E).
Qed.

Lemma updateSide_known (k : TeamId) (mine theirs : Z) (t : Table) :
  lookup k t <> None \/ (prototype t = None /\ Js.reserved k = false) ->
  updateSide k mine theirs t = Some (modify k (updateStatistics mine theirs) t).
Proof.
  unfold updateSide; intros [H | [Hp Hr]].
  - destruct (lookup k t) as [s|] eqn:E; [|congruence].
    now rewrite (read_standing k t s E).
  - destruct (lookup k t) as [s|] eqn:E; [now rewrite (read_standing k t s E)|].
    now rewrite (read_plain k t Hp E), Hr, (modify_absent k _ t E).
Qed.

Lemma known_modify (k k' : TeamId) (f : GroupStanding -> GroupStanding) (t : Table) :
  lookup k t <> None \/ (prototype t = None /\ Js.reserved k = false) ->
  lookup k (modify k' f t) <> None \/
  (prototype (modify k' f t) = None /\ Js.reserved k = false).
Proof.
  intros [H | [Hp Hr]].
  - left; rewrite lookup_modify.
    destruct (String.eqb k' k); [|exact H].
    destruct (lookup k t); [discriminate | congruence].
  - right; split; [now apply prototype_modify | exact Hr].
Qed.

(** A reserved name under which the plain object has no standing ends the
    callback at [form.push]. *)
Lemma updateSide_reserved (k : TeamId) (mine theirs : Z) (t : Table) :
  prototype t = None -> lookup k t = None -> Js.reserved k = true ->
  updateSide k mine theirs t = None.
Proof.
  intros Hp Hl Hr; unfold updateSide; now rewrite (read_plain k t Hp Hl), Hr.
Qed.

Lemma countResults (elements : list Element) (homeWins awayWins : Z) :
  let rs := flat_map (fun x => match x with Null => [] | Value r => [r] end) elements in
  forEach countResult elements (homeWins, awayWins) =
  if forallb (fun x => match x with Null => false | Value _ => true end) elements
  then Some (homeWins + fst (wins rs), awayWins + snd (wins rs))
  else None.
Proof.
  cbv zeta; revert homeWins awayWins.
  induction elements as [|x xs IH]; intros homeWins awayWins;
    cbn [forEach flat_map forallb].
  - cbn; do 2 f_equal; lia.
  - destruct x as [|r]; cbn [countResult andThen andb app]; [reflexivity|].
    destruct (wonByHome r) eqn:Ew; cbn [andThen]; rewrite IH;
      destruct (forallb _ xs); try reflexivity;
      unfold wins; cbn [filter fst snd]; rewrite Ew; cbn [negb List.length];
      do 2 f_equal; lia.
Qed.

(** Parsing and counting either raise or give the counts of the
    individual results. *)
Lemma counted (e : Encounter) :
  (parsed <- parse (results e) ;; countWins parsed) =
  if readable e then Some (wins (individualResults e)) else None.
Proof.
  unfold readable, individualResults.
  destruct (results e) as [| |[|elements]]; cbn [parse andThen countWins]; try reflexivity.
  rewrite countResults; cbv zeta.
  destruct (forallb _ elements); [|reflexivity].
  now destruct (wins _).
Qed.

(** A callback that ends without an exception has read its column through
    and made the four guarded updates, each on the standing found under the
    name of its side. *)
Lemma processEncounter_effect (t t' : Table) (e : Encounter) :
  processEncounter t e = Some t' ->
  readable e = true /\
  t' = modify (away_team_id e)
         (updateStatistics (snd (wins (individualResults e)))
                           (fst (wins (individualResults e))))
         (modify (home_team_id e)
            (updateStatistics (fst (wins (individualResults e)))
                              (snd (wins (individualResults e))))
            (modify (away_team_id e) played (modify (home_team_id e) played t))).
Proof.
  unfold processEncounter; pose proof (counted e) as Hc.
  destruct (parse (results e)) as [parsed|]; cbn [andThen] in *; [|discriminate].
  destruct (countMatch (home_team_id e) t) as [t1|] eqn:E1; cbn [andThen]; [|discriminate].
  destruct (countMatch (away_team_id e) t1) as [t2|] eqn:E2; cbn [andThen]; [|discriminate].
  destruct (countWins parsed) as [[homeWins awayWins]|]; cbn [andThen]; [|discriminate].
  destruct (updateSide (home_team_id e) homeWins awayWins t2) as [t3|] eqn:E3;
    cbn [andThen]; [|discriminate].
  intros E4.
  destruct (readable e); [|discriminate Hc].
  assert (Hw : wins (individualResults e) = (homeWins, awayWins)) by congruence.
  rewrite Hw; cbn [fst snd].
  apply countMatch_modify in E1, E2; apply updateSide_modify in E3, E4.
  split; [reflexivity | congruence].
Qed.

Lemma processEncounter_keys (t t' : Table) (e : Encounter) :
  processEncounter t e = Some t' -> keys t' = keys t.
Proof.
  intros H; apply processEncounter_effect in H; destruct H as [_ ->].
  now rewrite !keys_modify.
Qed.

Lemma processEncounter_prototype (t t' : Table) (e : Encounter) :
  processEncounter t e = Some t' -> (prototype t' = None <-> prototype t = None).
Proof.
  intros H; apply processEncounter_effect in H; destruct H as [_ ->].
  now rewrite !prototype_modify.
Qed.

Lemma processEncounter_lookup (t t' : Table) (e : Encounter) (id : TeamId) :
  processEncounter t e = Some t' ->
  lookup id t' = option_map (sideUpdate id e) (lookup id t).
Proof.
  intros H; apply processEncounter_effect in H; destruct H as [_ ->].
  unfold sideUpdate; rewrite !lookup_modify.
  destruct (wins (individualResults e)) as [homeWins awayWins]; cbn [fst snd].
  destruct (String.eqb (home_team_id e) id), (String.eqb (away_team_id e) id),
           (lookup id t); reflexivity.
Qed.

(** The callback ends without an exception when the column can be read
    through and both sides are passed as intended. *)
Lemma processEncounter_runs (t : Table) (e : Encounter) :
  readable e = true ->
  (lookup (home_team_id e) t <> None \/
   (prototype t = None /\ Js.reserved (home_team_id e) = false)) ->
  (lookup (away_team_id e) t <> None \/
   (prototype t = None /\ Js.reserved (away_team_id e) = false)) ->
  exists t', processEncounter t e = Some t'.
Proof.
  intros Hr Hh Ha; unfold processEncounter; pose proof (counted e) as Hc.
  rewrite Hr in Hc.
  destruct (parse (results e)) as [parsed|]; cbn [andThen] in *; [|discriminate].
  rewrite (countMatch_known _ _ Hh); cbn [andThen].
  rewrite (countMatch_known _ _ (known_modify _ _ _ _ Ha)); cbn [andThen].
  rewrite Hc; cbn [andThen].
  destruct (wins (individualResults e)) as [homeWins awayWins].
  rewrite (updateSide_known _ _ _ _ (known_modify _ _ _ _ (known_modify _ _ _ _ Hh)));
    cbn [andThen].
  rewrite (updateSide_known _ _ _ _
             (known_modify _ _ _ _ (known_modify _ _ _ _ (known_modify _ _ _ _ Ha)))).
  eexists; reflexivity.
Qed.

Lemma processEncounter_unreadable (t : Table) (e : Encounter) :
  readable e = false -> processEncounter t e = None.
Proof.
  intros Hr; destruct (processEncounter t e) as [t'|] eqn:E; [|reflexivity].
  apply processEncounter_effect in E; destruct E as [E _]; congruence.
Qed.

(** With a side named as a member of [Object.prototype] that is not a
    property of the plain object, the callback raises. *)
Lemma processEncounter_reserved (t : Table) (e : Encounter) (k : TeamId) :
  prototype t = None ->
  k = home_team_id e \/ k = away_team_id e ->
  lookup k t = None -> Js.reserved k = true ->
  processEncounter t e = None.
Proof.
  intros Hp Hk Hl Hr; unfold processEncounter.
  destruct (parse (results e)) as [parsed|]; cbn [andThen]; [|reflexivity].
  destruct (countMatch (home_team_id e) t) as [t1|] eqn:E1; cbn [andThen]; [|reflexivity].
  destruct (countMatch (away_team_id e) t1) as [t2|] eqn:E2; cbn [andThen]; [|reflexivity].
  destruct (countWins parsed) as [[homeWins awayWins]|]; cbn [andThen]; [|reflexivity].
  apply countMatch_modify in E1, E2.
  assert (Hp2 : prototype t2 = None) by (subst t2 t1; now rewrite !prototype_modify).
  assert (Hl2 : lookup k t2 = None).
  { subst t2 t1; rewrite !lookup_modify, Hl.
    destruct (String.eqb (away_team_id e) k), (String.eqb (home_team_id e) k); reflexivity. }
  destruct Hk as [-> | ->].
  - now rewrite (updateSide_reserved _ _ _ _ Hp2 Hl2 Hr).
  - destruct (updateSide (home_team_id e) homeWins awayWins t2) as [t3|] eqn:E3;
      cbn [andThen]; [|reflexivity].
    apply updateSide_modify in E3.
    apply updateSide_reserved; [| |exact Hr].
    + subst t3; now rewrite prototype_modify.
    + subst t3; rewrite lookup_modify, Hl2.
      now destruct (String.eqb (home_team_id e) (away_team_id e)).
Qed.

(** *** All the encounters *)

Lemma forEach_lookup (encounters : list Encounter) (t t' : Table) :
  forEach processEncounter encounters t = Some t' ->
  keys t' = keys t /\
  (prototype t' = None <-> prototype t = None) /\
  forallb readable encounters = true /\
  forall id, lookup id t' =
             option_map (fun s => fold_left (fun s e => sideUpdate id e s) encounters s)
                        (lookup id t).
Proof.
  revert t; induction encounters as [|e encs IH]; intros t; cbn [forEach forallb fold_left].
  - intros [= <-]; repeat split; try tauto.
    intros id; now destruct (lookup id t).
  - destruct (processEncounter t e) as [t1|] eqn:E; cbn [andThen]; [|discriminate].
    intros H; destruct (IH _ H) as (Hk & Hp & Hr & Hl).
    rewrite Hk, Hp, Hr, (processEncounter_keys _ _ _ E), (processEncounter_prototype _ _ _ E),
      (proj1 (processEncounter_effect _ _ _ E)).
    repeat split; try tauto.
    intros id; rewrite Hl, (processEncounter_lookup _ _ _ id E).
    now destruct (lookup id t).
Qed.

(** For a plain object whose standings are those of the teams [ids], the
    loop ends without an exception exactly when every encounter is sound. *)
Lemma forEach_sound (ids : list TeamId) (encounters : list Encounter) (t : Table) :
  prototype t = None ->
  (forall k, lookup k t <> None <-> In k ids) ->
  (forallb (sound ids) encounters = true ->
   exists t', forEach processEncounter encounters t = Some t') /\
  (forallb (sound ids) encounters = false ->
   forEach processEncounter encounters t = None).
Proof.
  assert (Hin : forall k, existsb (String.eqb k) ids = true <-> In k ids).
  { intros k; rewrite existsb_exists; split.
    - intros (x & Hx & E); apply String.eqb_eq in E; now subst.
    - intros Hk; exists k; split; [exact Hk | apply String.eqb_refl]. }
  assert (Hside : forall (t : Table) k, prototype t = None ->
            (forall k, lookup k t <> None <-> In k ids) ->
            (sideKnown ids k = true ->
             lookup k t <> None \/ (prototype t = None /\ Js.reserved k = false)) /\
            (sideKnown ids k = false -> lookup k t = None /\ Js.reserved k = true)).
  { intros t0 k Hp Hl; unfold sideKnown; split.
    - intros H; apply orb_true_iff in H; destruct H as [H | H].
      + left; now apply Hl, Hin.
      + right; split; [exact Hp | now apply negb_true_iff].
    - intros H; apply orb_false_iff in H; destruct H as [H1 H2].
      apply negb_false_iff in H2; split; [|exact H2].
      destruct (lookup k t0) as [s|] eqn:E; [|reflexivity].
      assert (Hk : In k ids) by (apply Hl; congruence).
      apply Hin in Hk; congruence. }
  revert t; induction encounters as [|e encs IH]; intros t Hp Hl; cbn [forEach forallb].
  - split; [intros _; now exists t | discriminate].
  - destruct (sound ids e) eqn:Es; cbn [andb].
    + unfold sound in Es; apply andb_true_iff in Es; destruct Es as [Es Ha].
      apply andb_true_iff in Es; destruct Es as [Hr Hh].
      destruct (processEncounter_runs t e Hr
                  (proj1 (Hside t _ Hp Hl) Hh) (proj1 (Hside t _ Hp Hl) Ha)) as (t1 & E).
      rewrite E; cbn [andThen]; apply IH.
      * now apply (processEncounter_prototype _ _ _ E).
      * intros k; rewrite (processEncounter_lookup _ _ _ k E), <- Hl.
        destruct (lookup k t); cbn [option_map]; split; congruence.
    + split; [discriminate|]; intros _.
      replace (processEncounter t e) with (@None Table); [reflexivity|]; symmetry.
      unfold sound in Es; apply andb_false_iff in Es; destruct Es as [Es | Ha].
      * apply andb_false_iff in Es; destruct Es as [Hr | Hh].
        -- now apply processEncounter_unreadable.
        -- destruct (proj2 (Hside t _ Hp Hl) Hh) as [Hn Hres].
           apply (processEncounter_reserved t e (home_team_id e)); auto.
      * destruct (proj2 (Hside t _ Hp Hl) Ha) as [Hn Hres].
        apply (processEncounter_reserved t e (away_team_id e)); auto.
Qed.

Lemma tally_lookup (registrations : list Registration) (encounters : list Encounter)
    (t : Table) (id : TeamId) :
  tally registrations encounters = Some t ->
  lookup id t =
  option_map (fun s => fold_left (fun s e => sideUpdate id e s) encounters s)
             (lookup id (initStandings registrations)).
Proof. intros H; apply forEach_lookup in H; apply H. Qed.

Lemma tally_keys (registrations : list Registration) (encounters : list Encounter)
    (t : Table) :
  tally registrations encounters = Some t -> keys t = keys (initStandings registrations).
Proof. intros H; apply forEach_lookup in H; apply H. Qed.

(** With a roster that does not hold [__proto__], the tally ends without
    an exception exactly when every encounter is sound. *)
Lemma tally_sound (registrations : list Registration) (encounters : list Encounter) :
  ~ In Js.proto (roster registrations) ->
  (forallb (sound (roster registrations)) encounters = true ->
   exists t, tally registrations encounters = Some t) /\
  (forallb (sound (roster registrations)) encounters = false ->
   tally registrations encounters = None).
Proof.
  intros Hp; apply forEach_sound.
  - now apply initStandings_prototype.
  - apply initStandings_registered.
Qed.

(** The fields of a standing after each of the two updates. *)
Lemma played_fields (s : GroupStanding) :
  let s' := played s in
  team_id s' = team_id s /\
  matches_played s' = matches_played s + 1 /\
  encounters_won s' = encounters_won s /\
  encounters_lost s' = encounters_lost s /\
  individual_matches_won s' = individual_matches_won s /\
  individual_matches_lost s' = individual_matches_lost s /\
  points s' = points s /\
  form s' = form s.
Proof. cbn; repeat split. Qed.

Lemma updateStatistics_fields (mine theirs : Z) (s : GroupStanding) :
  let s' := updateStatistics mine theirs s in
  team_id s' = team_id s /\
  matches_played s' = matches_played s /\
  encounters_won s' = encounters_won s + (if mine >? theirs then 1 else 0) /\
  encounters_lost s' = encounters_lost s + (if mine >? theirs then 0 else 1) /\
  individual_matches_won s' = individual_matches_won s + mine /\
  individual_matches_lost s' = individual_matches_lost s + theirs /\
  points s' = points s + (if mine >? theirs then 3 else 0) /\
  form s' = form s ++ [if mine >? theirs then W else L].
Proof.
  unfold updateStatistics; destruct (mine >? theirs); cbn -[Z.add]; repeat split; lia.
Qed.

(** The fields of a standing after one encounter, by the sides of its
    team. *)
Lemma sideUpdate_fields (id : TeamId) (e : Encounter) (s : GroupStanding) :
  let s' := sideUpdate id e s in
  let isHome := String.eqb (home_team_id e) id in
  let isAway := String.eqb (away_team_id e) id in
  let homeWins := fst (wins (individualResults e)) in
  let awayWins := snd (wins (individualResults e)) in
  let homeWon := homeWins >? awayWins in
  let awayWon := awayWins >? homeWins in
  team_id s' = team_id s /\
  matches_played s' =
    matches_played s + (if isHome then 1 else 0) + (if isAway then 1 else 0) /\
  encounters_won s' =
    encounters_won s + (if isHome && homeWon then 1 else 0)
                     + (if isAway && awayWon then 1 else 0) /\
  encounters_lost s' =
    encounters_lost s + (if isHome && negb homeWon then 1 else 0)
                      + (if isAway && negb awayWon then 1 else 0) /\
  individual_matches_won s' =
    individual_matches_won s + (if isHome then homeWins else 0)
                             + (if isAway then awayWins else 0) /\
  individual_matches_lost s' =
    individual_matches_lost s + (if isHome then awayWins else 0)
                              + (if isAway then homeWins else 0) /\
  points s' =
    points s + (if isHome && homeWon then 3 else 0) + (if isAway && awayWon then 3 else 0) /\
  form s' =
    form s ++ (if isHome then [if homeWon then W else L] else [])
           ++ (if isAway then [if awayWon then W else L] else []).
Proof.
  unfold sideUpdate.
  generalize (wins (individualResults e)); intros [homeWins awayWins]; cbn [fst snd].
  destruct (String.eqb (home_team_id e) id), (String.eqb (away_team_id e) id);
    cbv beta iota zeta; cbn [andb].
  - destruct (updateStatistics_fields awayWins homeWins
                (updateStatistics homeWins awayWins (played (played s))))
      as (A1 & A2 & A3 & A4 & A5 & A6 & A7 & A8).
    destruct (updateStatistics_fields homeWins awayWins (played (played s)))
      as (B1 & B2 & B3 & B4 & B5 & B6 & B7 & B8).
    destruct (played_fields (played s)) as (C1 & C2 & C3 & C4 & C5 & C6 & C7 & C8).
    destruct (played_fields s) as (D1 & D2 & D3 & D4 & D5 & D6 & D7 & D8).
    cbv zeta in *.
    rewrite A1, A2, A3, A4, A5, A6, A7, A8, B1, B2, B3, B4, B5, B6, B7, B8,
      C1, C2, C3, C4, C5, C6, C7, C8, D1, D2, D3, D4, D5, D6, D7, D8.
    destruct (homeWins >? awayWins), (awayWins >? homeWins); cbn [negb];
      rewrite <- ?app_assoc; repeat split; lia.
  - destruct (updateStatistics_fields homeWins awayWins (played s))
      as (B1 & B2 & B3 & B4 & B5 & B6 & B7 & B8).
    destruct (played_fields s) as (D1 & D2 & D3 & D4 & D5 & D6 & D7 & D8).
    cbv zeta in *.
    rewrite B1, B2, B3, B4, B5, B6, B7, B8, D1, D2, D3, D4, D5, D6, D7, D8.
    destruct (homeWins >? awayWins); cbn [negb]; rewrite ?app_nil_r;
      repeat split; lia.
  - destruct (updateStatistics_fields awayWins homeWins (played s))
      as (B1 & B2 & B3 & B4 & B5 & B6 & B7 & B8).
    destruct (played_fields s) as (D1 & D2 & D3 & D4 & D5 & D6 & D7 & D8).
    cbv zeta in *.
    rewrite B1, B2, B3, B4, B5, B6, B7, B8, D1, D2, D3, D4, D5, D6, D7, D8.
    destruct (awayWins >? homeWins); cbn [negb app]; repeat split; lia.
  - rewrite app_nil_r; repeat split; lia.
Qed.

(** The fields one encounter leaves alone, moves together, or appends to. *)
Lemma sideUpdate_effect (id : TeamId) (e : Encounter) (s : GroupStanding) :
  let s' := sideUpdate id e s in
  team_id s' = team_id s /\
  encounters_won s' + encounters_lost s' - matches_played s' =
    encounters_won s + encounters_lost s - matches_played s /\
  form s' = form s ++ teamResults id [e].
Proof.
  destruct (sideUpdate_fields id e s) as (F1 & F2 & F3 & F4 & _ & _ & _ & F8).
  cbv zeta in *; rewrite F1, F2, F3, F4, F8.
  unfold teamResults, homeResult, awayResult; cbn [flat_map]; rewrite app_nil_r.
  generalize (wins (individualResults e)); intros [homeWins awayWins]; cbn [fst snd].
  destruct (String.eqb (home_team_id e) id), (String.eqb (away_team_id e) id),
           (homeWins >? awayWins), (awayWins >? homeWins);
    cbn [andb negb]; repeat split; lia.
Qed.

Lemma sideUpdates_effect (id : TeamId) (encounters : list Encounter) (s : GroupStanding) :
  let s' := fold_left (fun s e => sideUpdate id e s) encounters s in
  team_id s' = team_id s /\
  encounters_won s' + encounters_lost s' - matches_played s' =
    encounters_won s + encounters_lost s - matches_played s /\
  form s' = form s ++ teamResults id encounters.
Proof.
  revert s; induction encounters as [|e encs IH]; intros s; cbn [fold_left].
  - cbn; rewrite app_nil_r; auto.
  - destruct (IH (sideUpdate id e s)) as (Hid & Hbal & Hform).
    destruct (sideUpdate_effect id e s) as (Hid1 & Hbal1 & Hform1).
    cbv zeta in *.
    rewrite Hid, Hbal, Hform, Hid1, Hbal1, Hform1.
    repeat split.
    replace (teamResults id (e :: encs)) with (teamResults id [e] ++ teamResults id encs)
      by (unfold teamResults; cbn [flat_map]; now rewrite app_nil_r).
    now rewrite app_assoc.
Qed.

(** *** The sort *)

Section SortFacts.

Context {A : Type}.
Variable cmp : A -> A -> Z.

Lemma insertBy_Permutation (x : A) (l : list A) :
  Permutation (insertBy cmp x l) (x :: l).
Proof.
  induction l as [|y l IH]; simpl; [reflexivity|].
  destruct (cmp x y <=? 0); [reflexivity|].
  rewrite IH; apply perm_swap.
Qed.

Lemma sortBy_Permutation (l : list A) : Permutation (sortBy cmp l) l.
Proof.
  induction l as [|x l IH]; simpl; [reflexivity|].
  now rewrite insertBy_Permutation, IH.
Qed.

Section Ordered.

(** [R a b]: the comparator lets [a] stand before [b]. *)
Variable R : A -> A -> Prop.
Hypothesis cmp_le : forall x y, cmp x y <= 0 -> R x y.
Hypothesis cmp_gt : forall x y, cmp x y > 0 -> R y x.
Hypothesis R_trans : forall x y z, R x y -> R y z -> R x z.

Lemma insertBy_sorted (x : A) (l : list A) :
  StronglySorted R l -> StronglySorted R (insertBy cmp x l).
Proof.
  induction l as [|y l IH]; intros Hs; simpl.
  - repeat constructor.
  - inversion Hs as [|y' l' Hl Hy]; subst.
    destruct (cmp x y <=? 0) eqn:E.
    + apply Z.leb_le in E; constructor; [exact Hs|].
      constructor; [now apply cmp_le|].
      eapply Forall_impl; [|exact Hy].
      intros z Hz; eapply R_trans; [apply cmp_le; exact E | exact Hz].
    + apply Z.leb_gt in E; constructor; [now apply IH|].
      rewrite (Forall_forall (R y)); intros z Hz.
      apply (Permutation_in _ (insertBy_Permutation x l)) in Hz.
      destruct Hz as [<- | Hz].
      * apply cmp_gt; lia.
      * rewrite Forall_forall in Hy; now apply Hy.
Qed.

Lemma sortBy_sorted (l : list A) : StronglySorted R (sortBy cmp l).
Proof.
  induction l as [|x l IH]; simpl; [constructor | now apply insertBy_sorted].
Qed.

End Ordered.

Section Stable.

(** A class of entries that the comparator does not tell apart keeps
    its order. *)
Variable p : A -> bool.
Hypothesis p_tied : forall x y, p x = true -> p y = true -> cmp x y <= 0.

Lemma insertBy_stable (x : A) (l : list A) :
  filter p (insertBy cmp x l) = filter p (x :: l).
Proof.
  induction l as [|y l IH]; [reflexivity|].
  cbn [insertBy].
  destruct (cmp x y <=? 0) eqn:E; [reflexivity|].
  apply Z.leb_gt in E.
  cbn [filter] in *; rewrite IH.
  destruct (p x) eqn:Px, (p y) eqn:Py; try reflexivity.
  specialize (p_tied x y Px Py); lia.
Qed.

Lemma sortBy_stable (l : list A) : filter p (sortBy cmp l) = filter p l.
Proof.
  induction l as [|x l IH]; [reflexivity|].
  cbn [sortBy fold_right]; fold (sortBy cmp l).
  rewrite insertBy_stable; cbn [filter]; now rewrite IH.
Qed.

End Stable.

End SortFacts.

Lemma compareStandings_le (a b : GroupStanding) :
  compareStandings a b <= 0 -> ranksBefore a b.
Proof.
  unfold compareStandings, ranksBefore, matchDiff.
  destruct (points b =? points a) eqn:E; simpl.
  - apply Z.eqb_eq in E; lia.
  - apply Z.eqb_neq in E; lia.
Qed.

Lemma compareStandings_gt (a b : GroupStanding) :
  compareStandings a b > 0 -> ranksBefore b a.
Proof.
  unfold compareStandings, ranksBefore, matchDiff.
  destruct (points b =? points a) eqn:E; simpl.
  - apply Z.eqb_eq in E; lia.
  - apply Z.eqb_neq in E; lia.
Qed.

Lemma ranksBefore_trans (a b c : GroupStanding) :
  ranksBefore a b -> ranksBefore b c -> ranksBefore a c.
Proof. unfold ranksBefore; lia. Qed.

Lemma compareStandings_tied (p d : Z) (a b : GroupStanding) :
  tiedAt p d a = true -> tiedAt p d b = true -> compareStandings a b <= 0.
Proof.
  unfold tiedAt, compareStandings, matchDiff.
  rewrite !andb_true_iff, !Z.eqb_eq; intros [Ha Da] [Hb Db].
  replace (points b =? points a) with true by (symmetry; apply Z.eqb_eq; lia).
  simpl; lia.
Qed.

(** *** Positions and form *)

Lemma assignPositions_length (l : list GroupStanding) (i : nat) :
  List.length (assignPositions i l) = List.length l.
Proof. revert i; induction l; intros i; simpl; auto. Qed.

Lemma assignPositions_In (l : list GroupStanding) (i : nat) (s : GroupStanding) :
  In s (assignPositions i l) -> exists s0 k, In s0 l /\ s = assignPosition k s0.
Proof.
  revert i; induction l as [|x l IH]; intros i; simpl; [tauto|].
  intros [<- | H].
  - exists x, i; auto.
  - destruct (IH _ H) as (s0 & k & Hin & ->); exists s0, k; auto.
Qed.

Lemma assignPositions_team_id (l : list GroupStanding) (i : nat) :
  map team_id (assignPositions i l) = map team_id l.
Proof. revert i; induction l; intros i; simpl; [reflexivity | now f_equal]. Qed.

Lemma assignPositions_position (l : list GroupStanding) (i : nat) :
  map position (assignPositions i l) = map Z.of_nat (seq (S i) (List.length l)).
Proof.
  revert i; induction l as [|x l IH]; intros i; simpl; [reflexivity|].
  rewrite IH; f_equal; lia.
Qed.

Lemma assignPositions_tied (p d : Z) (l : list GroupStanding) (i : nat) :
  map team_id (filter (tiedAt p d) (assignPositions i l)) =
  map team_id (filter (tiedAt p d) l).
Proof.
  revert i; induction l as [|x l IH]; intros i; simpl; [reflexivity|].
  change (tiedAt p d (assignPosition i x)) with (tiedAt p d x).
  destruct (tiedAt p d x); simpl; now rewrite IH.
Qed.

Lemma assignPositions_sorted (l : list GroupStanding) (i : nat) :
  StronglySorted ranksBefore l -> StronglySorted ranksBefore (assignPositions i l).
Proof.
  intros Hs; revert i; induction Hs as [|x l Hl IH Hx]; intros i; simpl.
  - constructor.
  - constructor; [apply IH|].
    rewrite Forall_forall in *; intros s Hin.
    destruct (assignPositions_In _ _ _ Hin) as (s0 & k & Hin0 & ->).
    exact (Hx s0 Hin0).
Qed.

Lemma sliceLast5_suffix {A : Type} (l : list A) :
  exists older, l = older ++ sliceLast5 l /\
                List.length (sliceLast5 l) = Nat.min 5 (List.length l).
Proof.
  exists (firstn (List.length l - 5) l); unfold sliceLast5; split.
  - now rewrite firstn_skipn.
  - rewrite length_skipn; lia.
Qed.


Lemma assignPositions_member (l : list GroupStanding) (i : nat) (s : GroupStanding) :
  In s l -> exists k, In (assignPosition k s) (assignPositions i l).
Proof.
  revert i; induction l as [|x l IH]; intros i; cbn [In assignPositions]; [tauto|].
  intros [<- | H].
  - exists i; now left.
  - destruct (IH (S i) H) as (k & Hk); exists k; now right.
Qed.

Lemma skipn_last5 {A : Type} (older last more : list A) :
  List.length last = 5%nat ->
  skipn (List.length ((older ++ last) ++ more) - 5) ((older ++ last) ++ more) =
  skipn (List.length (last ++ more) - 5) (last ++ more).
Proof.
  intros Hlast; rewrite <- app_assoc, !length_app, Hlast.
  replace (List.length older + (5 + List.length more) - 5)%nat
    with (List.length older + List.length more)%nat by lia.
  replace (5 + List.length more - 5)%nat with (List.length more) by lia.
  rewrite skipn_app, skipn_all2 by lia.
  now replace (List.length older + List.length more - List.length older)%nat
    with (List.length more) by lia.
Qed.

(** The last five of a list that was cut to its last five and continued
    are the last five of the whole. *)
Lemma sliceLast5_app {A : Type} (l more : list A) :
  sliceLast5 (sliceLast5 l ++ more) = sliceLast5 (l ++ more).
Proof.
  unfold sliceLast5.
  destruct (le_lt_dec (List.length l) 5) as [Hle|Hgt].
  - replace (List.length l - 5)%nat with 0%nat by lia; reflexivity.
  - set (n := (List.length l - 5)%nat).
    assert (Hlast : List.length (skipn n l) = 5%nat) by (rewrite length_skipn; lia).
    transitivity (skipn (List.length ((firstn n l ++ skipn n l) ++ more) - 5)
                        ((firstn n l ++ skipn n l) ++ more)).
    + symmetry; now apply skipn_last5.
    + now rewrite firstn_skipn.
Qed.


(** *** From the entries of the result back to the registrations *)

(** The method, once both queries went through. *)
Lemma getGroupStandings_fetched (registrations : list Registration)
    (encounters : list Encounter) :
  getGroupStandings (fetched encounters) (fetched registrations) =
  assignPositions 0 (sortBy compareStandings (tallied registrations encounters)).
Proof.
  unfold getGroupStandings, tallied, fetched, rowsOf; cbn [error data].
  now destruct (tally registrations encounters).
Qed.

Lemma tally_keys_NoDup (registrations : list Registration) (encounters : list Encounter)
    (t : Table) :
  tally registrations encounters = Some t -> NoDup (keys t).
Proof. intros H; rewrite (tally_keys _ _ _ H); apply initStandings_keys_NoDup. Qed.

(** Every stored standing is the initial one of a registration under the
    same name, taken through the encounters. *)
Lemma tally_entry (registrations : list Registration) (encounters : list Encounter)
    (t : Table) (id : TeamId) (s : GroupStanding) :
  tally registrations encounters = Some t ->
  In (id, s) (properties t) ->
  exists reg,
    In reg registrations /\ user_id reg = id /\
    s = fold_left (fun s e => sideUpdate id e s) encounters (initialStanding reg).
Proof.
  intros Ht Hin.
  assert (Hid : id <> Js.proto).
  { intros ->; apply (initStandings_no_proto registrations).
    rewrite <- (tally_keys _ _ _ Ht); unfold keys.
    change Js.proto with (fst (Js.proto, s)); now apply in_map. }
  apply own_In in Hin; [|apply (tally_keys_NoDup _ _ _ Ht)].
  assert (Hl : lookup id t = Some s).
  { unfold lookup; destruct (String.eqb_spec id Js.proto); [contradiction | exact Hin]. }
  rewrite (tally_lookup _ _ _ id Ht) in Hl.
  destruct (lookup id (initStandings registrations)) as [v|] eqn:Ev; [|discriminate Hl].
  apply initStandings_lookup in Ev; destruct Ev as (reg & Hreg & Hreg_id & ->).
  exists reg; inversion Hl; auto.
Qed.

Lemma values_In (t : Table) (s : GroupStanding) :
  In s (values t) <-> exists id, In (id, s) (properties t).
Proof.
  unfold values; rewrite in_map_iff; split.
  - intros ([id s'] & E & Hin); cbn [snd] in E; subst s'; exists id.
    exact (Permutation_in _ (ownProperties_Permutation _) Hin).
  - intros (id & Hin); exists (id, s); split; [reflexivity|].
    exact (Permutation_in _ (Permutation_sym (ownProperties_Permutation _)) Hin).
Qed.

Lemma tallied_entry (registrations : list Registration) (encounters : list Encounter)
    (s : GroupStanding) :
  In s (tallied registrations encounters) ->
  exists reg,
    In reg registrations /\
    s = fold_left (fun s e => sideUpdate (user_id reg) e s) encounters (initialStanding reg).
Proof.
  unfold tallied; destruct (tally registrations encounters) as [t|] eqn:Ht; [|intros []].
  intros Hin; apply values_In in Hin; destruct Hin as (id & Hin).
  destruct (tally_entry _ _ _ _ _ Ht Hin) as (reg & Hreg & <- & ->).
  exists reg; auto.
Qed.


Lemma result_entry (registrations : list Registration) (encounters : list Encounter)
    (s : GroupStanding) :
  In s (getGroupStandings (fetched encounters) (fetched registrations)) ->
  exists reg k,
    In reg registrations /\
    s = assignPosition k
          (fold_left (fun s e => sideUpdate (user_id reg) e s) encounters
                     (initialStanding reg)).
Proof.
  rewrite getGroupStandings_fetched; intros Hin.
  apply assignPositions_In in Hin; destruct Hin as (s0 & k & Hin & ->).
  apply (Permutation_in _ (sortBy_Permutation compareStandings _)) in Hin.
  destruct (tallied_entry _ _ _ Hin) as (reg & Hreg & ->).
  exists reg, k; auto.
Qed.


Lemma result_registered (registrations : list Registration) (encounters : list Encounter)
    (s : GroupStanding) :
  In s (getGroupStandings (fetched encounters) (fetched registrations)) ->
  In (team_id s) (roster registrations).
Proof.
  intros Hin; destruct (result_entry _ _ _ Hin) as (reg & k & Hreg & ->).
  destruct (sideUpdates_effect (user_id reg) encounters (initialStanding reg)) as (Hid & _).
  cbv zeta in Hid; cbn [assignPosition team_id]; rewrite Hid.
  unfold roster; cbn [initialStanding team_id]; now apply in_map.
Qed.

(** When every encounter is sound, the standing found under the id of a
    team after the initialisation is in the result, taken through the
    encounters. *)
Lemma result_for_team (registrations : list Registration) (encounters : list Encounter)
    (id : TeamId) :
  ~ In Js.proto (roster registrations) ->
  forallb (sound (roster registrations)) encounters = true ->
  In id (roster registrations) ->
  exists reg,
    In reg registrations /\ user_id reg = id /\
    lookup id (initStandings registrations) = Some (initialStanding reg) /\
    exists k,
      In (assignPosition k
            (fold_left (fun s e => sideUpdate id e s) encounters (initialStanding reg)))
         (getGroupStandings (fetched encounters) (fetched registrations)).
Proof.
  intros Hp Hs Hid.
  destruct (proj1 (tally_sound registrations encounters Hp) Hs) as (t & Ht).
  assert (Hne : id <> Js.proto) by (intros ->; contradiction).
  destruct (lookup id (initStandings registrations)) as [v|] eqn:Ev;
    [|exfalso; now apply (initStandings_registered registrations id)].
  destruct (initStandings_lookup _ _ _ Ev) as (reg & Hreg & Hreg_id & ->).
  exists reg; split; [exact Hreg|]; split; [exact Hreg_id|]; split; [reflexivity|].
  rewrite getGroupStandings_fetched; apply assignPositions_member.
  apply (Permutation_in _ (Permutation_sym (sortBy_Permutation compareStandings _))).
  unfold tallied; rewrite Ht; apply values_In; exists id.
  pose proof (tally_lookup _ _ _ id Ht) as Hl; rewrite Ev in Hl; cbn [option_map] in Hl.
  unfold lookup in Hl; destruct (String.eqb_spec id Js.proto); [contradiction|].
  clear - Hl; induction (properties t) as [|[k v] l IH]; cbn [own] in Hl; [discriminate|].
  destruct (String.eqb_spec k id) as [->|N]; [left; congruence | right; now apply IH].
Qed.

Lemma forallb_sound_app (ids : list TeamId) (encounters : list Encounter) (e : Encounter) :
  forallb (sound ids) (encounters ++ [e]) = true ->
  forallb (sound ids) encounters = true /\ sound ids e = true.
Proof.
  rewrite forallb_app; cbn [forallb]; rewrite andb_true_r.
  apply andb_true_iff.
Qed.

(** The entries of a team before and after one more encounter. *)
Lemma result_step (registrations : list Registration) (encounters : list Encounter)
    (e : Encounter) (id : TeamId) :
  ~ In Js.proto (roster registrations) ->
  forallb (sound (roster registrations)) (encounters ++ [e]) = true ->
  In id (roster registrations) ->
  exists s0 k k',
    team_id s0 = id /\
    In (assignPosition k s0)
       (getGroupStandings (fetched encounters) (fetched registrations)) /\
    In (assignPosition k' (sideUpdate id e s0))
       (getGroupStandings (fetched (encounters ++ [e])) (fetched registrations)).
Proof.
  intros Hp Hs Hid.
  destruct (result_for_team registrations (encounters ++ [e]) id Hp Hs Hid)
    as (reg' & _ & _ & Hl' & k' & Hin').
  destruct (result_for_team registrations encounters id Hp
              (proj1 (forallb_sound_app _ _ _ Hs)) Hid)
    as (reg & Hreg & Hreg_id & Hl & k & Hin).
  assert (E : initialStanding reg' = initialStanding reg) by congruence.
  rewrite E, fold_left_app in Hin'; cbn [fold_left] in Hin'.
  eexists; exists k, k'; split; [|split; [exact Hin | exact Hin']].
  destruct (sideUpdates_effect id encounters (initialStanding reg)) as (-> & _).
  exact Hreg_id.
Qed.

(** *** The ranking *)

(** C4. The result is made of the entries the tallying left, ordered by
    points from the highest down and, at equal points, by individual
    matches won minus lost from the highest down; entries equal on both
    keep the order in which the object lists them; the positions are
    1, 2, 3, ... along the result. *)
Theorem standings_ranking (registrations : list Registration)
    (encounters : list Encounter) :
  let before := tallied registrations encounters in
  let result := getGroupStandings (fetched encounters) (fetched registrations) in
  Permutation (map team_id result) (map team_id before) /\
  StronglySorted ranksBefore result /\
  (forall p d, map team_id (filter (tiedAt p d) result) =
               map team_id (filter (tiedAt p d) before)) /\
  map position result = map Z.of_nat (seq 1 (List.length result)).
Proof.
  intros before result; subst result.
  rewrite getGroupStandings_fetched; fold before.
  split; [|split; [|split]].
  - rewrite assignPositions_team_id.
    apply Permutation_map, sortBy_Permutation.
  - apply assignPositions_sorted.
    apply (sortBy_sorted compareStandings ranksBefore
             compareStandings_le compareStandings_gt ranksBefore_trans).
  - intros p d; rewrite assignPositions_tied; f_equal.
    apply sortBy_stable; intros x y; apply compareStandings_tied.
  - rewrite assignPositions_position, assignPositions_length; reflexivity.
Qed.

(** *** The entries *)

(** C6. Whatever the registrations and the encounters, the form of every
    entry of the result has at most 5 elements, and they are the last
    min(5, n) of the n results of its team, in the order in which the
    encounters were supplied. When the roster does not hold [__proto__] and
    every encounter is sound, each team of the roster has its entry, whose
    form is the last five of the results of the team. Eight encounters of
    the same two teams leave each with the last five of its eight results,
    the oldest of them first. *)
Theorem standings_form_last_five :
  (forall (registrations : list Registration) (encounters : list Encounter),
     Forall
       (fun s =>
          (List.length (form s) <= 5)%nat /\
          exists older,
            teamResults (team_id s) encounters = older ++ form s /\
            List.length (form s) =
              Nat.min 5 (List.length (teamResults (team_id s) encounters)))
       (getGroupStandings (fetched encounters) (fetched registrations))) /\
  (forall (registrations : list Registration) (encounters : list Encounter) (id : TeamId),
     ~ In Js.proto (roster registrations) ->
     forallb (sound (roster registrations)) encounters = true ->
     In id (roster registrations) ->
     exists s,
       In s (getGroupStandings (fetched encounters) (fetched registrations)) /\
       team_id s = id /\
       form s = sliceLast5 (teamResults id encounters)) /\
  map (fun s => (team_id s, matches_played s, form s))
      (getGroupStandings
         (fetched [threeToTwo; threeToTwo; threeToTwo; twoWithoutWinner;
                   twoWithoutWinner; threeToTwo; nothingPlayed; threeToTwo])
         (fetched [hosts; visitors])) =
  [ ("t1"%string, 8, [L; L; W; L; W]); ("t2"%string, 8, [W; W; L; L; L]) ].
Proof.
  split; [|split; [|reflexivity]].
  - intros registrations encounters.
    apply Forall_forall; intros s Hin.
    destruct (result_entry _ _ _ Hin) as (reg & k & _ & ->).
    destruct (sideUpdates_effect (user_id reg) encounters (initialStanding reg))
      as (Hid & _ & Hform).
    cbv zeta in *; cbn [assignPosition team_id form initialStanding app] in *.
    rewrite Hid, Hform.
    destruct (sliceLast5_suffix (teamResults (user_id reg) encounters))
      as (older & Hsplit & Hlen).
    split; [lia|].
    exists older; auto.
  - intros registrations encounters id Hp Hs Hid.
    destruct (result_for_team registrations encounters id Hp Hs Hid)
      as (reg & _ & Hreg_id & _ & k & Hin).
    eexists; split; [exact Hin|].
    destruct (sideUpdates_effect id encounters (initialStanding reg)) as (Hteam & _ & Hform).
    cbv zeta in *; cbn [assignPosition team_id form initialStanding app] in *.
    rewrite Hteam, Hform; auto.
Qed.

Lemma standings_form_last_five_witness :
  forallb (sound (roster [hosts; visitors]))
          [threeToTwo; elsewhere; nothingPlayed; threeToTwo; threeToTwo; againstItself] = true /\
  In "t1"%string (roster [hosts; visitors]) /\
  exists s,
    In s (getGroupStandings
            (fetched [threeToTwo; elsewhere; nothingPlayed; threeToTwo; threeToTwo;
                      againstItself])
            (fetched [hosts; visitors])) /\
    team_id s = "t1"%string /\
    form s = sliceLast5 (teamResults "t1"%string
                           [threeToTwo; elsewhere; nothingPlayed; threeToTwo; threeToTwo;
                            againstItself]).
Proof.
  assert (Hp : ~ In Js.proto (roster [hosts; visitors]))
    by (cbn; intros H; repeat destruct H as [H|H]; try discriminate H; exact H).
  assert (Hid : In "t1"%string (roster [hosts; visitors])) by (left; reflexivity).
  split; [reflexivity|]; split; [exact Hid|].
  exact (proj1 (proj2 standings_form_last_five) [hosts; visitors]
           [threeToTwo; elsewhere; nothingPlayed; threeToTwo; threeToTwo; againstItself]
           "t1"%string Hp eq_refl Hid).
Defined.

(** What one encounter adds to the encounters of an entry, by the number
    of sides its team holds in it. *)
Lemma sideUpdate_sides (id : TeamId) (e : Encounter) (s : GroupStanding) :
  let s' := sideUpdate id e s in
  matches_played s' = matches_played s + sides id e /\
  (sides id e = 0 ->
   encounters_won s' = encounters_won s /\ encounters_lost s' = encounters_lost s) /\
  (sides id e = 1 ->
   (encounters_won s' = encounters_won s + 1 /\ encounters_lost s' = encounters_lost s) \/
   (encounters_won s' = encounters_won s /\ encounters_lost s' = encounters_lost s + 1)) /\
  (sides id e = 2 ->
   (encounters_won s' = encounters_won s + 1 /\
    encounters_lost s' = encounters_lost s + 1) \/
   (encounters_won s' = encounters_won s /\ encounters_lost s' = encounters_lost s + 2)).
Proof.
  destruct (sideUpdate_fields id e s) as (_ & F2 & F3 & F4 & _).
  cbv zeta in *; rewrite F2, F3, F4; unfold sides.
  generalize (wins (individualResults e)); intros [homeWins awayWins]; cbn [fst snd].
  destruct (Z.gtb_spec homeWins awayWins), (Z.gtb_spec awayWins homeWins);
    destruct (String.eqb (home_team_id e) id), (String.eqb (away_team_id e) id);
    cbn [andb negb]; repeat split; intros; try lia; auto.
Qed.

(** C8, as the code has it. In every entry of the result the encounters
    won and the encounters lost add up to the matches played. A callback
    that ends without an exception changes the standing of a team by the
    sides the team holds in the encounter: nothing without a side; with
    one side, one more match played and one more encounter either won or
    lost; with both sides, two more matches played and either one
    encounter won and one lost or two lost. And so does the method: when
    the roster does not hold [__proto__] and the encounters are sound, one
    more encounter at the end of the list changes the entry of a team in
    the result in that way. *)
Theorem standings_played_balance :
  (forall (registrations : list Registration) (encounters : list Encounter),
     Forall
       (fun s => encounters_won s + encounters_lost s = matches_played s)
       (getGroupStandings (fetched encounters) (fetched registrations))) /\
  (forall (t t' : Table) (e : Encounter) (id : TeamId) (s : GroupStanding),
     processEncounter t e = Some t' ->
     lookup id t = Some s ->
     exists s',
       lookup id t' = Some s' /\
       matches_played s' = matches_played s + sides id e /\
       (sides id e = 0 ->
        encounters_won s' = encounters_won s /\ encounters_lost s' = encounters_lost s) /\
       (sides id e = 1 ->
        (encounters_won s' = encounters_won s + 1 /\
         encounters_lost s' = encounters_lost s) \/
        (encounters_won s' = encounters_won s /\
         encounters_lost s' = encounters_lost s + 1)) /\
       (sides id e = 2 ->
        (encounters_won s' = encounters_won s + 1 /\
         encounters_lost s' = encounters_lost s + 1) \/
        (encounters_won s' = encounters_won s /\
         encounters_lost s' = encounters_lost s + 2))) /\
  (forall (registrations : list Registration) (encounters : list Encounter)
          (e : Encounter) (id : TeamId),
     ~ In Js.proto (roster registrations) ->
     forallb (sound (roster registrations)) (encounters ++ [e]) = true ->
     In id (roster registrations) ->
     exists s s',
       In s (getGroupStandings (fetched encounters) (fetched registrations)) /\
       In s' (getGroupStandings (fetched (encounters ++ [e])) (fetched registrations)) /\
       team_id s = id /\ team_id s' = id /\
       matches_played s' = matches_played s + sides id e /\
       (sides id e = 0 ->
        encounters_won s' = encounters_won s /\ encounters_lost s' = encounters_lost s) /\
       (sides id e = 1 ->
        (encounters_won s' = encounters_won s + 1 /\
         encounters_lost s' = encounters_lost s) \/
        (encounters_won s' = encounters_won s /\
         encounters_lost s' = encounters_lost s + 1)) /\
       (sides id e = 2 ->
        (encounters_won s' = encounters_won s + 1 /\
         encounters_lost s' = encounters_lost s + 1) \/
        (encounters_won s' = encounters_won s /\
         encounters_lost s' = encounters_lost s + 2))).
Proof.
  split; [|split].
  - intros registrations encounters.
    apply Forall_forall; intros s Hin.
    destruct (result_entry _ _ _ Hin) as (reg & k & _ & ->).
    destruct (sideUpdates_effect (user_id reg) encounters (initialStanding reg))
      as (_ & Hbal & _).
    cbv zeta in *.
    cbn [assignPosition encounters_won encounters_lost matches_played initialStanding] in *.
    lia.
  - intros t t' e id s E Hs.
    exists (sideUpdate id e s); split.
    + now rewrite (processEncounter_lookup _ _ _ id E), Hs.
    + exact (sideUpdate_sides id e s).
  - intros registrations encounters e id Hp Hs Hid.
    destruct (result_step registrations encounters e id Hp Hs Hid)
      as (s0 & k & k' & Hteam & Hin & Hin').
    exists (assignPosition k s0), (assignPosition k' (sideUpdate id e s0)).
    split; [exact Hin|]; split; [exact Hin'|].
    destruct (sideUpdate_effect id e s0) as (Hteam' & _).
    cbv zeta in Hteam'.
    cbn [assignPosition team_id matches_played encounters_won encounters_lost].
    split; [exact Hteam|]; split; [congruence|].
    exact (sideUpdate_sides id e s0).
Qed.

Lemma standings_played_balance_witness :
  forallb (sound (roster [hosts; visitors])) ([threeToTwo] ++ [againstItself]) = true /\
  In "t1"%string (roster [hosts; visitors]) /\
  sides "t1"%string againstItself = 2 /\
  exists s s',
    In s (getGroupStandings (fetched [threeToTwo]) (fetched [hosts; visitors])) /\
    In s' (getGroupStandings (fetched ([threeToTwo] ++ [againstItself]))
                             (fetched [hosts; visitors])) /\
    team_id s = "t1"%string /\ team_id s' = "t1"%string /\
    matches_played s' = matches_played s + 2 /\
    ((encounters_won s' = encounters_won s + 1 /\
      encounters_lost s' = encounters_lost s + 1) \/
     (encounters_won s' = encounters_won s /\
      encounters_lost s' = encounters_lost s + 2)).
Proof.
  assert (Hp : ~ In Js.proto (roster [hosts; visitors]))
    by (cbn; intros H; repeat destruct H as [H|H]; try discriminate H; exact H).
  assert (Hid : In "t1"%string (roster [hosts; visitors])) by (left; reflexivity).
  split; [reflexivity|]; split; [exact Hid|]; split; [reflexivity|].
  destruct (proj2 (proj2 standings_played_balance) [hosts; visitors] [threeToTwo]
              againstItself "t1"%string Hp eq_refl Hid)
    as (s & s' & Hin & Hin' & Hs & Hs' & Hplayed & _ & _ & Htwo).
  exists s, s'.
  exact (conj Hin (conj Hin' (conj Hs (conj Hs' (conj Hplayed (Htwo eq_refl)))))).
Defined.

(** C8, as stated, fails: an encounter that names a team of the roster on
    both sides gives its entry two matches played, and with a 3 to 2 one
    encounter won and one encounter lost. *)
Lemma both_sides_are_counted :
  home_team_id againstItself = away_team_id againstItself /\
  getGroupStandings (fetched []) (fetched [hosts]) =
  [ mkStanding "t1"%string "Hosts"%string false 1 0 0 0 0 0 0 [] ] /\
  getGroupStandings (fetched [againstItself]) (fetched [hosts]) =
  [ mkStanding "t1"%string "Hosts"%string false 1 2 1 1 5 5 3 [W; L] ].
Proof. split; [reflexivity|]; split; reflexivity. Qed.




(** *** One encounter between two entries of the object *)







(** What a level encounter adds to an entry. *)
Lemma sideUpdate_level (id : TeamId) (e : Encounter) (s : GroupStanding) :
  fst (wins (individualResults e)) = snd (wins (individualResults e)) ->
  let s' := sideUpdate id e s in
  points s' = points s /\
  encounters_won s' = encounters_won s /\
  encounters_lost s' = encounters_lost s + sides id e /\
  form s' = form s ++ repeat L (Z.to_nat (sides id e)).
Proof.
  intros Hlevel.
  destruct (sideUpdate_fields id e s) as (_ & _ & F3 & F4 & _ & _ & F7 & F8).
  cbv zeta in *; rewrite F3, F4, F7, F8; unfold sides; rewrite <- Hlevel.
  replace (fst (wins (individualResults e)) >? fst (wins (individualResults e)))
    with false by (symmetry; rewrite Z.gtb_ltb; apply Z.ltb_irrefl).
  destruct (String.eqb (home_team_id e) id), (String.eqb (away_team_id e) id);
    cbn [andb negb app repeat Z.to_nat Z.add Pos.to_nat Pos.add Pos.iter_op Nat.add];
    rewrite ?app_nil_r; repeat split; lia.
Qed.

(** C10. When the individual results of an encounter give as many wins to
    the home side as to the away side, each side takes a loss. A callback
    that ends without an exception on such an encounter leaves the standing
    of a team that is a side of it with the same points and encounters won,
    one more encounter lost for each side the team holds in it (one, for
    two different teams) and as many 'L' at the end of its form. And so
    does the method: for a roster that does not hold [__proto__] and sound
    encounters, such an encounter at the end of the list changes the entry
    of the team in the result in that way, the last five of the form being
    kept. Nothing played between the two teams of the roster leaves both
    with an encounter lost, an 'L' and no point. *)
Theorem encounter_level_is_a_loss_for_both :
  (forall (t t' : Table) (e : Encounter) (id : TeamId) (s : GroupStanding),
     processEncounter t e = Some t' ->
     fst (wins (individualResults e)) = snd (wins (individualResults e)) ->
     id = home_team_id e \/ id = away_team_id e ->
     lookup id t = Some s ->
     exists s',
       lookup id t' = Some s' /\
       1 <= sides id e /\
       (home_team_id e <> away_team_id e -> sides id e = 1) /\
       points s' = points s /\
       encounters_won s' = encounters_won s /\
       encounters_lost s' = encounters_lost s + sides id e /\
       form s' = form s ++ repeat L (Z.to_nat (sides id e))) /\
  (forall (registrations : list Registration) (encounters : list Encounter)
          (e : Encounter) (id : TeamId),
     ~ In Js.proto (roster registrations) ->
     forallb (sound (roster registrations)) (encounters ++ [e]) = true ->
     fst (wins (individualResults e)) = snd (wins (individualResults e)) ->
     In id (roster registrations) ->
     id = home_team_id e \/ id = away_team_id e ->
     exists s s',
       In s (getGroupStandings (fetched encounters) (fetched registrations)) /\
       In s' (getGroupStandings (fetched (encounters ++ [e])) (fetched registrations)) /\
       team_id s = id /\ team_id s' = id /\
       1 <= sides id e /\
       (home_team_id e <> away_team_id e -> sides id e = 1) /\
       points s' = points s /\
       encounters_won s' = encounters_won s /\
       encounters_lost s' = encounters_lost s + sides id e /\
       form s' = sliceLast5 (form s ++ repeat L (Z.to_nat (sides id e)))) /\
  getGroupStandings (fetched [nothingPlayed]) (fetched [hosts; visitors]) =
  [ mkStanding "t1"%string "Hosts"%string false 1 1 0 1 0 0 0 [L];
    mkStanding "t2"%string "Visitors"%string false 2 1 0 1 0 0 0 [L] ].
Proof.
  assert (Hsides : forall (e : Encounter) (id : TeamId),
            id = home_team_id e \/ id = away_team_id e ->
            1 <= sides id e /\ (home_team_id e <> away_team_id e -> sides id e = 1)).
  { intros e id Hside; unfold sides.
    destruct (String.eqb_spec (home_team_id e) id) as [Eh|Nh],
             (String.eqb_spec (away_team_id e) id) as [Ea|Na];
      split; try lia; try (intros Hne; lia); try (intros Hne; congruence);
      exfalso; destruct Hside; congruence. }
  split; [|split; [|reflexivity]].
  - intros t t' e id s E Hlevel Hside Hs.
    exists (sideUpdate id e s); split.
    + now rewrite (processEncounter_lookup _ _ _ id E), Hs.
    + destruct (sideUpdate_level id e s Hlevel) as (Hpoints & Hwon & Hlost & Hform).
      destruct (Hsides e id Hside) as [H1 H2].
      repeat (split; [assumption|]); assumption.
  - intros registrations encounters e id Hp Hs Hlevel Hid Hside.
    destruct (result_step registrations encounters e id Hp Hs Hid)
      as (s0 & k & k' & Hteam & Hin & Hin').
    exists (assignPosition k s0), (assignPosition k' (sideUpdate id e s0)).
    split; [exact Hin|]; split; [exact Hin'|].
    destruct (sideUpdate_effect id e s0) as (Hteam' & _).
    destruct (sideUpdate_level id e s0 Hlevel) as (Hpoints & Hwon & Hlost & Hform).
    destruct (Hsides e id Hside) as [H1 H2].
    cbv zeta in *.
    cbn [assignPosition team_id points encounters_won encounters_lost form].
    split; [exact Hteam|]; split; [congruence|].
    split; [exact H1|]; split; [exact H2|].
    split; [exact Hpoints|]; split; [exact Hwon|]; split; [exact Hlost|].
    now rewrite Hform, sliceLast5_app.
Qed.

Lemma encounter_level_is_a_loss_for_both_witness :
  forallb (sound (roster [hosts; visitors])) ([threeToTwo] ++ [nothingPlayed]) = true /\
  fst (wins (individualResults nothingPlayed)) =
    snd (wins (individualResults nothingPlayed)) /\
  exists s s',
    In s (getGroupStandings (fetched [threeToTwo]) (fetched [hosts; visitors])) /\
    In s' (getGroupStandings (fetched ([threeToTwo] ++ [nothingPlayed]))
                             (fetched [hosts; visitors])) /\
    team_id s = "t1"%string /\ team_id s' = "t1"%string /\
    1 <= sides "t1"%string nothingPlayed /\
    (home_team_id nothingPlayed <> away_team_id nothingPlayed ->
     sides "t1"%string nothingPlayed = 1) /\
    points s' = points s /\
    encounters_won s' = encounters_won s /\
    encounters_lost s' = encounters_lost s + sides "t1"%string nothingPlayed /\
    form s' = sliceLast5 (form s ++ repeat L (Z.to_nat (sides "t1"%string nothingPlayed))).
Proof.
  assert (Hp : ~ In Js.proto (roster [hosts; visitors]))
    by (cbn; intros H; repeat destruct H as [H|H]; try discriminate H; exact H).
  split; [reflexivity|]; split; [reflexivity|].
  exact (proj1 (proj2 encounter_level_is_a_loss_for_both) [hosts; visitors] [threeToTwo]
           nothingPlayed "t1"%string Hp eq_refl eq_refl
           (or_introl eq_refl) (or_introl eq_refl)).
Defined.

(** *** Encounter data that is not five matches with a winner each *)

Lemma wins_total (rs : list IndividualResult) :
  fst (wins rs) + snd (wins rs) = Z.of_nat (List.length rs).
Proof.
  unfold wins; cbn [fst snd].
  induction rs as [|r rs IH]; [reflexivity|].
  cbn [filter List.length]; destruct (wonByHome r); cbn [negb List.length]; lia.
Qed.

Lemma processEncounter_awayByDefault (t : Table) (e : Encounter) :
  processEncounter t (awayByDefault e) = processEncounter t e.
Proof.
  unfold processEncounter, awayByDefault; cbn [home_team_id away_team_id results].
  destruct (results e) as [| |[|elements]]; try reflexivity.
  cbn [parse andThen].
  destruct (countMatch (home_team_id e) t) as [t1|]; cbn [andThen]; [|reflexivity].
  destruct (countMatch (away_team_id e) t1) as [t2|]; cbn [andThen]; [|reflexivity].
  unfold countWins.
  match goal with
  | |- context [forEach countResult (map ?f elements) ?c] =>
      assert (H : forall counts, forEach countResult (map f elements) counts =
                                 forEach countResult elements counts)
  end.
  { induction elements as [|x xs IH]; intros counts; cbn [map forEach]; [reflexivity|].
    destruct counts as [homeWins awayWins].
    destruct x as [|r]; cbn [countResult andThen]; [reflexivity|].
    unfold missingWinner, wonByHome.
    destruct (winner r) as [w|] eqn:Ew; cbn [countResult andThen winner];
      unfold wonByHome; rewrite ?Ew; cbn [winner]; [apply IH|].
    cbn [String.eqb Ascii.eqb Bool.eqb andb]; apply IH. }
  now rewrite H.
Qed.

Lemma sideUpdates_matches (id : TeamId) (encounters : list Encounter) (s : GroupStanding) :
  let s' := fold_left (fun s e => sideUpdate id e s) encounters s in
  individual_matches_won s' = individual_matches_won s + matchesWon id encounters /\
  individual_matches_lost s' = individual_matches_lost s + matchesLost id encounters.
Proof.
  revert s; induction encounters as [|e encs IH]; intros s;
    cbn [fold_left matchesWon matchesLost fold_right].
  - cbn; lia.
  - destruct (IH (sideUpdate id e s)) as (Hw & Hl); cbv zeta in *.
    fold (matchesWon id encs) (matchesLost id encs); rewrite Hw, Hl.
    destruct (sideUpdate_fields id e s) as (_ & _ & _ & _ & F5 & F6 & _).
    cbv zeta in *; rewrite F5, F6; lia.
Qed.

(** C5, as the code has it. Encounter data is not checked. A result
    without winner is read as won by the away side: the method answers
    what it answers for the same encounters with 'away' written for every
    missing winner. And the wins are counted over the results that the
    column holds, however many: for a roster that does not hold
    [__proto__] and sound encounters, every team of the roster has its
    entry, with the individual matches that the encounters give it as won
    and as lost, side by side, a result counting for the away side
    whenever its winner is not 'home'. *)
Theorem malformed_encounters_are_tallied :
  (forall (registrations : list Registration) (encounters : list Encounter),
     getGroupStandings (fetched (map awayByDefault encounters)) (fetched registrations) =
     getGroupStandings (fetched encounters) (fetched registrations)) /\
  (forall (registrations : list Registration) (encounters : list Encounter) (id : TeamId),
     ~ In Js.proto (roster registrations) ->
     forallb (sound (roster registrations)) encounters = true ->
     In id (roster registrations) ->
     exists s,
       In s (getGroupStandings (fetched encounters) (fetched registrations)) /\
       team_id s = id /\
       individual_matches_won s = matchesWon id encounters /\
       individual_matches_lost s = matchesLost id encounters).
Proof.
  split.
  - intros registrations encounters.
    rewrite !getGroupStandings_fetched; unfold tallied, tally.
    replace (forEach processEncounter (map awayByDefault encounters)
                     (initStandings registrations))
      with (forEach processEncounter encounters (initStandings registrations));
      [reflexivity|].
    generalize (initStandings registrations) as t.
    induction encounters as [|e encs IH]; intros t; cbn [map forEach]; [reflexivity|].
    rewrite processEncounter_awayByDefault.
    destruct (processEncounter t e) as [t1|]; cbn [andThen]; [apply IH | reflexivity].
  - intros registrations encounters id Hp Hs Hid.
    destruct (result_for_team registrations encounters id Hp Hs Hid)
      as (reg & _ & Hreg_id & _ & k & Hin).
    eexists; split; [exact Hin|].
    destruct (sideUpdates_effect id encounters (initialStanding reg)) as (Hteam & _).
    destruct (sideUpdates_matches id encounters (initialStanding reg)) as (Hw & Hl).
    cbv zeta in *.
    cbn [assignPosition team_id individual_matches_won individual_matches_lost].
    rewrite Hteam, Hw, Hl; cbn [initialStanding team_id individual_matches_won
                                individual_matches_lost].
    split; [exact Hreg_id | split; lia].
Qed.

Lemma malformed_encounters_are_tallied_witness :
  existsb malformed [twoWithoutWinner; threeToTwo] = true /\
  forallb (sound (roster [hosts; visitors])) [twoWithoutWinner; threeToTwo] = true /\
  matchesWon "t2"%string [twoWithoutWinner; threeToTwo] = 4 /\
  exists s,
    In s (getGroupStandings (fetched [twoWithoutWinner; threeToTwo])
                            (fetched [hosts; visitors])) /\
    team_id s = "t2"%string /\
    individual_matches_won s = matchesWon "t2"%string [twoWithoutWinner; threeToTwo] /\
    individual_matches_lost s = matchesLost "t2"%string [twoWithoutWinner; threeToTwo].
Proof.
  assert (Hp : ~ In Js.proto (roster [hosts; visitors]))
    by (cbn; intros H; repeat destruct H as [H|H]; try discriminate H; exact H).
  split; [reflexivity|]; split; [reflexivity|]; split; [reflexivity|].
  exact (proj2 malformed_encounters_are_tallied [hosts; visitors]
           [twoWithoutWinner; threeToTwo] "t2"%string Hp eq_refl
           (or_intror (or_introl eq_refl))).
Defined.

(** C5, as stated, fails: two individual results without a winner are
    malformed on both counts, and the method answers with standings in
    which the away team has won the encounter 2 to 0; the answer is not the
    empty list that the method gives when a query or the computation
    fails. *)
Lemma malformed_encounter_gives_standings :
  malformed twoWithoutWinner = true /\
  getGroupStandings (fetched [twoWithoutWinner]) (fetched [hosts; visitors]) =
  [ mkStanding "t2"%string "Visitors"%string false 1 1 1 0 2 0 3 [W];
    mkStanding "t1"%string "Hosts"%string false 2 1 0 1 0 2 0 [L] ] /\
  ~ (forall registrations encounters,
       existsb malformed encounters = true ->
       getGroupStandings (fetched encounters) (fetched registrations) = []).
Proof.
  split; [reflexivity|]; split; [reflexivity|].
  intros H.
  specialize (H [hosts; visitors] [twoWithoutWinner] eq_refl).
  discriminate H.
Qed.

(** *** The answers of the store, and exceptions *)

(** A query that failed gives the empty list. *)
Lemma getGroupStandings_query_failed
    (encounters : StoreResponse (list Encounter))
    (registrations : StoreResponse (list Registration)) :
  error encounters <> None \/ error registrations <> None ->
  getGroupStandings encounters registrations = [].
Proof.
  unfold getGroupStandings.
  destruct (error encounters), (error registrations); intros [H|H]; congruence.
Qed.

(** Without encounters every team of the roster has its initial entry, in
    the order of registration. *)
Example no_encounter_standings :
  getGroupStandings (fetched []) (fetched [visitors; hosts]) =
  [ mkStanding "t2"%string "Visitors"%string false 1 0 0 0 0 0 0 [];
    mkStanding "t1"%string "Hosts"%string false 2 0 0 0 0 0 0 [] ].
Proof. reflexivity. Qed.

(** A column that is null or empty is read as no result; one that is not
    JSON, or not the text of an array, ends the computation. *)
Example columns :
  (getGroupStandings (fetched [mkEnc "t1" "t2" Empty]) (fetched [hosts; visitors]) =
   getGroupStandings (fetched [nothingPlayed]) (fetched [hosts; visitors]) /\
   getGroupStandings (fetched [mkEnc "t1" "t2" Invalid]) (fetched [hosts; visitors]) = [] /\
   getGroupStandings (fetched [mkEnc "t1" "t2" (Text NotAnArray)])
                     (fetched [hosts; visitors]) = [])%string.
Proof. repeat split. Qed.

(** Teams registered under array indices come first, by index, whatever
    the order of registration; a team registered as [__proto__] becomes the
    prototype of the object and is not listed, and an encounter side named
    as one of its properties then ends the computation. *)
Example registered_names :
  (map team_id
       (getGroupStandings (fetched [elsewhere])
          (fetched [mkReg "10" "Ten"; mkReg "b" "Bees"; mkReg "9" "Nine";
                    mkReg "__proto__" "Proto"; mkReg "007" "Bonds"])) =
   ["9"; "10"; "b"; "007"] /\
   getGroupStandings (fetched [mkEnc "t1" "team_name" (stored [])])
                     (fetched [hosts; mkReg "__proto__" "Proto"]) = [])%string.
Proof. split; reflexivity. Qed.

End StandingsFacts.
(** ** More on the schedule *)

Module ScheduleFacts.

Import Scheduler SchedulerFacts.

Section Rows.

Variable seasonId : string.
Variable computeMatchDate : nat -> string.
Variable groupNumber : Z.
Variable buckets : list nat.

(** The rows the loop appends, one per raw fixture, numbered from the
    matchday the loop starts with. *)
Lemma assignLoop_rows (raw : list RawFixture) (st st' : LoopState) :
  assignLoop seasonId computeMatchDate groupNumber buckets raw st = Some st' ->
  fixturesToInsert st' =
  fixturesToInsert st ++
  map (fun mr : nat * RawFixture =>
         mkRow seasonId (findWeek buckets (fst mr) 0 0 + 1)
               (home (snd mr)) (away (snd mr))
               (computeMatchDate (fst mr)) "scheduled"%string groupNumber)
      (combine (seq (matchday st) (List.length raw)) raw).
Proof.
  revert st; induction raw as [|r raw IH]; intros st; cbn [assignLoop].
  - intros E; inversion E; subst; cbn; now rewrite app_nil_r.
  - unfold assignStep.
    destruct (pushMatchday (weekSchedule st) _ (matchday st)) as [ws|]; [|discriminate].
    intros E; apply IH in E; rewrite E; cbn [fixturesToInsert matchday].
    replace (matchday st + 1) with (S (matchday st)) by lia.
    rewrite <- app_assoc; reflexivity.
Qed.

End Rows.

(** The rows handed to the store, in closed form. *)
Lemma buildSchedule_rows (seasonId : string) (computeMatchDate : nat -> string)
    (groupNumber : Z) (teamIds : list TeamId) (st : LoopState) :
  buildSchedule seasonId computeMatchDate groupNumber teamIds = Some st ->
  let totalMD := List.length teamIds * (List.length teamIds - 1) in
  fixturesToInsert st =
  map (fun mr : nat * RawFixture =>
         mkRow seasonId (findWeek (weekBuckets totalMD) (fst mr) 0 0 + 1)
               (home (snd mr)) (away (snd mr))
               (computeMatchDate (fst mr)) "scheduled"%string groupNumber)
      (combine (seq 1 totalMD) (legs teamIds)).
Proof.
  unfold buildSchedule; intros E; apply assignLoop_rows in E.
  rewrite buildRaw_legs, legs_length in E; exact E.
Qed.

Lemma Some_inj {A : Type} (x y : A) : Some x = Some y -> x = y.
Proof. now intros [= ->]. Qed.

Lemma nth_error_numbered {A : Type} (l : list A) (a n k : nat) (x : nat) (r : A) :
  nth_error (combine (seq a n) l) k = Some (x, r) ->
  x = a + k /\ k < n /\ nth_error l k = Some r.
Proof.
  revert a n k; induction l as [|y l IH]; intros a n k.
  - destruct n; cbn; destruct k; discriminate.
  - destruct n as [|n]; [destruct k; discriminate|].
    destruct k as [|k]; cbn.
    + intros E; inversion E; subst; repeat split; lia.
    + intros E; apply IH in E; destruct E as (-> & Hk & Hr); repeat split; [lia | lia | exact Hr].
Qed.

(** What stands at index [k] of the rows: the [k]-th raw fixture under
    matchday [k + 1]. *)
Lemma buildSchedule_row (seasonId : string) (computeMatchDate : nat -> string)
    (groupNumber : Z) (teamIds : list TeamId) (st : LoopState) (k : nat) (f : FixtureRow) :
  buildSchedule seasonId computeMatchDate groupNumber teamIds = Some st ->
  nth_error (fixturesToInsert st) k = Some f ->
  let totalMD := List.length teamIds * (List.length teamIds - 1) in
  k < totalMD /\
  exists r,
    nth_error (legs teamIds) k = Some r /\
    f = mkRow seasonId (findWeek (weekBuckets totalMD) (k + 1) 0 0 + 1)
              (home r) (away r) (computeMatchDate (k + 1)) "scheduled"%string groupNumber.
Proof.
  intros Hst Hk totalMD.
  rewrite (buildSchedule_rows _ _ _ _ _ Hst), nth_error_map in Hk; fold totalMD in Hk.
  destruct (nth_error (combine (seq 1 totalMD) (legs teamIds)) k) as [[md r]|] eqn:E;
    [|discriminate Hk].
  apply nth_error_numbered in E; destruct E as (-> & Hlt & Hr).
  split; [exact Hlt|]; exists r; split; [exact Hr|].
  cbn [option_map fst snd] in Hk.
  replace (1 + k) with (k + 1) in Hk by lia.
  now apply Some_inj in Hk.
Qed.

(** X1. Each row's [week_number] is between 1 and 4 and names the week of
    the schedule under which the row's matchday is listed, and no other
    week lists that matchday. *)
Theorem fixture_week_is_scheduled_week
    (seasonId : string) (computeMatchDate : nat -> string) (groupNumber : Z)
    (teamIds : list TeamId) :
  exists st,
    buildSchedule seasonId computeMatchDate groupNumber teamIds = Some st /\
    forall k f, nth_error (fixturesToInsert st) k = Some f ->
      1 <= week_number f <= weeks /\
      forall e, In e (weekSchedule st) ->
        (In (k + 1) (matchdays e) <-> week e = week_number f).
Proof.
  destruct (buildSchedule_run seasonId computeMatchDate groupNumber teamIds)
    as (st & Hst & _ & Hweeks).
  exists st; split; [exact Hst|]; intros k f Hk.
  destruct (buildSchedule_row _ _ _ _ _ _ _ Hst Hk) as (Hlt & r & _ & ->).
  cbv zeta in *.
  set (totalMD := List.length teamIds * (List.length teamIds - 1)) in *.
  set (B := weekBuckets totalMD) in *.
  assert (Hsum : list_sum B = totalMD) by apply weekBuckets_sum.
  pose proof (findWeek_bound B (k + 1) 0 0) as Hb.
  cbn [Nat.add] in Hb; specialize (Hb ltac:(lia)).
  assert (Hlen : List.length B = weeks) by apply weekBuckets_length.
  rewrite Hlen in Hb.
  cbn [week_number]; split; [lia|].
  intros e He; rewrite Hweeks in He.
  apply in_map_iff in He; destruct He as (w & <- & Hw); apply in_seq in Hw.
  cbn [week matchdays].
  assert (Hrun : filter (fun md => findWeek B md 0 0 =? w) (seq 1 totalMD) =
                 seq (1 + list_sum (firstn w B)) (nth w B 0)).
  { pose proof (findWeek_run B 0 0 w) as H.
    cbn [Nat.leb] in H; rewrite Nat.sub_0_r, Hsum in H; exact H. }
  rewrite <- Hrun, filter_In, in_seq, Nat.eqb_eq; lia.
Qed.

(** X2. The rows are numbered along the list: the row at index [k] is for
    matchday [k + 1], it is dated by [computeMatchDate] at that number, has
    status 'scheduled' and carries the season and the group it was asked
    for. *)
Theorem fixture_stamps
    (seasonId : string) (computeMatchDate : nat -> string) (groupNumber : Z)
    (teamIds : list TeamId) :
  exists st,
    buildSchedule seasonId computeMatchDate groupNumber teamIds = Some st /\
    forall k f, nth_error (fixturesToInsert st) k = Some f ->
      match_date f = computeMatchDate (k + 1) /\
      status f = "scheduled"%string /\
      season_id f = seasonId /\
      group_number f = groupNumber.
Proof.
  destruct (buildSchedule_run seasonId computeMatchDate groupNumber teamIds)
    as (st & Hst & _).
  exists st; split; [exact Hst|]; intros k f Hk.
  destruct (buildSchedule_row _ _ _ _ _ _ _ Hst Hk) as (_ & r & _ & ->).
  repeat split.
Qed.

(** In a list made of a fixture followed by its return leg, again and
    again, the successor of an even index is the return leg. *)
Lemma legs_paired (l : list TeamId) (k : nat) (a b : TeamId) :
  nth_error (legs l) (2 * k) = Some (mkRaw a b) ->
  nth_error (legs l) (2 * k + 1) = Some (mkRaw b a).
Proof.
  assert (Hblock : forall (x : TeamId) ys rest,
            (forall k a b, nth_error rest (2 * k) = Some (mkRaw a b) ->
                           nth_error rest (2 * k + 1) = Some (mkRaw b a)) ->
            forall k a b,
              nth_error (flat_map (fun y => [mkRaw x y; mkRaw y x]) ys ++ rest) (2 * k)
                = Some (mkRaw a b) ->
              nth_error (flat_map (fun y => [mkRaw x y; mkRaw y x]) ys ++ rest) (2 * k + 1)
                = Some (mkRaw b a)).
  { intros x ys rest Hrest; induction ys as [|y ys IH]; cbn [flat_map app]; [exact Hrest|].
    intros [|j] a' b'.
    - cbn; intros E; inversion E; reflexivity.
    - replace (2 * S j) with (S (S (2 * j))) by lia.
      replace (S (S (2 * j)) + 1) with (S (S (2 * j + 1))) by lia.
      cbn [nth_error]; apply IH. }
  revert k a b; induction l as [|x xs IH]; intros k a b; cbn [legs].
  - destruct k; discriminate.
  - apply Hblock; exact IH.
Qed.

(** X3. Whatever the teams, the fixtures come in pairs: the row at an even
    index is followed at once by its return leg, home and away exchanged. *)
Theorem return_leg_follows
    (seasonId : string) (computeMatchDate : nat -> string) (groupNumber : Z)
    (teamIds : list TeamId) :
  exists st,
    buildSchedule seasonId computeMatchDate groupNumber teamIds = Some st /\
    forall k f, nth_error (fixturesToInsert st) (2 * k) = Some f ->
      exists f',
        nth_error (fixturesToInsert st) (2 * k + 1) = Some f' /\
        home_team_id f' = away_team_id f /\
        away_team_id f' = home_team_id f.
Proof.
  destruct (buildSchedule_run seasonId computeMatchDate groupNumber teamIds)
    as (st & Hst & Hpairs & _).
  exists st; split; [exact Hst|]; intros k f Hk.
  assert (Hleg : nth_error (legs teamIds) (2 * k)
                 = Some (mkRaw (home_team_id f) (away_team_id f))).
  { rewrite <- Hpairs, nth_error_map, Hk; reflexivity. }
  apply legs_paired in Hleg.
  rewrite <- Hpairs, nth_error_map in Hleg.
  destruct (nth_error (fixturesToInsert st) (2 * k + 1)) as [f'|]; [|discriminate Hleg].
  exists f'; split; [reflexivity|].
  cbn in Hleg; inversion Hleg; auto.
Qed.

Lemma legs_distinct (l : list TeamId) (a b : TeamId) :
  NoDup l -> In (mkRaw a b) (legs l) -> a <> b.
Proof.
  induction l as [|x xs IH]; cbn [legs]; [intros _ []|].
  intros Hnd Hin; apply NoDup_cons_iff in Hnd; destruct Hnd as [Hx Hnd].
  apply in_app_iff in Hin; destruct Hin as [Hin|Hin]; [|now apply IH].
  apply in_flat_map in Hin; destruct Hin as (y & Hy & Hin).
  cbn in Hin; destruct Hin as [E | [E | []]]; inversion E; subst; congruence.
Qed.

(** X4. With distinct team identifiers no row sets a team against itself,
    and both sides of every row are teams of the input. *)
Theorem no_team_meets_itself
    (seasonId : string) (computeMatchDate : nat -> string) (groupNumber : Z)
    (teamIds : list TeamId) :
  NoDup teamIds ->
  exists st,
    buildSchedule seasonId computeMatchDate groupNumber teamIds = Some st /\
    forall f, In f (fixturesToInsert st) ->
      home_team_id f <> away_team_id f /\
      In (home_team_id f) teamIds /\ In (away_team_id f) teamIds.
Proof.
  intros Hnd.
  destruct (buildSchedule_run seasonId computeMatchDate groupNumber teamIds)
    as (st & Hst & Hpairs & _).
  exists st; split; [exact Hst|]; intros f Hf.
  apply (in_map pairing) in Hf; rewrite Hpairs in Hf; unfold pairing in Hf.
  split; [exact (legs_distinct _ _ _ Hnd Hf) | exact (legs_teams _ _ _ Hf)].
Qed.

Lemma no_team_meets_itself_witness :
  NoDup ["ann"; "bob"; "cyd"]%string /\
  exists st,
    buildSchedule "s1"%string (fun _ => "2026-01-01"%string) 1%Z
      ["ann"; "bob"; "cyd"]%string = Some st /\
    forall f, In f (fixturesToInsert st) ->
      home_team_id f <> away_team_id f /\
      In (home_team_id f) ["ann"; "bob"; "cyd"]%string /\
      In (away_team_id f) ["ann"; "bob"; "cyd"]%string.
Proof.
  assert (Hnd : NoDup ["ann"; "bob"; "cyd"]%string).
  { repeat constructor; simpl; intros H; repeat destruct H as [H|H];
      try discriminate H; exact H. }
  split; [exact Hnd|].
  exact (no_team_meets_itself "s1"%string (fun _ => "2026-01-01"%string) 1%Z
           ["ann"; "bob"; "cyd"]%string Hnd).
Defined.

(** How often [t] is at home, and away, in the block of [x] against [ys]. *)
Lemma block_home_count (x t : TeamId) (ys : list TeamId) :
  List.length (filter (fun r => String.eqb (home r) t)
                      (flat_map (fun y => [mkRaw x y; mkRaw y x]) ys)) =
  (if String.eqb x t then List.length ys else 0) + count_occ string_dec ys t.
Proof.
  induction ys as [|y ys IH]; cbn [flat_map app filter home count_occ List.length].
  - now destruct (String.eqb x t).
  - destruct (String.eqb_spec x t) as [Ex|Nx], (String.eqb_spec y t) as [Ey|Ny],
             (string_dec y t) as [Dy|Dy];
      try congruence; cbn [List.length]; rewrite IH;
      rewrite ?(proj2 (String.eqb_eq x t)), ?(proj2 (String.eqb_neq x t)) by assumption;
      lia.
Qed.

Lemma block_away_count (x t : TeamId) (ys : list TeamId) :
  List.length (filter (fun r => String.eqb (away r) t)
                      (flat_map (fun y => [mkRaw x y; mkRaw y x]) ys)) =
  (if String.eqb x t then List.length ys else 0) + count_occ string_dec ys t.
Proof.
  induction ys as [|y ys IH]; cbn [flat_map app filter away count_occ List.length].
  - now destruct (String.eqb x t).
  - destruct (String.eqb_spec x t) as [Ex|Nx], (String.eqb_spec y t) as [Ey|Ny],
             (string_dec y t) as [Dy|Dy];
      try congruence; cbn [List.length]; rewrite IH;
      rewrite ?(proj2 (String.eqb_eq x t)), ?(proj2 (String.eqb_neq x t)) by assumption;
      lia.
Qed.

Lemma filter_nothing {A : Type} (p : A -> bool) (l : list A) :
  (forall r, In r l -> p r = false) -> filter p l = [].
Proof.
  induction l as [|r rs IH]; intros Hp; [reflexivity|].
  cbn [filter]; rewrite (Hp r (or_introl eq_refl)).
  apply IH; intros r' Hr'; apply Hp; now right.
Qed.

Lemma legs_balance (l : list TeamId) (t : TeamId) :
  NoDup l -> In t l ->
  List.length (filter (fun r => String.eqb (home r) t) (legs l)) = List.length l - 1 /\
  List.length (filter (fun r => String.eqb (away r) t) (legs l)) = List.length l - 1.
Proof.
  induction l as [|x xs IH]; [intros _ []|].
  intros Hnd Ht; apply NoDup_cons_iff in Hnd; destruct Hnd as [Hx Hnd].
  cbn [legs List.length]; rewrite !filter_app, !length_app, block_home_count, block_away_count.
  destruct (String.eqb_spec x t) as [->|Hne].
  - rewrite (proj1 (count_occ_not_In string_dec xs t) Hx).
    split; (rewrite filter_nothing; [cbn [List.length]; lia|]);
      intros [a b] Hr; apply legs_teams in Hr;
      cbn [home away]; apply String.eqb_neq; intros ->; tauto.
  - destruct Ht as [Ht|Ht]; [congruence|].
    destruct (IH Hnd Ht) as [Hh Ha]; rewrite Hh, Ha.
    rewrite (NoDup_count_occ' string_dec xs) in Hnd; rewrite (Hnd t Ht).
    destruct xs; [destruct Ht|]; cbn [List.length]; lia.
Qed.

(** X5. With distinct team identifiers every team of the input is at home
    in exactly N - 1 rows and away in exactly N - 1 rows. *)
Theorem home_and_away_balance
    (seasonId : string) (computeMatchDate : nat -> string) (groupNumber : Z)
    (teamIds : list TeamId) (t : TeamId) :
  NoDup teamIds -> In t teamIds ->
  exists st,
    buildSchedule seasonId computeMatchDate groupNumber teamIds = Some st /\
    List.length (filter (fun f => String.eqb (home_team_id f) t) (fixturesToInsert st))
      = List.length teamIds - 1 /\
    List.length (filter (fun f => String.eqb (away_team_id f) t) (fixturesToInsert st))
      = List.length teamIds - 1.
Proof.
  intros Hnd Ht.
  destruct (buildSchedule_run seasonId computeMatchDate groupNumber teamIds)
    as (st & Hst & Hpairs & _).
  exists st; split; [exact Hst|].
  destruct (legs_balance teamIds t Hnd Ht) as [Hh Ha].
  rewrite <- Hpairs in Hh, Ha.
  assert (Hmap : forall (p : RawFixture -> bool) fs,
            List.length (filter p (map pairing fs)) =
            List.length (filter (fun f => p (pairing f)) fs)).
  { intros p fs; induction fs as [|f fs IHf]; [reflexivity|].
    cbn [map filter]; destruct (p (pairing f)); cbn [List.length]; now rewrite IHf. }
  rewrite Hmap in Hh, Ha; cbn [pairing home away] in Hh, Ha.
  split; assumption.
Qed.

Lemma home_and_away_balance_witness :
  NoDup ["ann"; "bob"; "cyd"]%string /\ In "bob"%string ["ann"; "bob"; "cyd"]%string /\
  exists st,
    buildSchedule "s1"%string (fun _ => "2026-01-01"%string) 1%Z
      ["ann"; "bob"; "cyd"]%string = Some st /\
    List.length (filter (fun f => String.eqb (home_team_id f) "bob") (fixturesToInsert st))
      = 3 - 1 /\
    List.length (filter (fun f => String.eqb (away_team_id f) "bob") (fixturesToInsert st))
      = 3 - 1.
Proof.
  assert (Hnd : NoDup ["ann"; "bob"; "cyd"]%string).
  { repeat constructor; simpl; intros H; repeat destruct H as [H|H];
      try discriminate H; exact H. }
  assert (Hin : In "bob"%string ["ann"; "bob"; "cyd"]%string) by (right; left; reflexivity).
  split; [exact Hnd|]; split; [exact Hin|].
  exact (home_and_away_balance "s1"%string (fun _ => "2026-01-01"%string) 1%Z
           ["ann"; "bob"; "cyd"]%string "bob"%string Hnd Hin).
Defined.

End ScheduleFacts.

(** ** More on the standings *)

Module StandingsInvariants.

Import Standings JsFacts StandingsFacts.
Local Open Scope Z_scope.

(** What one encounter adds to the counters of an entry. *)
Lemma sideUpdate_counters (id : TeamId) (e : Encounter) (s : GroupStanding) :
  let s' := sideUpdate id e s in
  let sides := Z.of_nat (List.length (teamResults id [e])) in
  points s' - 3 * encounters_won s' = points s - 3 * encounters_won s /\
  matches_played s' = matches_played s + sides /\
  individual_matches_won s' + individual_matches_lost s' =
    individual_matches_won s + individual_matches_lost s +
    sides * Z.of_nat (List.length (individualResults e)).
Proof.
  cbv zeta; rewrite <- (wins_total (individualResults e)).
  destruct (sideUpdate_fields id e s) as (_ & F2 & F3 & _ & F5 & F6 & F7 & _).
  cbv zeta in *; rewrite F2, F3, F5, F6, F7.
  unfold teamResults; cbn [flat_map].
  generalize (wins (individualResults e)); intros [homeWins awayWins]; cbn [fst snd].
  destruct (String.eqb (home_team_id e) id), (String.eqb (away_team_id e) id),
           (homeWins >? awayWins), (awayWins >? homeWins);
    cbn [andb app List.length]; repeat split; lia.
Qed.

Lemma sideUpdates_counters (n : nat) (id : TeamId) (encounters : list Encounter)
    (s : GroupStanding) :
  Forall (fun e => List.length (individualResults e) = n) encounters ->
  let s' := fold_left (fun s e => sideUpdate id e s) encounters s in
  points s' - 3 * encounters_won s' = points s - 3 * encounters_won s /\
  matches_played s' =
    matches_played s + Z.of_nat (List.length (teamResults id encounters)) /\
  individual_matches_won s' + individual_matches_lost s' - Z.of_nat n * matches_played s' =
    individual_matches_won s + individual_matches_lost s - Z.of_nat n * matches_played s.
Proof.
  intros Hn; revert s; induction Hn as [|e encs He Hn IH]; intros s; cbn [fold_left].
  - cbn; repeat split; lia.
  - destruct (IH (sideUpdate id e s)) as (Hp & Hm & Hi).
    destruct (sideUpdate_counters id e s) as (Hp1 & Hm1 & Hi1).
    cbv zeta in *; rewrite He in Hi1.
    replace (teamResults id (e :: encs)) with (teamResults id [e] ++ teamResults id encs)
      by (unfold teamResults; cbn [flat_map]; now rewrite app_nil_r).
    rewrite length_app.
    repeat split; nia.
Qed.

(** X6. In every entry of the result the points are three times the
    encounters won. *)
Theorem points_are_three_per_win (registrations : list Registration)
    (encounters : list Encounter) :
  Forall (fun s => points s = 3 * encounters_won s)
         (getGroupStandings (fetched encounters) (fetched registrations)).
Proof.
  apply Forall_forall; intros s Hin.
  destruct (result_entry _ _ _ Hin) as (reg & k & _ & ->).
  assert (H : forall encs s0,
            let s' := fold_left (fun s e => sideUpdate (user_id reg) e s) encs s0 in
            points s' - 3 * encounters_won s' = points s0 - 3 * encounters_won s0).
  { induction encs as [|e encs IH]; intros s0; cbn [fold_left]; [reflexivity|].
    cbv zeta in *; rewrite IH.
    exact (proj1 (sideUpdate_counters (user_id reg) e s0)). }
  specialize (H encounters (initialStanding reg)); cbv zeta in H.
  cbn [assignPosition points encounters_won initialStanding] in *; lia.
Qed.

(** X7. The matches played of an entry are as many as the sides its team
    has in the encounters supplied: its full list of results, of which the
    form keeps the last five. *)
Theorem played_counts_team_sides (registrations : list Registration)
    (encounters : list Encounter) :
  Forall (fun s => matches_played s =
                   Z.of_nat (List.length (teamResults (team_id s) encounters)))
         (getGroupStandings (fetched encounters) (fetched registrations)).
Proof.
  apply Forall_forall; intros s Hin.
  destruct (result_entry _ _ _ Hin) as (reg & k & _ & ->).
  assert (H : forall encs s0,
            matches_played (fold_left (fun s e => sideUpdate (user_id reg) e s) encs s0) =
            matches_played s0 + Z.of_nat (List.length (teamResults (user_id reg) encs))).
  { induction encs as [|e encs IH]; intros s0; cbn [fold_left]; [cbn; lia|].
    rewrite IH, (proj1 (proj2 (sideUpdate_counters (user_id reg) e s0))).
    replace (teamResults (user_id reg) (e :: encs))
      with (teamResults (user_id reg) [e] ++ teamResults (user_id reg) encs)
      by (unfold teamResults; cbn [flat_map]; now rewrite app_nil_r).
    rewrite length_app; lia. }
  destruct (sideUpdates_effect (user_id reg) encounters (initialStanding reg)) as (Hid & _).
  cbv zeta in Hid.
  cbn [assignPosition matches_played team_id].
  rewrite H, Hid; cbn; lia.
Qed.

(** X8. When every encounter supplied holds exactly five individual
    results, the individual matches won and lost of an entry add up to
    five times its matches played. *)
Theorem five_matches_per_encounter (registrations : list Registration)
    (encounters : list Encounter) :
  Forall (fun e => List.length (individualResults e) = 5%nat) encounters ->
  Forall (fun s => individual_matches_won s + individual_matches_lost s =
                   5 * matches_played s)
         (getGroupStandings (fetched encounters) (fetched registrations)).
Proof.
  intros Hfive; apply Forall_forall; intros s Hin.
  destruct (result_entry _ _ _ Hin) as (reg & k & _ & ->).
  destruct (sideUpdates_counters 5 (user_id reg) encounters (initialStanding reg) Hfive)
    as (_ & _ & Hi).
  cbv zeta in Hi.
  cbn [assignPosition individual_matches_won individual_matches_lost matches_played
       initialStanding] in *.
  lia.
Qed.

Lemma five_matches_per_encounter_witness :
  Forall (fun e => List.length (individualResults e) = 5%nat) [threeToTwo; threeToTwo] /\
  Forall (fun s => individual_matches_won s + individual_matches_lost s =
                   5 * matches_played s)
         (getGroupStandings (fetched [threeToTwo; threeToTwo]) (fetched [hosts; visitors])).
Proof.
  assert (H : Forall (fun e => List.length (individualResults e) = 5%nat)
                     [threeToTwo; threeToTwo])
    by (repeat constructor).
  split; [exact H|].
  exact (five_matches_per_encounter [hosts; visitors] [threeToTwo; threeToTwo] H).
Defined.

(** *** A roster without encounters *)

Lemma put_fresh (k : TeamId) (v : GroupStanding) (l : list (TeamId * GroupStanding)) :
  ~ In k (map fst l) -> put k v l = l ++ [(k, v)].
Proof.
  induction l as [|[k' v'] l IH]; cbn [put map fst In app]; [reflexivity|].
  intros Hk; destruct (String.eqb_spec k' k) as [E|_]; [tauto|].
  rewrite IH; tauto.
Qed.

(** Distinct users, none of them [__proto__], leave a plain object with
    their standings in the order of registration. *)
Lemma initStandings_distinct (registrations : list Registration) :
  NoDup (roster registrations) ->
  ~ In Js.proto (roster registrations) ->
  initStandings registrations =
  mkTable None (map (fun reg => (user_id reg, initialStanding reg)) registrations).
Proof.
  unfold initStandings, roster, empty.
  assert (H : forall l,
            NoDup (map fst l ++ map user_id registrations) ->
            ~ In Js.proto (map user_id registrations) ->
            fold_left (fun t reg => assign (user_id reg) (initialStanding reg) t)
                      registrations (mkTable None l) =
            mkTable None
              (l ++ map (fun reg => (user_id reg, initialStanding reg)) registrations)).
  { induction registrations as [|reg regs IH]; intros l Hnd Hp; cbn [fold_left map].
    - now rewrite app_nil_r.
    - cbn [map In] in Hnd, Hp.
      unfold assign at 2; cbn [prototype properties].
      destruct (String.eqb_spec (user_id reg) Js.proto) as [E|_]; [tauto|].
      rewrite put_fresh
        by (intros Hin; apply NoDup_remove_2 in Hnd; apply Hnd, in_or_app; now left).
      rewrite IH.
      + now rewrite <- app_assoc.
      + rewrite map_app, <- app_assoc; exact Hnd.
      + tauto. }
  intros Hnd Hp; exact (H [] Hnd Hp).
Qed.

Lemma sortBy_all_tied (l : list GroupStanding) (p d : Z) :
  Forall (fun s => tiedAt p d s = true) l -> sortBy compareStandings l = l.
Proof.
  intros Hall.
  assert (Hfilter : forall l', Forall (fun s => tiedAt p d s = true) l' ->
                               filter (tiedAt p d) l' = l').
  { induction 1 as [|s l' Hs _ IH]; cbn [filter]; [reflexivity|]. now rewrite Hs, IH. }
  rewrite <- (Hfilter (sortBy compareStandings l)).
  - rewrite (sortBy_stable compareStandings (tiedAt p d)); [now apply Hfilter|].
    intros x y; apply compareStandings_tied.
  - rewrite Forall_forall in *; intros s Hs; apply Hall.
    exact (Permutation_in _ (sortBy_Permutation compareStandings l) Hs).
Qed.

Lemma assignPositions_nth (l : list Registration) (i k : nat) (reg : Registration) :
  nth_error l k = Some reg ->
  nth_error (assignPositions i (map initialStanding l)) k =
  Some (mkStanding (user_id reg) (reg_team_name reg) false (Z.of_nat (i + k) + 1)
                   0 0 0 0 0 0 []).
Proof.
  revert i k; induction l as [|r rs IH]; intros i [|k]; cbn; try discriminate.
  - intros [= ->]; now rewrite Nat.add_0_r.
  - intros Hk; rewrite (IH (S i) k Hk).
    now replace (S i + k)%nat with (i + S k)%nat by lia.
Qed.

(** X9. With no completed encounter and distinct registered users, none of
    them registered as [__proto__], the result lists the teams in the order
    in which [Object.values] lists their standings (those registered under
    an array index first, by index, then the others as registered), at
    positions 1, 2, 3, ..., every counter at zero and the form empty. When
    no user id is an array index, this is the order of the registrations. *)
Theorem standings_before_any_encounter (registrations : list Registration) :
  NoDup (roster registrations) ->
  ~ In Js.proto (roster registrations) ->
  getGroupStandings (fetched []) (fetched registrations) =
  assignPositions 0 (map initialStanding (listedOrder registrations)) /\
  (forall k reg, nth_error (listedOrder registrations) k = Some reg ->
     nth_error (getGroupStandings (fetched []) (fetched registrations)) k =
     Some (mkStanding (user_id reg) (reg_team_name reg) false (Z.of_nat k + 1)
                      0 0 0 0 0 0 [])) /\
  (Forall (fun id => Js.arrayIndex id = None) (roster registrations) ->
   listedOrder registrations = registrations).
Proof.
  intros Hnd Hp.
  assert (Hres : getGroupStandings (fetched []) (fetched registrations) =
                 assignPositions 0 (map initialStanding (listedOrder registrations))).
  { rewrite getGroupStandings_fetched; unfold tallied, tally; cbn [forEach].
    rewrite (initStandings_distinct _ Hnd Hp); unfold values, listedOrder; cbn [properties].
    rewrite !map_map.
    replace (map (fun reg => (user_id reg, initialStanding reg)) registrations)
      with (map (fun entry : string * Registration =>
                   (fst entry, initialStanding (snd entry)))
                (map (fun reg => (user_id reg, reg)) registrations))
      by (rewrite map_map; reflexivity).
    rewrite ownProperties_map, map_map; cbn [snd].
    rewrite (sortBy_all_tied _ 0 0); [reflexivity|].
    apply Forall_forall; intros s Hs; apply in_map_iff in Hs.
    destruct Hs as (entry & <- & _); reflexivity. }
  split; [exact Hres|]; split.
  - rewrite Hres; intros k reg Hk; exact (assignPositions_nth _ 0 k reg Hk).
  - intros Hplain; unfold listedOrder.
    rewrite ownProperties_plain.
    + rewrite map_map; cbn [snd]; apply map_id.
    + intros entry Hin; apply in_map_iff in Hin; destruct Hin as (reg & <- & Hreg).
      unfold Js.indexed; cbn [fst].
      rewrite Forall_forall in Hplain; rewrite (Hplain (user_id reg)); [reflexivity|].
      unfold roster; now apply in_map.
Qed.

Lemma standings_before_any_encounter_witness :
  NoDup (roster [visitors; tens; hosts; nines]) /\
  listedOrder [visitors; tens; hosts; nines] =
  [nines; tens; visitors; hosts] /\
  getGroupStandings (fetched [])
    (fetched [visitors; tens; hosts; nines]) =
  assignPositions 0
    (map initialStanding
         (listedOrder [visitors; tens; hosts; nines])).
Proof.
  assert (Hnd : NoDup (roster [visitors; tens; hosts; nines])).
  { repeat constructor; cbn; intros H; repeat destruct H as [H|H];
      try discriminate H; exact H. }
  assert (Hp : ~ In Js.proto (roster [visitors; tens; hosts; nines]))
    by (cbn; intros H; repeat destruct H as [H|H]; try discriminate H; exact H).
  split; [exact Hnd|]; split; [reflexivity|].
  exact (proj1 (standings_before_any_encounter
                  [visitors; tens; hosts; nines] Hnd Hp)).
Defined.

(** *** Encounters of teams outside the roster *)

Lemma existsb_eqb_In (k : TeamId) (ids : list TeamId) :
  existsb (String.eqb k) ids = true <-> In k ids.
Proof.
  rewrite existsb_exists; split.
  - intros (x & Hx & E); apply String.eqb_eq in E; now subst.
  - intros Hk; exists k; split; [exact Hk | apply String.eqb_refl].
Qed.

(** A callback that ends without an exception and finds no standing under
    either side leaves the object as it is. *)
Lemma processEncounter_foreign (t t' : Table) (e : Encounter) :
  processEncounter t e = Some t' ->
  lookup (home_team_id e) t = None -> lookup (away_team_id e) t = None ->
  t' = t.
Proof.
  intros E Hh Ha; apply processEncounter_effect in E; destruct E as [_ ->].
  now rewrite (modify_absent _ played t Hh), (modify_absent _ played t Ha),
    (modify_absent _ _ t Hh), (modify_absent _ _ t Ha).
Qed.

Lemma forEach_involved (ids : list TeamId) (encounters : list Encounter) (t t' : Table) :
  (forall k, lookup k t <> None <-> In k ids) ->
  forEach processEncounter encounters t = Some t' ->
  forEach processEncounter (filter (involves ids) encounters) t = Some t'.
Proof.
  revert t; induction encounters as [|e encs IH]; intros t Hl; cbn [forEach filter];
    [auto|].
  destruct (processEncounter t e) as [t1|] eqn:E; cbn [andThen]; [|discriminate].
  intros H; destruct (involves ids e) eqn:Ei.
  - cbn [forEach]; rewrite E; cbn [andThen]; apply IH; [|exact H].
    intros k; rewrite (processEncounter_lookup _ _ _ k E), <- Hl.
    destruct (lookup k t); cbn [option_map]; split; congruence.
  - unfold involves in Ei; apply orb_false_iff in Ei; destruct Ei as [Eh Ea].
    assert (Hnone : forall k, existsb (String.eqb k) ids = false -> lookup k t = None).
    { intros k Hk; destruct (lookup k t) eqn:El; [|reflexivity].
      assert (Hin : In k ids) by (apply Hl; congruence).
      apply existsb_eqb_In in Hin; congruence. }
    rewrite (processEncounter_foreign _ _ _ E (Hnone _ Eh) (Hnone _ Ea)) in H.
    now apply IH.
Qed.

(** X10. For a roster that does not hold [__proto__] and sound encounters,
    the encounters of which neither side is a team of the roster change
    nothing: the result is the one obtained after leaving them out. *)
Theorem foreign_encounters_do_not_count (registrations : list Registration)
    (encounters : list Encounter) :
  ~ In Js.proto (roster registrations) ->
  forallb (sound (roster registrations)) encounters = true ->
  getGroupStandings (fetched (filter (involves (roster registrations)) encounters))
                    (fetched registrations) =
  getGroupStandings (fetched encounters) (fetched registrations).
Proof.
  intros Hp Hs.
  destruct (proj1 (tally_sound registrations encounters Hp) Hs) as (t & Ht).
  rewrite !getGroupStandings_fetched; unfold tallied; rewrite Ht.
  unfold tally in *.
  now rewrite (forEach_involved (roster registrations) encounters _ t
                 (initStandings_registered registrations) Ht).
Qed.

Lemma foreign_encounters_do_not_count_witness :
  forallb (sound (roster [hosts; visitors])) [elsewhere; threeToTwo; elsewhere] = true /\
  filter (involves (roster [hosts; visitors])) [elsewhere; threeToTwo; elsewhere] =
  [threeToTwo] /\
  getGroupStandings
    (fetched (filter (involves (roster [hosts; visitors]))
                     [elsewhere; threeToTwo; elsewhere]))
    (fetched [hosts; visitors]) =
  getGroupStandings (fetched [elsewhere; threeToTwo; elsewhere]) (fetched [hosts; visitors]).
Proof.
  assert (Hp : ~ In Js.proto (roster [hosts; visitors]))
    by (cbn; intros H; repeat destruct H as [H|H]; try discriminate H; exact H).
  split; [reflexivity|]; split; [reflexivity|].
  exact (foreign_encounters_do_not_count [hosts; visitors]
           [elsewhere; threeToTwo; elsewhere] Hp eq_refl).
Defined.

End StandingsInvariants.

(** ** Tiers *)

Module TiersFacts.

Import Standings StandingsFacts Tiers.
Local Open Scope Z_scope.

Lemma getNextTier_table (t : string) :
  getNextTier t =
  if String.eqb "departmental" t then Some "regional"%string
  else if String.eqb "regional" t then Some "national"%string
  else if String.eqb "national" t then Some "top12"%string
  else if String.eqb "top12" t then None
  else Some "departmental"%string.
Proof.
  unfold getNextTier, progression; cbn [indexOf List.length].
  destruct (String.eqb "departmental" t); [reflexivity|].
  destruct (String.eqb "regional" t); [reflexivity|].
  destruct (String.eqb "national" t); [reflexivity|].
  destruct (String.eqb "top12" t); reflexivity.
Qed.

(** X11. [getNextTier] answers null for 'top12' and for nothing else; a
    tier of the progression before 'top12' gives the tier that follows it,
    and a string that is no tier of the progression gives 'departmental'. *)
Theorem next_tier_cases (t : string) :
  (getNextTier t = None <-> t = "top12"%string) /\
  (forall u, getNextTier t = Some u ->
     (t = "departmental" /\ u = "regional")%string \/
     (t = "regional" /\ u = "national")%string \/
     (t = "national" /\ u = "top12")%string \/
     (~ In t progression /\ u = "departmental"%string)).
Proof.
  rewrite getNextTier_table.
  destruct (String.eqb_spec "departmental" t) as [<-|N1].
  { split; [split; discriminate | intros u [= <-]; auto]. }
  destruct (String.eqb_spec "regional" t) as [<-|N2].
  { split; [split; discriminate | intros u [= <-]; auto]. }
  destruct (String.eqb_spec "national" t) as [<-|N3].
  { split; [split; discriminate | intros u [= <-]; auto 6]. }
  destruct (String.eqb_spec "top12" t) as [<-|N4].
  { split; [split; reflexivity | discriminate]. }
  split; [split; [discriminate | congruence]|].
  intros u [= <-]; right; right; right; split; [|reflexivity].
  unfold progression; cbn; intuition congruence.
Qed.

Lemma getNextTier_in_progression (t u : string) :
  getNextTier t = Some u -> In u progression /\ truthy u = true.
Proof.
  rewrite getNextTier_table.
  destruct (String.eqb "departmental" t); [intros [= <-]; cbn; auto|].
  destruct (String.eqb "regional" t); [intros [= <-]; cbn; auto|].
  destruct (String.eqb "national" t); [intros [= <-]; cbn; auto 6|].
  destruct (String.eqb "top12" t); [discriminate|].
  intros [= <-]; cbn; auto.
Qed.

(** *** The final position *)

Lemma find_nth_error {A : Type} (p : A -> bool) (l : list A) (x : A) :
  find p l = Some x -> exists k, nth_error l k = Some x /\ p x = true.
Proof.
  induction l as [|y l IH]; cbn; [discriminate|].
  destruct (p y) eqn:E.
  - intros [= <-]; exists 0%nat; auto.
  - intros H; destruct (IH H) as (k & Hk & Hp); exists (S k); auto.
Qed.

Lemma find_none_iff {A : Type} (p : A -> bool) (l : list A) :
  find p l = None <-> forall x, In x l -> p x = false.
Proof.
  induction l as [|y l IH]; cbn; [tauto|].
  destruct (p y) eqn:E.
  - split; [discriminate|]. intros H; specialize (H y (or_introl eq_refl)); congruence.
  - rewrite IH; split.
    + intros H x [<-|Hx]; auto.
    + intros H x Hx; apply H; now right.
Qed.

Lemma result_position (registrations : list Registration) (encounters : list Encounter)
    (k : nat) (s : GroupStanding) :
  nth_error (getGroupStandings (fetched encounters) (fetched registrations)) k = Some s ->
  position s = Z.of_nat k + 1.
Proof.
  rewrite getGroupStandings_fetched.
  generalize (sortBy compareStandings (tallied registrations encounters)) as l.
  assert (H : forall l i k s, nth_error (assignPositions i l) k = Some s ->
                              position s = Z.of_nat (i + k) + 1).
  { induction l as [|x l IH]; intros i [|j] s'; cbn; try discriminate.
    - intros [= <-]; cbn; now rewrite Nat.add_0_r.
    - intros Hj; rewrite (IH (S i) j s' Hj); lia. }
  intros l; apply H.
Qed.

(** X12. Once the registration of the user is found and the queries of the
    group go through: for a user of a roster that does not hold
    [__proto__], with sound encounters, the final position is the place,
    counted from 1, of the user's entry in the standings; for a user
    outside the roster it is 999; and it is 999 for every user when an
    encounter that is not sound has left the standings empty. *)
Theorem final_position_is_the_rank (userId : TeamId) (group : Z)
    (encounters : list Encounter) (registrations : list Registration) :
  let standings := getGroupStandings (fetched encounters) (fetched registrations) in
  let r := getUserFinalPosition userId (mkResponse (Some group) None)
             (fetched encounters) (fetched registrations) in
  (~ In Js.proto (roster registrations) ->
   forallb (sound (roster registrations)) encounters = true ->
   In userId (roster registrations) ->
   1 <= r <= Z.of_nat (List.length standings) /\
   exists s, nth_error standings (Z.to_nat (r - 1)) = Some s /\ team_id s = userId) /\
  (~ In userId (roster registrations) -> r = 999) /\
  (~ In Js.proto (roster registrations) ->
   forallb (sound (roster registrations)) encounters = false -> r = 999).
Proof.
  cbv zeta; unfold getUserFinalPosition; cbn [error data].
  set (standings := getGroupStandings (fetched encounters) (fetched registrations)).
  split; [|split].
  - intros Hp Hs Hin.
    destruct (find (fun s => String.eqb (team_id s) userId) standings) as [s|] eqn:E.
    + destruct (find_nth_error _ _ _ E) as (k & Hk & Hid).
      apply String.eqb_eq in Hid.
      pose proof (result_position _ _ _ _ Hk) as Hpos.
      assert (Hlt : (k < List.length standings)%nat)
        by (apply nth_error_Some; congruence).
      replace (position s =? 0) with false by (symmetry; apply Z.eqb_neq; lia).
      split; [lia|]; exists s; split; [|exact Hid].
      rewrite Hpos; replace (Z.to_nat (Z.of_nat k + 1 - 1)) with k by lia; exact Hk.
    + exfalso; rewrite find_none_iff in E.
      destruct (result_for_team registrations encounters userId Hp Hs Hin)
        as (reg & _ & Hreg_id & _ & k & Hk).
      specialize (E _ Hk); cbn beta in E.
      destruct (sideUpdates_effect userId encounters (initialStanding reg)) as (Hid & _).
      cbv zeta in Hid; cbn [assignPosition team_id] in E; rewrite Hid in E.
      cbn [initialStanding team_id] in E; rewrite Hreg_id, String.eqb_refl in E.
      discriminate E.
  - intros Hout.
    destruct (find (fun s => String.eqb (team_id s) userId) standings) as [s|] eqn:E;
      [|reflexivity].
    exfalso; destruct (find_nth_error _ _ _ E) as (k & Hk & Hid).
    apply String.eqb_eq in Hid; apply nth_error_In in Hk.
    apply Hout; rewrite <- Hid; exact (result_registered _ _ _ Hk).
  - intros Hp Hs.
    replace standings with (@nil GroupStanding); [reflexivity|].
    symmetry; unfold standings; rewrite getGroupStandings_fetched; unfold tallied.
    now rewrite (proj2 (tally_sound registrations encounters Hp) Hs).
Qed.

Lemma final_position_is_the_rank_witness :
  forallb (sound (roster [hosts; visitors])) [threeToTwo] = true /\
  In "t2"%string (roster [hosts; visitors]) /\
  1 <= getUserFinalPosition "t2"%string (mkResponse (Some 1) None)
         (fetched [threeToTwo]) (fetched [hosts; visitors])
    <= Z.of_nat (List.length (getGroupStandings (fetched [threeToTwo])
                                                (fetched [hosts; visitors]))) /\
  exists s,
    nth_error (getGroupStandings (fetched [threeToTwo]) (fetched [hosts; visitors]))
      (Z.to_nat (getUserFinalPosition "t2"%string (mkResponse (Some 1) None)
                   (fetched [threeToTwo]) (fetched [hosts; visitors]) - 1)) = Some s /\
    team_id s = "t2"%string.
Proof.
  assert (Hp : ~ In Js.proto (roster [hosts; visitors]))
    by (cbn; intros H; repeat destruct H as [H|H]; try discriminate H; exact H).
  assert (Hin : In "t2"%string (roster [hosts; visitors])) by (right; left; reflexivity).
  split; [reflexivity|]; split; [exact Hin|].
  exact (proj1 (final_position_is_the_rank "t2"%string 1 [threeToTwo] [hosts; visitors])
           Hp eq_refl Hin).
Defined.

(** *** The unlocked tiers *)

Section Unlocking.

Variable finalPositionOf : string -> Z.

Lemma unlockStep_spec (unlockedTiers : list string) (registration : PastRegistration) :
  (unlockStep finalPositionOf unlockedTiers registration = unlockedTiers \/
   exists t, earns finalPositionOf registration t /\
             ~ In t unlockedTiers /\
             unlockStep finalPositionOf unlockedTiers registration = unlockedTiers ++ [t]) /\
  (forall t, earns finalPositionOf registration t ->
             In t (unlockStep finalPositionOf unlockedTiers registration)).
Proof.
  unfold unlockStep, earns.
  destruct (season registration) as [s|];
    [|split; [now left | intros t (s & E & _); discriminate E]].
  destruct (String.eqb_spec (status s) "completed") as [Hst|Hst];
    [|split; [now left | intros t (s' & [= <-] & E & _); contradiction]].
  destruct (finalPositionOf (season_id registration) <=? 2) eqn:Hpos;
    [apply Z.leb_le in Hpos
    |apply Z.leb_gt in Hpos; split;
       [now left | intros t (s' & _ & _ & E & _); lia]].
  destruct (getNextTier (tier s)) as [nextTier|] eqn:Hnext;
    [|split; [now left | intros t (s' & [= <-] & _ & _ & E); congruence]].
  destruct (getNextTier_in_progression _ _ Hnext) as [_ Htruthy]; rewrite Htruthy.
  cbn [andb].
  destruct (existsb (String.eqb nextTier) unlockedTiers) eqn:Hinc; cbn [negb].
  - split; [now left|].
    intros t (s' & [= <-] & _ & _ & E); rewrite Hnext in E; injection E as <-.
    apply existsb_exists in Hinc; destruct Hinc as (x & Hx & Ex).
    apply String.eqb_eq in Ex; now subst.
  - split.
    + right; exists nextTier; split; [exists s; auto|]; split; [|reflexivity].
      intros Hin; assert (existsb (String.eqb nextTier) unlockedTiers = true); [|congruence].
      apply existsb_exists; exists nextTier; split; [exact Hin | apply String.eqb_refl].
    + intros t (s' & [= <-] & _ & _ & E); rewrite Hnext in E; injection E as <-.
      apply in_or_app; right; now left.
Qed.

Lemma unlock_fold (rows : list PastRegistration) (unlockedTiers : list string) :
  let result := fold_left (unlockStep finalPositionOf) rows unlockedTiers in
  (exists more, result = unlockedTiers ++ more) /\
  (NoDup unlockedTiers -> NoDup result) /\
  (forall t, In t result <->
             In t unlockedTiers \/ exists reg, In reg rows /\ earns finalPositionOf reg t).
Proof.
  revert unlockedTiers; induction rows as [|reg rows IH]; intros acc; cbn [fold_left].
  - split; [exists []; now rewrite app_nil_r|]; split; [auto|].
    intros t; split; [auto | intros [H | (r & [] & _)]; exact H].
  - destruct (IH (unlockStep finalPositionOf acc reg)) as ((more & Hmore) & Hnd & Hin).
    destruct (unlockStep_spec acc reg) as [Hstep Hearn].
    cbv zeta in *; split; [|split].
    + destruct Hstep as [E | (t & _ & _ & E)]; rewrite Hmore, E.
      * now exists more.
      * exists (t :: more); now rewrite <- app_assoc.
    + intros Hacc; apply Hnd.
      destruct Hstep as [E | (t & _ & Hnew & E)]; rewrite E; [exact Hacc|].
      apply NoDup_app; [exact Hacc | repeat constructor; cbn; tauto |].
      intros x Hx [<- | []]; contradiction.
    + intros t; rewrite Hin; split.
      * intros [H | (r & Hr & He)].
        -- destruct Hstep as [E | (u & Hu & _ & E)]; rewrite E in H; [now left|].
           apply in_app_iff in H; destruct H as [H | [<- | []]]; [now left|].
           right; exists reg; split; [now left | exact Hu].
        -- right; exists r; split; [now right | exact He].
      * intros [H | (r & [<- | Hr] & He)].
        -- left; destruct Hstep as [E | (u & _ & _ & E)]; rewrite E; [exact H|].
           apply in_or_app; now left.
        -- left; now apply Hearn.
        -- right; exists r; auto.
Qed.

End Unlocking.

(** X13. Whatever the store answers, the unlocked tiers begin with
    'departmental', hold no tier twice and hold tiers of the progression
    only. *)
Theorem unlocked_tiers_shape (finalPositionOf : string -> Z)
    (pastRegistrations : StoreResponse (list PastRegistration)) :
  let unlockedTiers := getUserUnlockedTiers finalPositionOf pastRegistrations in
  (exists more, unlockedTiers = "departmental"%string :: more) /\
  NoDup unlockedTiers /\
  incl unlockedTiers progression.
Proof.
  cbv zeta; unfold getUserUnlockedTiers.
  assert (Hdep : NoDup ["departmental"%string]) by (repeat constructor; cbn; tauto).
  destruct (error pastRegistrations).
  - split; [now exists []|]; split; [exact Hdep|].
    intros t [<- | []]; cbn; auto.
  - destruct (unlock_fold finalPositionOf (rowsOf pastRegistrations) ["departmental"%string])
      as ((more & Hmore) & Hnd & Hin).
    cbv zeta in *; split; [|split].
    + exists more; exact Hmore.
    + exact (Hnd Hdep).
    + intros t Ht; apply Hin in Ht.
      destruct Ht as [[<- | []] | (reg & _ & s & _ & _ & _ & Hnext)]; [cbn; auto|].
      exact (proj1 (getNextTier_in_progression _ _ Hnext)).
Qed.

(** X14. When the query of the past registrations goes through, a tier is
    unlocked exactly when it is 'departmental' or it is earned by one of
    the registrations: a completed season finished first or second, whose
    tier has that tier for its next one. *)
Theorem unlocked_tiers_are_earned (finalPositionOf : string -> Z)
    (rows : list PastRegistration) (t : string) :
  In t (getUserUnlockedTiers finalPositionOf (fetched rows)) <->
  t = "departmental"%string \/ exists reg, In reg rows /\ earns finalPositionOf reg t.
Proof.
  unfold getUserUnlockedTiers, fetched, rowsOf; cbn [error data].
  destruct (unlock_fold finalPositionOf rows ["departmental"%string]) as (_ & _ & Hin).
  cbv zeta in Hin; rewrite Hin; cbn [In]; intuition auto.
Qed.

End TiersFacts.

(** ** Lineups *)

Module LineupsFacts.

Import Lineups JsFacts.

(** *** Objects used as maps *)

Lemma dget_dset {A : Type} (k k' : string) (v : A) (d : Dict A) :
  dget k (dset k' v d) = if String.eqb k' k then Some v else dget k d.
Proof.
  induction d as [|[k0 v0] d IH]; cbn; [reflexivity|].
  destruct (String.eqb_spec k0 k') as [->|N]; cbn.
  - now destruct (String.eqb k' k).
  - destruct (String.eqb_spec k0 k) as [->|N'].
    + destruct (String.eqb_spec k' k); [congruence | reflexivity].
    + exact IH.
Qed.

Lemma dset_keys {A : Type} (k : string) (v : A) (d : Dict A) :
  map fst (dset k v d) =
  if in_dec string_dec k (map fst d) then map fst d else map fst d ++ [k].
Proof.
  induction d as [|[k0 v0] d IH]; simpl; [reflexivity|].
  destruct (String.eqb_spec k0 k) as [->|N]; simpl.
  - destruct (string_dec k k); [reflexivity | congruence].
  - rewrite IH; destruct (string_dec k0 k); [congruence|].
    now destruct (in_dec string_dec k (map fst d)).
Qed.

Lemma dset_keys_NoDup {A : Type} (k : string) (v : A) (d : Dict A) :
  NoDup (map fst d) -> NoDup (map fst (dset k v d)).
Proof.
  intros Hnd; rewrite dset_keys.
  destruct (in_dec string_dec k (map fst d)) as [Hin|Hout]; [exact Hnd|].
  apply NoDup_app; [exact Hnd | repeat constructor; cbn; tauto |].
  intros x Hx [<- | []]; contradiction.
Qed.

Lemma dget_In {A : Type} (k : string) (v : A) (d : Dict A) :
  NoDup (map fst d) -> (In (k, v) d <-> dget k d = Some v).
Proof.
  induction d as [|[k0 v0] d IH]; cbn; [intros _; split; [tauto | discriminate]|].
  intros Hnd; apply NoDup_cons_iff in Hnd; destruct Hnd as [Hk Hnd].
  destruct (String.eqb_spec k0 k) as [->|N].
  - split.
    + intros [[= ->] | Hin]; [reflexivity|].
      exfalso; apply Hk; change k with (fst (k, v)); now apply in_map.
    + intros [= ->]; now left.
  - rewrite <- (IH Hnd); split; [intros [[= E _] | H]; [congruence | exact H] | tauto].
Qed.

(** *** Counting the places of a player *)

(** What [usage] holds under a name once the ids are counted: nothing for a
    name that is no id of the list or is [__proto__], a text for the name
    of a method of [Object.prototype], the number of its places for any
    other id. *)
Lemma countUsage_counts (ids : list string) :
  NoDup (map fst (countUsage ids)) /\
  forall k, dget k (countUsage ids) =
            if count_occ string_dec ids k =? 0 then None
            else if String.eqb k Js.proto then None
            else if Js.inherited k then Some Concatenated
            else Some (Times (count_occ string_dec ids k)).
Proof.
  unfold countUsage.
  assert (H : forall ids seen usage,
            NoDup (map fst usage) ->
            (forall k, dget k usage =
                       if count_occ string_dec seen k =? 0 then None
                       else if String.eqb k Js.proto then None
                       else if Js.inherited k then Some Concatenated
                       else Some (Times (count_occ string_dec seen k))) ->
            let usage' := fold_left useOnce ids usage in
            NoDup (map fst usage') /\
            forall k, dget k usage' =
                      if count_occ string_dec (seen ++ ids) k =? 0 then None
                      else if String.eqb k Js.proto then None
                      else if Js.inherited k then Some Concatenated
                      else Some (Times (count_occ string_dec (seen ++ ids) k))).
  { clear ids; induction ids as [|x xs IH]; intros seen usage Hnd Hget; cbn [fold_left].
    - rewrite app_nil_r; auto.
    - replace (seen ++ x :: xs) with ((seen ++ [x]) ++ xs) by (now rewrite <- app_assoc).
      apply IH.
      + unfold useOnce; destruct (dget x usage) as [[n|]|];
          [| |destruct (String.eqb x Js.proto); [exact Hnd|]; destruct (Js.inherited x)];
          now apply dset_keys_NoDup.
      + intros k; rewrite count_occ_app; cbn [count_occ].
        unfold useOnce; rewrite (Hget x).
        destruct (String.eqb_spec x k) as [->|N].
        * destruct (string_dec k k); [|congruence].
          replace (count_occ string_dec seen k + 1 =? 0) with false
            by (symmetry; apply Nat.eqb_neq; lia).
          destruct (count_occ string_dec seen k) as [|c] eqn:E; cbn [Nat.eqb].
          -- destruct (String.eqb k Js.proto) eqn:Ep.
             ++ rewrite (Hget k), E; reflexivity.
             ++ destruct (Js.inherited k); rewrite dget_dset, String.eqb_refl; reflexivity.
          -- destruct (String.eqb k Js.proto) eqn:Ep.
             ++ rewrite (Hget k), E, Ep; reflexivity.
             ++ destruct (Js.inherited k); rewrite dget_dset, String.eqb_refl;
                  [reflexivity | do 2 f_equal; lia].
        * destruct (string_dec x k); [congruence|].
          rewrite Nat.add_0_r.
          assert (Hother : forall v, dget k (dset x v usage) = dget k usage).
          { intros v; rewrite dget_dset.
            destruct (String.eqb_spec x k); [congruence | reflexivity]. }
          destruct (count_occ string_dec seen x =? 0);
            [|destruct (String.eqb x Js.proto)];
            [destruct (String.eqb x Js.proto) | |destruct (Js.inherited x)];
            try destruct (Js.inherited x);
            rewrite ?Hother; apply Hget. }
  apply (H ids [] []); [constructor | intros k; reflexivity].
Qed.

Lemma countUsage_entry (ids : list string) (k : string) (n : nat) :
  In (k, Times n) (countUsage ids) <->
  n = count_occ string_dec ids k /\ 0 < n /\ Js.reserved k = false.
Proof.
  destruct (countUsage_counts ids) as [Hnd Hget].
  rewrite (dget_In k (Times n) _ Hnd), Hget; unfold Js.reserved.
  destruct (count_occ string_dec ids k) eqn:E; cbn [Nat.eqb].
  - split; [discriminate | lia].
  - destruct (String.eqb k Js.proto); cbn [orb]; [split; [discriminate | intros (_ & _ & H); discriminate H]|].
    destruct (Js.inherited k); [split; [discriminate | intros (_ & _ & H); discriminate H]|].
    split; [intros [= <-]; repeat split; lia | intros (-> & _); reflexivity].
Qed.

Lemma filter_keys_NoDup {A : Type} (p : string * A -> bool) (d : Dict A) :
  NoDup (map fst d) -> NoDup (map fst (filter p d)).
Proof.
  induction d as [|[k n] d IH]; cbn [filter map fst]; [constructor|].
  intros Hnd; apply NoDup_cons_iff in Hnd; destruct Hnd as [Hk Hnd].
  destruct (p (k, n)); [|now apply IH].
  cbn [map fst]; constructor; [|now apply IH].
  intros Hin; apply Hk.
  apply in_map_iff in Hin; destruct Hin as ([k' n'] & <- & Hin').
  apply filter_In in Hin'; destruct Hin' as [Hin' _].
  now apply (in_map fst) in Hin'.
Qed.

(** The ids entered with more than three places: each once, and exactly
    those that take more than three places and are no name of a member of
    [Object.prototype]. *)
Lemma overused_ids (lineup : Lineup) :
  let overused := filter moreThan3 (Js.ownProperties (countUsage (allPlayerIds lineup))) in
  NoDup (map fst overused) /\
  forall x, In x (map fst overused) <-> 3 < timesUsed lineup x /\ Js.reserved x = false.
Proof.
  cbv zeta; unfold timesUsed.
  destruct (countUsage_counts (allPlayerIds lineup)) as [Hnd _].
  split.
  - apply filter_keys_NoDup.
    exact (Permutation_NoDup
             (Permutation_sym (Permutation_map fst (ownProperties_Permutation _))) Hnd).
  - intros x; rewrite in_map_iff; split.
    + intros ([k u] & <- & Hin); apply filter_In in Hin; destruct Hin as [Hin Hn].
      apply (Permutation_in _ (ownProperties_Permutation _)) in Hin.
      destruct u as [n|]; [|discriminate Hn].
      apply countUsage_entry in Hin; apply Nat.ltb_lt in Hn; cbn [fst snd] in *.
      split; [lia | tauto].
    + intros [Hx Hr]; exists (x, Times (count_occ string_dec (allPlayerIds lineup) x)); split;
        [reflexivity|].
      apply filter_In; split; [|now apply Nat.ltb_lt].
      apply (Permutation_in _ (Permutation_sym (ownProperties_Permutation _))).
      apply countUsage_entry; repeat split; [lia | exact Hr].
Qed.

(** Distinct ids share the places of a list. *)
Lemma places_shared (l ids : list string) :
  NoDup ids -> list_sum (map (count_occ string_dec l) ids) <= List.length l.
Proof.
  intros Hnd; induction l as [|y l IH]; cbn [count_occ List.length].
  - induction ids as [|x xs IHx]; cbn; [lia|].
    apply NoDup_cons_iff in Hnd; apply IHx; tauto.
  - assert (H : list_sum (map (fun x => if string_dec y x
                                        then S (count_occ string_dec l x)
                                        else count_occ string_dec l x) ids) =
                count_occ string_dec ids y + list_sum (map (count_occ string_dec l) ids)).
    { clear; induction ids as [|x xs IHx]; cbn [map list_sum fold_right count_occ]; [reflexivity|].
      change (fold_right Nat.add 0 ?m) with (list_sum m) in *.
      rewrite IHx.
      destruct (string_dec y x) as [E1|N1], (string_dec x y) as [E2|N2];
        try congruence; lia. }
    rewrite H.
    pose proof (proj1 (NoDup_count_occ string_dec ids) Hnd y); lia.
Qed.

(** X15. The usage check accepts a lineup exactly when no id other than
    the names of the members of [Object.prototype] takes more than three
    of its eight places; an id that is such a name is never counted, as
    for the lineup that has 'toString' in every place. *)
Theorem usage_limit_is_three_places (lineup : Lineup) :
  (valid (validatePlayerUsageLimit lineup) = true <->
   forall x, Js.reserved x = false -> timesUsed lineup x <= 3) /\
  validatePlayerUsageLimit allToString = mkValidation true None.
Proof.
  split; [|reflexivity].
  destruct (overused_ids lineup) as [_ Hin]; cbv zeta in Hin.
  unfold validatePlayerUsageLimit.
  destruct (filter moreThan3 (Js.ownProperties (countUsage (allPlayerIds lineup))))
    as [|[k n] rest] eqn:E;
    cbn [List.length Nat.ltb Nat.leb valid].
  - split; [intros _ x Hr | reflexivity].
    destruct (le_lt_dec (timesUsed lineup x) 3) as [H|H]; [exact H|].
    destruct (proj2 (Hin x) (conj H Hr)).
  - split; [discriminate|].
    intros H.
    assert (Hk : 3 < timesUsed lineup k /\ Js.reserved k = false) by (apply Hin; now left).
    specialize (H k (proj2 Hk)); lia.
Qed.

(** X16. When the usage check refuses a lineup, its message is
    'Players used more than 3 times: ' followed by the ids, separated by
    ', ', of exactly the players that take more than three places and are
    not named as a member of [Object.prototype], each named once; there are
    one or two of them. *)
Theorem usage_limit_names_the_overused (lineup : Lineup) :
  valid (validatePlayerUsageLimit lineup) = false ->
  exists ids,
    error (validatePlayerUsageLimit lineup) =
      Some (String.append "Players used more than 3 times: " (String.concat ", " ids)) /\
    NoDup ids /\
    (forall x, In x ids <-> 3 < timesUsed lineup x /\ Js.reserved x = false) /\
    1 <= List.length ids <= 2.
Proof.
  destruct (overused_ids lineup) as [Hnd Hin]; cbv zeta in *.
  unfold validatePlayerUsageLimit.
  set (overused := filter moreThan3 (Js.ownProperties (countUsage (allPlayerIds lineup))))
    in *.
  destruct (0 <? List.length overused) eqn:E; cbn [valid error]; [intros _ | discriminate].
  apply Nat.ltb_lt in E.
  exists (map fst overused); split; [reflexivity|]; split; [exact Hnd|]; split; [exact Hin|].
  rewrite length_map; split; [lia|].
  pose proof (places_shared (allPlayerIds lineup) (map fst overused) Hnd) as Hsum.
  assert (Hfour : 4 * List.length (map fst overused) <=
                  list_sum (map (count_occ string_dec (allPlayerIds lineup))
                                (map fst overused))).
  { assert (Hall : forall x, In x (map fst overused) ->
                             4 <= count_occ string_dec (allPlayerIds lineup) x)
      by (intros x Hx; apply Hin in Hx; exact (proj1 Hx)).
    revert Hall; generalize (map fst overused) as ids.
    induction ids as [|x xs IHx]; intros Hall; cbn [map list_sum fold_right List.length]; [lia|].
    change (fold_right Nat.add 0 ?m) with (list_sum m).
    specialize (IHx (fun x' Hx' => Hall x' (or_intror Hx'))).
    specialize (Hall x (or_introl eq_refl)); lia. }
  rewrite length_map in Hfour; cbn [allPlayerIds List.length] in Hsum; lia.
Qed.

Lemma usage_limit_names_the_overused_witness :
  valid (validatePlayerUsageLimit crowded) = false /\
  exists ids,
    error (validatePlayerUsageLimit crowded) =
      Some (String.append "Players used more than 3 times: " (String.concat ", " ids)) /\
    NoDup ids /\
    (forall x, In x ids <-> 3 < timesUsed crowded x /\ Js.reserved x = false) /\
    1 <= List.length ids <= 2.
Proof.
  split; [reflexivity|].
  exact (usage_limit_names_the_overused crowded eq_refl).
Defined.

(** Of an id that names a method of [Object.prototype] and the id of a
    player, four places each, the message names the player only; ids that
    are array indices are named first, by index. *)
Example named_in_the_message :
  (validatePlayerUsageLimit halfToString =
   mkValidation false (Some "Players used more than 3 times: p1") /\
   validatePlayerUsageLimit (mkLineup "b" "10" ("b", "b") ("10", "10") ("b", "10")) =
   mkValidation false (Some "Players used more than 3 times: 10, b"))%string.
Proof. split; reflexivity. Qed.

(** *** The constraints of a submitted lineup *)

Lemma existsb_filter_nil {A : Type} (p : A -> bool) (l : list A) :
  existsb p l = false -> filter p l = [].
Proof.
  induction l as [|x l IH]; cbn; [reflexivity|].
  destruct (p x); [discriminate | exact IH].
Qed.

(** X17. A lineup that [validateLineupConstraints] accepts is accepted by
    [validatePlayerUsageLimit] too, whatever the store answered. *)
Theorem constraints_imply_usage_limit (lineup : Lineup)
    (players : Standings.StoreResponse (list Player)) :
  valid (validateLineupConstraints lineup players) = true ->
  validatePlayerUsageLimit lineup = mkValidation true None.
Proof.
  unfold validateLineupConstraints, validatePlayerUsageLimit.
  destruct (existsb moreThan3 (Js.ownProperties (countUsage (allPlayerIds lineup))))
    eqn:E; [discriminate|].
  intros _; now rewrite (existsb_filter_nil _ _ E).
Qed.

Lemma constraints_imply_usage_limit_witness :
  valid (validateLineupConstraints
           regular
           (Standings.fetched squad)) = true /\
  validatePlayerUsageLimit regular =
  mkValidation true None.
Proof.
  split; [reflexivity|].
  exact (constraints_imply_usage_limit
           regular
           (Standings.fetched squad) eq_refl).
Defined.

(** What is found in [playerMap] under a key is a row of the answer with
    that id. *)
Lemma playerMap_get (players : list Player) (k : string) (p : Player) :
  dget k (fold_left (fun map player => dset (id player) player map) players []) = Some p ->
  In p players /\ id p = k.
Proof.
  assert (H : forall players (acc : Dict Player),
            dget k (fold_left (fun map player => dset (id player) player map) players acc)
              = Some p ->
            dget k acc = Some p \/ (In p players /\ id p = k)).
  { clear players; induction players as [|q qs IH]; intros acc; cbn [fold_left]; [auto|].
    intros Hget; apply IH in Hget; destruct Hget as [Hget | [Hin Hid]].
    - rewrite dget_dset in Hget.
      destruct (String.eqb_spec (id q) k) as [E|N]; [|now left].
      injection Hget as <-; right; split; [now left | exact E].
    - right; split; [now right | exact Hid]. }
  intros Hget; destruct (H players [] Hget) as [E | E]; [discriminate E | exact E].
Qed.

Lemma hasGender_listed (players : list Player) (g x : string) :
  hasGender g
    (dget x (fold_left (fun map player => dset (id player) player map) players [])) = true ->
  listed players g x.
Proof.
  unfold hasGender, listed.
  destruct (dget x _) as [p|] eqn:E; [|discriminate].
  intros Hg; apply String.eqb_eq in Hg; apply playerMap_get in E.
  exists p; tauto.
Qed.

(** X18. When [validateLineupConstraints] accepts a lineup, the store has
    answered with rows among which both men's singles and men's doubles
    places are held by ids of male players, the women's places by ids of
    female players, and the mixed doubles by two different ids, one of a
    male and one of a female player. *)
Theorem accepted_lineup_respects_genders (lineup : Lineup)
    (players : Standings.StoreResponse (list Player)) :
  valid (validateLineupConstraints lineup players) = true ->
  exists rows,
    Standings.data players = Some rows /\ Standings.error players = None /\
    listed rows "male" (mens_singles lineup) /\
    listed rows "female" (womens_singles lineup) /\
    listed rows "male" (fst (mens_doubles lineup)) /\
    listed rows "male" (snd (mens_doubles lineup)) /\
    listed rows "female" (fst (womens_doubles lineup)) /\
    listed rows "female" (snd (womens_doubles lineup)) /\
    fst (mixed_doubles lineup) <> snd (mixed_doubles lineup) /\
    ((listed rows "male" (fst (mixed_doubles lineup)) /\
      listed rows "female" (snd (mixed_doubles lineup))) \/
     (listed rows "female" (fst (mixed_doubles lineup)) /\
      listed rows "male" (snd (mixed_doubles lineup)))).
Proof.
  unfold validateLineupConstraints.
  destruct (existsb _ (Js.ownProperties (countUsage (allPlayerIds lineup))));
    [discriminate|].
  destruct (Standings.error players); [discriminate|].
  destruct (Standings.data players) as [rows|]; [|discriminate].
  set (playerMap := fold_left (fun map player => dset (id player) player map) rows []).
  destruct (hasGender "male" (dget (mens_singles lineup) playerMap)) eqn:H1;
    cbn [negb]; [|discriminate].
  destruct (hasGender "female" (dget (womens_singles lineup) playerMap)) eqn:H2;
    cbn [negb]; [|discriminate].
  cbn [existsb].
  destruct (hasGender "male" (dget (fst (mens_doubles lineup)) playerMap)) eqn:H3;
    cbn [negb orb]; [|discriminate].
  destruct (hasGender "male" (dget (snd (mens_doubles lineup)) playerMap)) eqn:H4;
    cbn [negb orb]; [|discriminate].
  destruct (hasGender "female" (dget (fst (womens_doubles lineup)) playerMap)) eqn:H5;
    cbn [negb orb]; [|discriminate].
  destruct (hasGender "female" (dget (snd (womens_doubles lineup)) playerMap)) eqn:H6;
    cbn [negb orb]; [|discriminate].
  intros Hmixed; exists rows.
  split; [reflexivity|]; split; [reflexivity|].
  repeat (split; [now apply hasGender_listed|]).
  assert (Hexcl : forall x, hasGender "male" (dget x playerMap) = true ->
                            hasGender "female" (dget x playerMap) = true -> False).
  { intros x; unfold hasGender; destruct (dget x playerMap) as [p|]; [|discriminate].
    intros Hm Hf; apply String.eqb_eq in Hm, Hf; rewrite Hm in Hf; discriminate Hf. }
  cbn [find] in Hmixed.
  destruct (hasGender "male" (dget (fst (mixed_doubles lineup)) playerMap)) eqn:M1;
    destruct (hasGender "female" (dget (fst (mixed_doubles lineup)) playerMap)) eqn:F1;
    destruct (hasGender "male" (dget (snd (mixed_doubles lineup)) playerMap)) eqn:M2;
    destruct (hasGender "female" (dget (snd (mixed_doubles lineup)) playerMap)) eqn:F2;
    try discriminate Hmixed;
    try (exfalso; now apply (Hexcl (fst (mixed_doubles lineup))));
    try (exfalso; now apply (Hexcl (snd (mixed_doubles lineup)))).
  - split; [intros E; rewrite E in M1; congruence|].
    left; split; now apply hasGender_listed.
  - split; [intros E; rewrite E in M1; congruence|].
    right; split; now apply hasGender_listed.
Qed.

Lemma accepted_lineup_respects_genders_witness :
  valid (validateLineupConstraints
           regular
           (Standings.fetched squad)) = true /\
  exists rows,
    Standings.data (Standings.fetched squad) = Some rows /\
    listed rows "female" "p5" /\ listed rows "male" "p1".
Proof.
  split; [reflexivity|].
  destruct (accepted_lineup_respects_genders
              regular
              (Standings.fetched squad) eq_refl)
    as (rows & Hrows & _ & Hms & _ & _ & _ & _ & Hwd & _).
  exists rows; split; [exact Hrows|]; split; [exact Hwd | exact Hms].
Defined.

(** *** The lineup generated for a team *)

(** The ids of the eight places when the men [a], [b], [c] and the women
    [e], [f] are five different players, the last man is [a] or a sixth
    player, the last woman of the doubles is [e] or a sixth player, and the
    woman of the mixed doubles is [f] or [e]. *)
Lemma eight_places (a b c e f d g h x : string) :
  a <> b -> a <> c -> b <> c -> e <> f ->
  a <> e -> a <> f -> b <> e -> b <> f -> c <> e -> c <> f ->
  d = a \/ (d <> a /\ d <> b /\ d <> c /\ d <> e /\ d <> f) ->
  g = e \/ (g <> a /\ g <> b /\ g <> c /\ g <> e /\ g <> f) ->
  h = f \/ h = e ->
  count_occ string_dec [a; e; b; c; f; g; d; h] x <= 3.
Proof.
  intros Hab Hac Hbc Hef Hae Haf Hbe Hbf Hce Hcf Hd Hg Hh.
  cbn [count_occ].
  destruct (string_dec a x) as [Ea|Na];
    destruct (string_dec e x) as [Ee|Ne]; try congruence;
    destruct (string_dec b x) as [Eb|Nb]; try congruence;
    destruct (string_dec c x) as [Ec|Nc]; try congruence;
    destruct (string_dec f x) as [Ef|Nf]; try congruence;
    destruct (string_dec g x) as [Eg|Ng];
    destruct (string_dec d x) as [Ed|Nd];
    destruct (string_dec h x) as [Eh|Nh];
    try lia;
    destruct Hd as [Hd | (D1 & D2 & D3 & D4 & D5)];
    destruct Hg as [Hg | (G1 & G2 & G3 & G4 & G5)];
    destruct Hh as [Hh | Hh]; congruence.
Qed.

Lemma filter_ids_NoDup (p : Player -> bool) (players : list Player) :
  NoDup (map id players) -> NoDup (map id (filter p players)).
Proof.
  induction players as [|q qs IH]; cbn [map filter]; [constructor|].
  intros Hnd; apply NoDup_cons_iff in Hnd; destruct Hnd as [Hq Hnd].
  destruct (p q); [|now apply IH].
  cbn [map]; constructor; [|now apply IH].
  intros Hin; apply Hq.
  apply in_map_iff in Hin; destruct Hin as (r & Hr & Hin).
  apply filter_In in Hin; rewrite <- Hr; apply in_map; tauto.
Qed.

Lemma ids_identify (players : list Player) (p q : Player) :
  NoDup (map id players) -> In p players -> In q players -> id p = id q -> p = q.
Proof.
  induction players as [|r rs IH]; cbn [map]; [intros _ []|].
  intros Hnd; apply NoDup_cons_iff in Hnd; destruct Hnd as [Hr Hnd].
  intros [<-|Hp] [<-|Hq] E; auto.
  - exfalso; apply Hr; rewrite E; now apply in_map.
  - exfalso; apply Hr; rewrite <- E; now apply in_map.
Qed.

(** With distinct ids, what [playerMap] holds under the id of a row is
    that row. *)
Lemma playerMap_row (players : list Player) (p : Player) :
  NoDup (map id players) -> In p players ->
  dget (id p) (fold_left (fun map player => dset (id player) player map) players []) = Some p.
Proof.
  assert (Hother : forall players (acc : Dict Player) k,
            ~ In k (map id players) ->
            dget k (fold_left (fun map player => dset (id player) player map) players acc)
              = dget k acc).
  { clear; induction players as [|q qs IH]; intros acc k Hk; cbn [fold_left]; [reflexivity|].
    cbn [map In] in Hk; rewrite IH by tauto.
    rewrite dget_dset; destruct (String.eqb_spec (id q) k); [tauto | reflexivity]. }
  assert (H : forall players (acc : Dict Player),
            NoDup (map id players) -> In p players ->
            dget (id p) (fold_left (fun map player => dset (id player) player map) players acc)
              = Some p).
  { clear players; induction players as [|q qs IH]; intros acc; cbn [map fold_left];
      [intros _ []|].
    intros Hnd [<-|Hin]; apply NoDup_cons_iff in Hnd; destruct Hnd as [Hq Hnd].
    - rewrite Hother by exact Hq.
      now rewrite dget_dset, String.eqb_refl.
    - now apply IH. }
  intros Hnd Hin; exact (H players [] Hnd Hin).
Qed.

Lemma usage_within_limit (lineup : Lineup) :
  (forall x, timesUsed lineup x <= 3) ->
  filter moreThan3 (Js.ownProperties (countUsage (allPlayerIds lineup))) = [].
Proof.
  intros Hall; destruct (overused_ids lineup) as [_ Hin]; cbv zeta in Hin.
  destruct (filter _ (Js.ownProperties (countUsage (allPlayerIds lineup))))
    as [|[k n] rest]; [reflexivity|].
  exfalso; assert (Hk : 3 < timesUsed lineup k /\ Js.reserved k = false)
    by (apply Hin; now left).
  specialize (Hall k); lia.
Qed.

Lemma filter_nil_existsb {A : Type} (p : A -> bool) (l : list A) :
  filter p l = [] -> existsb p l = false.
Proof.
  induction l as [|x l IH]; cbn; [reflexivity|].
  destruct (p x); [discriminate | exact IH].
Qed.

Section AutoLineup.

Variable players : list Player.
Variables m0 m1 m2 f0 f1 : Player.
Variables males females : list Player.

Hypothesis ids_distinct : NoDup (map id players).
Hypothesis enough : 5 <= List.length players.
Hypothesis the_men :
  filter (fun p => String.eqb (gender p) "male") players = m0 :: m1 :: m2 :: males.
Hypothesis the_women :
  filter (fun p => String.eqb (gender p) "female") players = f0 :: f1 :: females.

Lemma man_row (p : Player) :
  In p (m0 :: m1 :: m2 :: males) -> In p players /\ gender p = "male"%string.
Proof.
  rewrite <- the_men, filter_In, String.eqb_eq; tauto.
Qed.

Lemma woman_row (p : Player) :
  In p (f0 :: f1 :: females) -> In p players /\ gender p = "female"%string.
Proof.
  rewrite <- the_women, filter_In, String.eqb_eq; tauto.
Qed.

Lemma man_is_no_woman (p q : Player) :
  In p (m0 :: m1 :: m2 :: males) -> In q (f0 :: f1 :: females) -> id p <> id q.
Proof.
  intros Hp Hq E; apply man_row in Hp; apply woman_row in Hq.
  assert (p = q) by (apply (ids_identify players); tauto).
  subst q; destruct Hp as [_ Hp], Hq as [_ Hq]; rewrite Hp in Hq; discriminate Hq.
Qed.

(** The last man and the last woman of the generated lineup: the fallback
    or one more player of the same gender. *)
Lemma last_man :
  let d := idOr (nth_error males 0) (id m0) in
  d = id m0 \/ exists m3, In m3 males /\ d = id m3.
Proof.
  cbv zeta; unfold idOr; destruct males as [|m3 rest]; cbn [nth_error]; [now left|].
  destruct (Tiers.truthy (id m3)); [right; exists m3; split; [now left | reflexivity] | now left].
Qed.

Lemma last_woman :
  let g := idOr (nth_error females 0) (id f0) in
  g = id f0 \/ exists f2, In f2 females /\ g = id f2.
Proof.
  cbv zeta; unfold idOr; destruct females as [|f2 rest]; cbn [nth_error]; [now left|].
  destruct (Tiers.truthy (id f2)); [right; exists f2; split; [now left | reflexivity] | now left].
Qed.

Lemma mixed_woman :
  let h := idOr (Some f1) (id f0) in h = id f1 \/ h = id f0.
Proof. cbv zeta; unfold idOr; destruct (Tiers.truthy (id f1)); auto. Qed.

Lemma autoLineup_usage (x : string) :
  timesUsed (autoLineup m0 m1 m2 males f0 f1 females) x <= 3.
Proof.
  unfold timesUsed, autoLineup, allPlayerIds; cbn [mens_singles womens_singles mens_doubles
    womens_doubles mixed_doubles fst snd].
  pose proof (filter_ids_NoDup (fun p => String.eqb (gender p) "male") _ ids_distinct) as Hm.
  pose proof (filter_ids_NoDup (fun p => String.eqb (gender p) "female") _ ids_distinct) as Hf.
  rewrite the_men in Hm; rewrite the_women in Hf; cbn [map] in Hm, Hf.
  apply NoDup_cons_iff in Hm; destruct Hm as [Ha Hm].
  apply NoDup_cons_iff in Hm; destruct Hm as [Hb Hm].
  apply NoDup_cons_iff in Hm; destruct Hm as [Hc Hm].
  apply NoDup_cons_iff in Hf; destruct Hf as [He Hf].
  apply NoDup_cons_iff in Hf; destruct Hf as [Hf' Hf].
  cbn [In] in Ha, Hb, He.
  assert (Hcross : forall p q, In p (m0 :: m1 :: m2 :: males) ->
                               In q (f0 :: f1 :: females) -> id p <> id q)
    by exact man_is_no_woman.
  apply eight_places.
  - intros E; apply Ha; left; now symmetry.
  - intros E; apply Ha; right; left; now symmetry.
  - intros E; apply Hb; left; now symmetry.
  - intros E; apply He; left; now symmetry.
  - apply Hcross; cbn; auto.
  - apply Hcross; cbn; auto.
  - apply Hcross; cbn; auto.
  - apply Hcross; cbn; auto.
  - apply Hcross; cbn; auto.
  - apply Hcross; cbn; auto.
  - destruct last_man as [E | (m3 & Hin & E)]; [now left|]; right; rewrite E.
    assert (Hid : In (id m3) (map id males)) by now apply in_map.
    repeat split.
    + intros E'; apply Ha; right; right; now rewrite <- E'.
    + intros E'; apply Hb; right; now rewrite <- E'.
    + intros E'; apply Hc; now rewrite <- E'.
    + apply Hcross; cbn; auto.
    + apply Hcross; cbn; auto.
  - destruct last_woman as [E | (f2 & Hin & E)]; [now left|]; right; rewrite E.
    assert (Hid : In (id f2) (map id females)) by now apply in_map.
    repeat split.
    + intros E'; apply (Hcross m0 f2); cbn; auto.
    + intros E'; apply (Hcross m1 f2); cbn; auto.
    + intros E'; apply (Hcross m2 f2); cbn; auto.
    + intros E'; apply He; right; now rewrite <- E'.
    + intros E'; apply Hf'; now rewrite <- E'.
  - exact mixed_woman.
Qed.

End AutoLineup.

(** X19. When the store answers the query of a team's players with at
    least five rows of distinct ids, at least three of them male and two
    female, the generated lineup uses no player more than three times, so
    that [autoGenerateLineup] answers what [submitLineup] answers for it;
    and [validateLineupConstraints] accepts it when the store answers the
    query of its players with the rows of the same players. *)
Theorem generated_lineup_is_accepted
    (players : list Player) (m0 m1 m2 f0 f1 : Player) (males females : list Player)
    (submitLineup : Lineup -> Scheduler.Outcome) :
  NoDup (map id players) ->
  5 <= List.length players ->
  filter (fun p => String.eqb (gender p) "male") players = m0 :: m1 :: m2 :: males ->
  filter (fun p => String.eqb (gender p) "female") players = f0 :: f1 :: females ->
  let lineup := autoLineup m0 m1 m2 males f0 f1 females in
  autoGenerateLineup (Standings.fetched players) submitLineup = submitLineup lineup /\
  (forall x, timesUsed lineup x <= 3) /\
  validateLineupConstraints lineup
    (Standings.fetched
       (filter (fun p => existsb (String.eqb (id p)) (allPlayerIds lineup)) players)) =
  mkValidation true None.
Proof.
  intros Hnd Hfive Hmen Hwomen lineup.
  assert (Husage : forall x, timesUsed lineup x <= 3)
    by (intros x; exact (autoLineup_usage players m0 m1 m2 f0 f1 males females
                           Hnd Hmen Hwomen x)).
  pose proof (usage_within_limit lineup Husage) as Hnone.
  split; [|split; [exact Husage|]].
  - unfold autoGenerateLineup, Standings.fetched; cbn [Standings.error Standings.data].
    replace (List.length players <? 5) with false by (symmetry; apply Nat.ltb_ge; lia).
    rewrite Hmen, Hwomen; fold lineup.
    unfold validatePlayerUsageLimit; rewrite Hnone; reflexivity.
  - set (rows := filter (fun p => existsb (String.eqb (id p)) (allPlayerIds lineup)) players).
    set (playerMap := fold_left (fun map player => dset (id player) player map) rows []).
    assert (Hslot : forall q s, In q players -> id q = s -> In s (allPlayerIds lineup) ->
                                dget s playerMap = Some q).
    { intros q s Hq <- Hs; apply playerMap_row; [now apply filter_ids_NoDup|].
      apply filter_In; split; [exact Hq|].
      apply existsb_exists; exists (id q); split; [exact Hs | apply String.eqb_refl]. }
    assert (Hman : forall q, In q (m0 :: m1 :: m2 :: males) ->
                             In q players /\ gender q = "male"%string)
      by (intros q; apply (man_row players m0 m1 m2 males Hmen)).
    assert (Hwoman : forall q, In q (f0 :: f1 :: females) ->
                               In q players /\ gender q = "female"%string)
      by (intros q; apply (woman_row players f0 f1 females Hwomen)).
    assert (Hd : exists q, In q (m0 :: m1 :: m2 :: males) /\
                           idOr (nth_error males 0) (id m0) = id q).
    { destruct (last_man players m0 m1 m2 males Hmen) as [E | (m3 & Hin & E)];
        [exists m0 | exists m3]; split; cbn; auto. }
    assert (Hg : exists q, In q (f0 :: f1 :: females) /\
                           idOr (nth_error females 0) (id f0) = id q).
    { destruct (last_woman players f0 f1 females Hwomen) as [E | (f2 & Hin & E)];
        [exists f0 | exists f2]; split; cbn; auto. }
    assert (Hh : exists q, In q (f0 :: f1 :: females) /\ idOr (Some f1) (id f0) = id q).
    { destruct (mixed_woman f0 f1) as [E | E]; [exists f1 | exists f0]; split; cbn; auto. }
    destruct Hd as (qd & Hqd & Ed), Hg as (qg & Hqg & Eg), Hh as (qh & Hqh & Eh).
    assert (Hplace : forall s, In s [id m0; id f0; id m1; id m2; id f1;
                                     idOr (nth_error females 0) (id f0);
                                     idOr (nth_error males 0) (id m0);
                                     idOr (Some f1) (id f0)] ->
                               In s (allPlayerIds lineup))
      by (intros s Hs; exact Hs).
    assert (G1 : dget (id m0) playerMap = Some m0)
      by (apply Hslot; [apply Hman | | apply Hplace]; cbn; auto).
    assert (G2 : dget (id f0) playerMap = Some f0)
      by (apply Hslot; [apply Hwoman | | apply Hplace]; cbn; auto).
    assert (G3 : dget (id m1) playerMap = Some m1)
      by (apply Hslot; [apply Hman | | apply Hplace]; cbn; auto).
    assert (G4 : dget (id m2) playerMap = Some m2)
      by (apply Hslot; [apply Hman | | apply Hplace]; cbn; auto).
    assert (G5 : dget (id f1) playerMap = Some f1)
      by (apply Hslot; [apply Hwoman | | apply Hplace]; cbn; auto 6).
    assert (G6 : dget (idOr (nth_error females 0) (id f0)) playerMap = Some qg)
      by (apply Hslot; [now apply Hwoman | now symmetry | apply Hplace; cbn; auto 7]).
    assert (G7 : dget (idOr (nth_error males 0) (id m0)) playerMap = Some qd)
      by (apply Hslot; [now apply Hman | now symmetry | apply Hplace; cbn; auto 8]).
    assert (G8 : dget (idOr (Some f1) (id f0)) playerMap = Some qh)
      by (apply Hslot; [now apply Hwoman | now symmetry | apply Hplace; cbn; auto 9]).
    unfold validateLineupConstraints, Standings.fetched;
      cbn [Standings.error Standings.data].
    rewrite (filter_nil_existsb _ _ Hnone).
    fold rows; fold playerMap.
    unfold lineup, autoLineup; cbn [mens_singles womens_singles mens_doubles
      womens_doubles mixed_doubles fst snd].
    rewrite G1, G2, G3, G4, G5, G6, G7, G8; unfold hasGender; cbn [existsb find].
    rewrite (proj2 (Hman m0 (or_introl eq_refl))), (proj2 (Hwoman f0 (or_introl eq_refl))),
            (proj2 (Hman m1 (or_intror (or_introl eq_refl)))),
            (proj2 (Hman m2 (or_intror (or_intror (or_introl eq_refl))))),
            (proj2 (Hwoman f1 (or_intror (or_introl eq_refl)))),
            (proj2 (Hwoman _ Hqg)), (proj2 (Hman _ Hqd)), (proj2 (Hwoman _ Hqh)).
    reflexivity.
Qed.

Lemma generated_lineup_is_accepted_witness :
  NoDup (map id squad) /\
  autoGenerateLineup (Standings.fetched squad) (fun _ => Scheduler.mkOutcome true None) =
    Scheduler.mkOutcome true None /\
  (forall x, timesUsed (autoLineup anders carl dan [] bea eva []) x <= 3) /\
  validateLineupConstraints (autoLineup anders carl dan [] bea eva [])
    (Standings.fetched
       (filter (fun p => existsb (String.eqb (id p))
                                 (allPlayerIds (autoLineup anders carl dan [] bea eva [])))
               squad)) =
  mkValidation true None.
Proof.
  assert (Hnd : NoDup (map id squad)).
  { repeat constructor; simpl; intros H; repeat destruct H as [H|H];
      try discriminate H; exact H. }
  split; [exact Hnd|].
  exact (generated_lineup_is_accepted squad anders carl dan bea eva [] []
           (fun _ => Scheduler.mkOutcome true None) Hnd (le_n 5) eq_refl eq_refl).
Defined.

End LineupsFacts.

(** ** The standings written to a season *)

Module GroupsFacts.

Import Standings Groups.
Local Open Scope Z_scope.

Lemma findIndex_first {A : Type} (p : A -> bool) (l : list A) (from : Z) :
  0 <= from ->
  (findIndex p l from = -1 /\ forall x, In x l -> p x = false) \/
  exists before x after,
    l = before ++ x :: after /\
    (forall b, In b before -> p b = false) /\
    p x = true /\
    findIndex p l from = from + Z.of_nat (List.length before).
Proof.
  revert from; induction l as [|y l IH]; intros from Hfrom; cbn [findIndex].
  - left; split; [reflexivity | intros x []].
  - destruct (p y) eqn:E.
    + right; exists [], y, l; cbn; repeat split; [intros b [] | exact E | lia].
    + destruct (IH (from + 1) ltac:(lia)) as [[Hnone Hall] | (before & x & after & -> & Hb & Hx & Hi)].
      * left; split; [exact Hnone|]; intros x [<-|Hx]; auto.
      * right; exists (y :: before), x, after; cbn [app List.length]; repeat split.
        -- intros b [<-|Hin]; auto.
        -- exact Hx.
        -- rewrite Hi; lia.
Qed.

Lemma update_nth_middle {A : Type} (f : A -> A) (before : list A) (x : A) (after : list A) :
  update_nth (List.length before) f (before ++ x :: after) = before ++ f x :: after.
Proof. induction before as [|b before IH]; cbn; [reflexivity | now rewrite IH]. Qed.

(** X20. Once the season is found, the method writes the groups back
    exactly when one of them has the group number asked for; what it
    writes is the same list of groups in which the first group with that
    number carries the standings just computed, every other group, a
    later one with the same number included, being left as it was. *)
Theorem standings_go_to_the_first_group {A : Type} (groupNumber : Z)
    (encounters : StoreResponse (list Encounter))
    (registrations : StoreResponse (list Registration))
    (groups : list (Group A)) :
  let written := updateGroupStandings groupNumber encounters registrations
                   (mkResponse (Some (Some groups)) None) in
  (written = None <-> forall g, In g groups -> group_number g <> groupNumber) /\
  (forall groups', written = Some groups' ->
     exists before g after,
       groups = before ++ g :: after /\
       (forall b, In b before -> group_number b <> groupNumber) /\
       group_number g = groupNumber /\
       groups' = before ++
                 mkGroup groupNumber (getGroupStandings encounters registrations) (others g)
                 :: after).
Proof.
  cbv zeta; unfold updateGroupStandings; cbn [error data].
  destruct (findIndex_first (fun g : Group A => group_number g =? groupNumber) groups 0
              ltac:(lia))
    as [[Hnone Hall] | (before & g & after & -> & Hb & Hg & Hi)].
  - rewrite Hnone; cbn; split; [|discriminate].
    split; [intros _ g Hg E | reflexivity].
    specialize (Hall g Hg); cbn in Hall; apply Z.eqb_neq in Hall; contradiction.
  - rewrite Hi.
    replace (0 <=? 0 + Z.of_nat (List.length before)) with true
      by (symmetry; apply Z.leb_le; lia).
    replace (Z.to_nat (0 + Z.of_nat (List.length before))) with (List.length before) by lia.
    rewrite update_nth_middle; apply Z.eqb_eq in Hg.
    split.
    + split; [discriminate|].
      intros H; exfalso; apply (H g); [apply in_or_app; right; now left | exact Hg].
    + intros groups' [= <-]; exists before, g, after.
      split; [reflexivity|]; split; [|split; [exact Hg | now rewrite Hg]].
      intros b Hin; specialize (Hb b Hin); cbn in Hb; now apply Z.eqb_neq in Hb.
Qed.

End GroupsFacts.

(** ** The execution of an encounter *)

Module ExecutionFacts.

Import Standings StandingsFacts StandingsInvariants Execution.

Section Played.

Variable executeIndividualMatch : string -> option IndividualResult.


End Played.



(** A home side that wins the five matches: score 5-0, home team recorded
    as winner. *)
Example home_sweep_execution :
  executeEncounter fiveTypes homeSweep accepted (mkResponse (Some readyRow) None) =
  mkExecution true None
    (Some (mkSummary "5-0" "home" [wonAtHome; wonAtHome; wonAtHome; wonAtHome; wonAtHome])).
Proof. reflexivity. Qed.

End ExecutionFacts.

(** ** The winner of a tournament *)

Module BracketFacts.

Import Standings StandingsFacts Bracket.
Local Open Scope Z_scope.

Lemma pop_last {A : Type} (l : list A) (x : A) :
  pop l = Some x -> exists front, l = front ++ [x].
Proof.
  unfold pop; destruct (rev l) as [|y ys] eqn:E; [discriminate|].
  intros [= <-]; exists (rev ys).
  rewrite <- (rev_involutive l), E; reflexivity.
Qed.

(** The last element of a sorted list stands after all the others. *)
Lemma sorted_last {A : Type} (R : A -> A -> Prop) (front : list A) (x y : A) :
  StronglySorted R (front ++ [x]) -> In y front -> R y x.
Proof.
  induction front as [|z front IH]; cbn [app]; [intros _ []|].
  intros Hs; inversion Hs as [|z' l' Hl Hz]; subst.
  intros [<-|Hy]; [|now apply IH].
  rewrite Forall_forall in Hz; apply Hz, in_or_app; right; now left.
Qed.

(** What [sort(cmp).pop()] picks with a comparator that subtracts keys: an
    element of the array whose key no other exceeds. *)
Lemma pop_sorted_max {A : Type} (key : A -> Z) (l : list A) (x : A) :
  pop (sortBy (fun a b => key a - key b) l) = Some x ->
  In x l /\ forall y, In y l -> key y <= key x.
Proof.
  intros Hpop; destruct (pop_last _ _ Hpop) as (front & Hfront).
  pose proof (sortBy_Permutation (fun a b => key a - key b) l) as Hperm.
  pose proof (sortBy_sorted (fun a b => key a - key b) (fun a b => key a <= key b)) as Hs.
  specialize (Hs ltac:(cbv beta; intros; lia) ltac:(cbv beta; intros; lia)
                 ltac:(cbv beta; intros; lia) l).
  rewrite Hfront in Hs, Hperm; split.
  - apply (Permutation_in _ Hperm), in_or_app; right; now left.
  - intros y Hy; apply (Permutation_in _ (Permutation_sym Hperm)) in Hy.
    apply in_app_iff in Hy; destruct Hy as [Hy | [<- | []]]; [|lia].
    exact (sorted_last _ _ _ _ Hs Hy).
Qed.

(** X22. When [getTournamentWinner] answers a player, that player is the
    row the store gave for the winner of a match of a round of the highest
    level, all the matches of that round are completed, and none of them
    is scheduled later than that match. *)
Theorem tournament_winner_is_from_the_last_match {PlayerRow : Type}
    (fetchPlayer : string -> StoreResponse PlayerRow) (rounds : list Round)
    (player : PlayerRow) :
  getTournamentWinner PlayerRow fetchPlayer rounds = Some player ->
  exists finalRound finalMatches lastMatch id,
    In finalRound rounds /\
    (forall r, In r rounds -> level r <= level finalRound) /\
    matches finalRound = Some finalMatches /\
    (forall m, In m finalMatches ->
       completed m = true /\ scheduledStart m <= scheduledStart lastMatch) /\
    In lastMatch finalMatches /\
    winnerId lastMatch = Some id /\ id <> EmptyString /\
    error (fetchPlayer id) = None /\ data (fetchPlayer id) = Some player.
Proof.
  unfold getTournamentWinner.
  destruct rounds as [|r0 rs] eqn:Erounds; [discriminate|]; rewrite <- Erounds; clear Erounds.
  destruct (pop (sortBy (fun a b => level a - level b) rounds)) as [finalRound|] eqn:Efinal;
    [|discriminate].
  destruct (pop_sorted_max level _ _ Efinal) as [Hin Hmax].
  destruct (matches finalRound) as [[|m0 ms]|] eqn:Ematches; try discriminate.
  set (finalMatches := m0 :: ms) in *.
  destruct (forallb completed finalMatches) eqn:Eall; cbn [negb]; [|discriminate].
  destruct (pop (sortBy (fun a b => scheduledStart a - scheduledStart b) finalMatches))
    as [lastMatch|] eqn:Elast; [|discriminate].
  destruct (pop_sorted_max scheduledStart _ _ Elast) as [Hlast Hlatest].
  destruct (winnerId lastMatch) as [id|] eqn:Eid; [|discriminate].
  destruct (Tiers.truthy id) eqn:Etruthy; [|discriminate].
  destruct (error (fetchPlayer id)) eqn:Eerr; [discriminate|].
  intros Hdata; exists finalRound, finalMatches, lastMatch, id.
  split; [exact Hin|]; split; [exact Hmax|]; split; [exact Ematches|].
  split; [|split; [exact Hlast|]; split; [exact Eid|]; split;
            [|split; [exact Eerr | exact Hdata]]].
  - intros m Hm; split; [|now apply Hlatest].
    rewrite forallb_forall in Eall; now apply Eall.
  - intros ->; discriminate Etruthy.
Qed.

Lemma tournament_winner_is_from_the_last_match_witness :
  getTournamentWinner string knownPlayer [final; semiFinals] = Some "p1"%string /\
  exists finalRound finalMatches lastMatch id,
    In finalRound [final; semiFinals] /\
    (forall r, In r [final; semiFinals] -> level r <= level finalRound) /\
    matches finalRound = Some finalMatches /\
    (forall m, In m finalMatches ->
       completed m = true /\ scheduledStart m <= scheduledStart lastMatch) /\
    In lastMatch finalMatches /\
    winnerId lastMatch = Some id /\ id <> EmptyString /\
    error (knownPlayer id) = None /\ data (knownPlayer id) = Some "p1"%string.
Proof.
  split; [reflexivity|].
  exact (tournament_winner_is_from_the_last_match knownPlayer [final; semiFinals]
           "p1"%string eq_refl).
Defined.

End BracketFacts.
